(** * nquads: a streaming N-Quads reader

    Shallow embedding of the Go package [nquads] (reader, term lexers and
    quad assembler) and the properties established about it.

    Conventions.
    - A Go [rune] (int32) is a [Z]; the only arithmetic that can leave the
      int32 range is the accumulation of a numeric escape, where the
      wrap-around is written out with [wrap32].  The counters [line] and
      [column] are Go [int]s (64 bits) that move by one per line or rune
      of the input; they are [Z]s without a bound.
    - A Go [string] and the contents of a [bytes.Buffer] are byte
      sequences: Rocq [string]s (one [ascii] per byte).
    - A Go [error] value is an [option error]; [None] is [nil].
    - Functions with a [Reader] receiver pass the reader state explicitly.
      Loops of the form [for { ... }] take a fuel argument; a run that
      exhausts it yields [None].  Every entry point supplies more fuel than
      there are unread bytes, which always suffices (see [Next_total]). *)

From Stdlib Require Import ZArith List String Ascii Bool Lia.
Import ListNotations.

Local Open Scope string_scope.
Local Open Scope Z_scope.

(** ** Runes and bytes *)

Definition rune := Z.

(** Conversion of a Go [int] result to int32, two's complement. *)
Definition wrap32 (z : Z) : Z := (z + 2 ^ 31) mod 2 ^ 32 - 2 ^ 31.

(** [uint32(r)] for an int32 [r]. *)
Definition uint32 (z : Z) : Z := z mod 2 ^ 32.

Definition byteZ (c : ascii) : Z := Z.of_N (N_of_ascii c).
Definition Zbyte (z : Z) : ascii := ascii_of_N (Z.to_N (z mod 256)).

(** A rune literal such as ['<'] is written [ch "<"]; control characters use
    the decimal form, e.g. [ch "010"] for ['\n']. *)
Definition ch (c : ascii) : rune := byteZ c.

Definition bytes (l : list Z) : string := string_of_list_ascii (map Zbyte l).

(** [s[n:]] and [s[:n]] on byte strings (no bounds failure: clipped). *)
Fixpoint drop (n : nat) (s : string) : string :=
  match n, s with
  | O, _ => s
  | S _, EmptyString => EmptyString
  | S k, String _ tl => drop k tl
  end.

Fixpoint take (n : nat) (s : string) : string :=
  match n, s with
  | O, _ => EmptyString
  | S _, EmptyString => EmptyString
  | S k, String c tl => String c (take k tl)
  end.

Fixpoint Contains_byte (c : ascii) (s : string) : bool :=
  match s with
  | EmptyString => false
  | String d tl => if Ascii.eqb d c then true else Contains_byte c tl
  end.

(** ** Go's [unicode/utf8], as far as [ReadRune] and [WriteRune] use it *)

Module utf8.

Definition RuneError : rune := 0xFFFD.
Definition RuneSelf : Z := 0x80.
Definition MaxRune : rune := 0x10FFFF.
Definition surrogateMin : Z := 0xD800.
Definition surrogateMax : Z := 0xDFFF.

(** [utf8.AppendRune(nil, r)]: the comparison is made on [uint32(r)], so a
    negative rune, a surrogate and a value above [MaxRune] are all encoded
    as [RuneError]. *)
Definition EncodeRune (r : rune) : string :=
  let i := uint32 r in
  if i <=? 0x7F then bytes [i]
  else if i <=? 0x7FF then
    bytes [Z.lor 0xC0 (Z.shiftr i 6); Z.lor 0x80 (Z.land i 0x3F)]
  else if (MaxRune <? i) || ((surrogateMin <=? i) && (i <=? surrogateMax)) then
    bytes [0xEF; 0xBF; 0xBD]
  else if i <=? 0xFFFF then
    bytes [Z.lor 0xE0 (Z.shiftr i 12);
           Z.lor 0x80 (Z.land (Z.shiftr i 6) 0x3F);
           Z.lor 0x80 (Z.land i 0x3F)]
  else
    bytes [Z.lor 0xF0 (Z.shiftr i 18);
           Z.lor 0x80 (Z.land (Z.shiftr i 12) 0x3F);
           Z.lor 0x80 (Z.land (Z.shiftr i 6) 0x3F);
           Z.lor 0x80 (Z.land i 0x3F)].

(** The [first] table together with [acceptRanges]: for a lead byte, the
    length of the sequence and the range allowed for the second byte;
    [None] for a byte that cannot start a multi-byte sequence. *)
Definition lead (p0 : Z) : option (nat * Z * Z) :=
  if p0 <? 0xC2 then None
  else if p0 <=? 0xDF then Some (2%nat, 0x80, 0xBF)
  else if p0 =? 0xE0 then Some (3%nat, 0xA0, 0xBF)
  else if p0 <=? 0xEC then Some (3%nat, 0x80, 0xBF)
  else if p0 =? 0xED then Some (3%nat, 0x80, 0x9F)
  else if p0 <=? 0xEF then Some (3%nat, 0x80, 0xBF)
  else if p0 =? 0xF0 then Some (4%nat, 0x90, 0xBF)
  else if p0 <=? 0xF3 then Some (4%nat, 0x80, 0xBF)
  else if p0 =? 0xF4 then Some (4%nat, 0x80, 0x8F)
  else None.

Definition cont (b : Z) : bool := (0x80 <=? b) && (b <=? 0xBF).

(** [utf8.DecodeRune(p)] for a non-empty [p] whose first byte is not ASCII
    (the only way [bufio.Reader.ReadRune] calls it). *)
Definition DecodeRune (p : string) : rune * nat :=
  match map byteZ (list_ascii_of_string p) with
  | [] => (RuneError, 0%nat)
  | p0 :: ps =>
    match lead p0 with
    | None => (RuneError, 1%nat)
    | Some (sz, lo, hi) =>
      match sz, ps with
      | 2%nat, b1 :: _ =>
        if (lo <=? b1) && (b1 <=? hi)
        then (Z.lor (Z.shiftl (Z.land p0 0x1F) 6) (Z.land b1 0x3F), 2%nat)
        else (RuneError, 1%nat)
      | 3%nat, b1 :: b2 :: _ =>
        if (lo <=? b1) && (b1 <=? hi) && cont b2
        then (Z.lor (Z.shiftl (Z.land p0 0x0F) 12)
                (Z.lor (Z.shiftl (Z.land b1 0x3F) 6) (Z.land b2 0x3F)), 3%nat)
        else (RuneError, 1%nat)
      | 4%nat, b1 :: b2 :: b3 :: _ =>
        if (lo <=? b1) && (b1 <=? hi) && cont b2 && cont b3
        then (Z.lor (Z.shiftl (Z.land p0 0x07) 18)
                (Z.lor (Z.shiftl (Z.land b1 0x3F) 12)
                   (Z.lor (Z.shiftl (Z.land b2 0x3F) 6) (Z.land b3 0x3F))), 4%nat)
        else (RuneError, 1%nat)
      | _, _ => (RuneError, 1%nat)
      end
    end
  end.

End utf8.

(** ** Errors *)

(** The error values the package can hand out: its own sentinels, the two
    that come from the standard library ([io.EOF] and
    [bufio.ErrInvalidUnreadRune]), and [ParseError], which wraps another
    error with a position.  [ErrUnexpectedEOF] is [io.ErrUnexpectedEOF]. *)
Inductive error : Type :=
| EOF
| ErrInvalidUnreadRune
| ErrUnexpectedCharacter
| ErrInvalidCodepointExpression
| ErrUnexpectedEOF
| ErrUnterminatedQuad
| ErrRelativeIRI
| ParseError (Line Column : Z) (Err : error).

(** [Unwrap] of a [ParseError], repeated: the innermost cause, which is what
    [errors.Is] compares against a sentinel. *)
Fixpoint Unwrap (e : error) : error :=
  match e with
  | ParseError _ _ e' => Unwrap e'
  | _ => e
  end.

(** ** The buffered source: Go's [bufio.Reader] over a finite input *)

Module bufio.

(** [rest] holds the bytes not yet consumed (buffered or still in the
    underlying source, which is a finite byte sequence and reports nothing
    but [io.EOF] at its end).  [lastRune] is [Some bs] when the previous
    operation was a [ReadRune] that consumed [bs] (the library's
    [lastRuneSize >= 0]) and [None] otherwise. *)
Record Reader : Type := mk { rest : string; lastRune : option string }.

Definition NewReader (input : string) : Reader :=
  {| rest := input; lastRune := None |}.

Definition ReadRune (b : Reader) : (rune * nat * option error) * Reader :=
  match rest b with
  | EmptyString => ((0, 0%nat, Some EOF), {| rest := rest b; lastRune := None |})
  | String c _ =>
    let '(r, size) :=
      if byteZ c <? utf8.RuneSelf then (byteZ c, 1%nat)
      else utf8.DecodeRune (rest b) in
    ((r, size, None),
     {| rest := drop size (rest b); lastRune := Some (take size (rest b)) |})
  end.

Definition UnreadRune (b : Reader) : option error * Reader :=
  match lastRune b with
  | None => (Some ErrInvalidUnreadRune, b)
  | Some bs => (None, {| rest := bs ++ rest b; lastRune := None |})
  end.

(** [Peek(n)] for an [n] below the buffer size: the next [n] bytes, or
    fewer together with [io.EOF].  It invalidates [UnreadRune]. *)
Definition Peek (n : nat) (b : Reader) : (string * option error) * Reader :=
  let b' := {| rest := rest b; lastRune := None |} in
  if (String.length (rest b) <? n)%nat
  then ((rest b, Some EOF), b')
  else ((take n (rest b), None), b').

End bufio.

(** ** Terms and quads *)

Module rdf.

(** Modelled from the spec: the term type [rdf.Term] of the package
    github.com/iand/gordf, which this repository imports and whose
    declaration is not among its sources.  The spec's data model gives the
    four kinds and their payloads; the field names are the ones the reader
    uses ([Kind], [Value], [Datatype]) and the zero value has kind
    [UnknownTerm], as [Quad.String] relies on. *)
Inductive TermKind : Type := UnknownTerm | IRITerm | BlankTerm | LiteralTerm.

Record Term : Type := mk {
  Value : string;
  Language : string;
  Datatype : string;
  Kind : TermKind
}.

(** [rdf.Term{}] *)
Definition zero : Term := mk EmptyString EmptyString EmptyString UnknownTerm.

Definition IRI (iri : string) : Term := mk iri EmptyString EmptyString IRITerm.
Definition Blank (id : string) : Term := mk id EmptyString EmptyString BlankTerm.
Definition Literal (value : string) : Term :=
  mk value EmptyString EmptyString LiteralTerm.
Definition LiteralWithLanguage (value language : string) : Term :=
  mk value language EmptyString LiteralTerm.
Definition LiteralWithDatatype (value datatype : string) : Term :=
  mk value EmptyString datatype LiteralTerm.

Definition Kind_eqb (a b : TermKind) : bool :=
  match a, b with
  | UnknownTerm, UnknownTerm | IRITerm, IRITerm
  | BlankTerm, BlankTerm | LiteralTerm, LiteralTerm => true
  | _, _ => false
  end.

End rdf.

Module Quad.

(** [type Quad struct { S, P, O, G rdf.Term }] *)
Record t : Type := mk { S : rdf.Term; P : rdf.Term; O : rdf.Term; G : rdf.Term }.

(** [Quad{}] *)
Definition zero : t := mk rdf.zero rdf.zero rdf.zero rdf.zero.

Definition with_S (x : rdf.Term) (q : t) : t := mk x (P q) (O q) (G q).
Definition with_P (x : rdf.Term) (q : t) : t := mk (S q) x (O q) (G q).
Definition with_O (x : rdf.Term) (q : t) : t := mk (S q) (P q) x (G q).
Definition with_G (x : rdf.Term) (q : t) : t := mk (S q) (P q) (O q) x.

End Quad.

(** ** The reader *)

Record Reader : Type := mkReader {
  line : Z;
  column : Z;
  r : bufio.Reader;
  buf : string;
  err : option error;
  q : Quad.t
}.

Definition with_line (x : Z) (rd : Reader) : Reader :=
  mkReader x (column rd) (r rd) (buf rd) (err rd) (q rd).
Definition with_column (x : Z) (rd : Reader) : Reader :=
  mkReader (line rd) x (r rd) (buf rd) (err rd) (q rd).
Definition with_r (x : bufio.Reader) (rd : Reader) : Reader :=
  mkReader (line rd) (column rd) x (buf rd) (err rd) (q rd).
Definition with_buf (x : string) (rd : Reader) : Reader :=
  mkReader (line rd) (column rd) (r rd) x (err rd) (q rd).
Definition with_err (x : option error) (rd : Reader) : Reader :=
  mkReader (line rd) (column rd) (r rd) (buf rd) x (q rd).
Definition with_q (x : Quad.t) (rd : Reader) : Reader :=
  mkReader (line rd) (column rd) (r rd) (buf rd) (err rd) x.

Definition NewReader (input : string) : Reader :=
  mkReader 0 0 (bufio.NewReader input) EmptyString None Quad.zero.

(** [(r *Reader).Err] and [(r *Reader).Quad] *)
Definition Err (rd : Reader) : option error := err rd.
Definition Quad (rd : Reader) : Quad.t := q rd.

(** ** Character classifiers *)

Definition isNumeral (c : rune) : bool := (ch "0" <=? c) && (c <=? ch "9").

Definition isAlpha (c : rune) : bool :=
  ((ch "A" <=? c) && (c <=? ch "Z")) || ((ch "a" <=? c) && (c <=? ch "z")).

Definition isSpace (c : rune) : bool := (c =? ch " ") || (c =? ch "009").

Definition isPnCharsBase (c : rune) : bool :=
  if isAlpha c then true
  else if (0x00C0 <=? c) && (c <=? 0x00D6) then true
  else if (0x00D8 <=? c) && (c <=? 0x00F6) then true
  else if (0x00F8 <=? c) && (c <=? 0x02FF) then true
  else if (0x0370 <=? c) && (c <=? 0x037D) then true
  else if (0x037F <=? c) && (c <=? 0x1FFF) then true
  else if (0x200C <=? c) && (c <=? 0x200D) then true
  else if (0x2070 <=? c) && (c <=? 0x218F) then true
  else if (0x2C00 <=? c) && (c <=? 0x2FEF) then true
  else if (0x3001 <=? c) && (c <=? 0xD7FF) then true
  else if (0xF900 <=? c) && (c <=? 0xFDCF) then true
  else if (0xFDF0 <=? c) && (c <=? 0xFFFD) then true
  else if (0x10000 <=? c) && (c <=? 0xEFFFF) then true
  else false.

Definition isPnCharsU (c : rune) : bool :=
  if (c =? ch "_") || (c =? ch ":") then true
  else if isPnCharsBase c then true
  else false.

Definition isPnChars (c : rune) : bool :=
  if (c =? ch "-") || (c =? 0x00B7) then true
  else if isNumeral c then true
  else if isPnCharsU c then true
  else if (0x0300 <=? c) && (c <=? 0x036F) then true
  else if (0x203F <=? c) && (c <=? 0x2040) then true
  else false.

(** [strings.Contains(s, ":")] *)
Definition isAbsoluteIRI (s : string) : bool := Contains_byte ":" s.

(** ** The rune cursor *)

Definition readRune (rd : Reader) : (rune * option error) * Reader :=
  let '((r1, _, e), b) := bufio.ReadRune (r rd) in
  if r1 =? ch "013" then
    let '((r1', _, e'), b') := bufio.ReadRune b in
    match e' with
    | None =>
      if negb (r1' =? ch "010") then
        match bufio.UnreadRune b' with
        | (Some e'', b'') => ((r1', Some e''), with_r b'' rd)
        | (None, b'') =>
          ((ch "013", None), with_column (column rd + 1) (with_r b'' rd))
        end
      else ((r1', None), with_column (column rd + 1) (with_r b' rd))
    | Some _ => ((r1', e'), with_column (column rd + 1) (with_r b' rd))
    end
  else ((r1, e), with_column (column rd + 1) (with_r b rd)).

Definition unreadRune (rd : Reader) : option error * Reader :=
  match bufio.UnreadRune (r rd) with
  | (Some e, b) => (Some e, with_r b rd)
  | (None, b) => (None, with_column (column rd - 1) (with_r b rd))
  end.

(** ** A state monad for the lexers *)

(** A computation on the reader that may produce no result: [None] stands
    for a loop that ran out of fuel or a run-time panic (an index out of
    range), neither of which occurs (see [Next_total]). *)
Definition M (A : Type) : Type := Reader -> option (A * Reader).

Definition ret {A : Type} (a : A) : M A := fun rd => Some (a, rd).

Definition bind {A B : Type} (m : M A) (k : A -> M B) : M B :=
  fun rd => match m rd with
            | None => None
            | Some (a, rd') => k a rd'
            end.

Definition lift {A : Type} (f : Reader -> A * Reader) : M A :=
  fun rd => Some (f rd).

Definition gets {A : Type} (f : Reader -> A) : M A := fun rd => Some (f rd, rd).

Definition modify (f : Reader -> Reader) : M unit := fun rd => Some (tt, f rd).

Definition no_result {A : Type} : M A := fun _ => None.

Declare Scope reader_scope.
Delimit Scope reader_scope with reader.

Notation "x <- m ;; k" := (bind m (fun x => k))
  (at level 61, m at next level, right associativity) : reader_scope.
Notation "' pat <- m ;; k" := (bind m (fun x => match x with pat => k end))
  (at level 61, pat pattern, m at next level, right associativity) : reader_scope.
Notation "m ;; k" := (bind m (fun _ => k))
  (at level 61, right associativity) : reader_scope.

Local Open Scope reader_scope.

(** More fuel than there are unread bytes. *)
Definition fuel_of (rd : Reader) : nat :=
  S (String.length (bufio.rest (r rd))).

Definition with_fuel {A : Type} (f : nat -> M A) : M A :=
  fun rd => f (fuel_of rd) rd.

(** [r.wrap(err)] *)
Definition wrap (e : error) : M error :=
  gets (fun rd => ParseError (line rd) (column rd) e).

(** [r.buf.WriteRune(r1)], [r.buf.Reset()], [r.buf.String()] and
    [r.buf.Len() == 0] *)
Definition WriteRune (r1 : rune) : M unit :=
  modify (fun rd => with_buf (buf rd ++ utf8.EncodeRune r1)%string rd).
Definition Reset : M unit := modify (with_buf EmptyString).
Definition buf_String : M string := gets buf.
Definition buf_empty : M bool :=
  gets (fun rd => (String.length (buf rd) =? 0)%nat).

(** The recurring
    [if err == io.EOF { return term, r.wrap(ErrUnexpectedEOF) }; return term, err]. *)
Definition eofErr {A : Type} (dflt : A) (e : error) : M (A * option error) :=
  match e with
  | EOF => e' <- wrap ErrUnexpectedEOF ;; ret (dflt, Some e')
  | _ => ret (dflt, Some e)
  end.

(** [return term, r.wrap(err)] *)
Definition fail {A : Type} (dflt : A) (e : error) : M (A * option error) :=
  e' <- wrap e ;; ret (dflt, Some e').

(** ** Whitespace and line skipping *)

Fixpoint skipWhitespace_loop (fuel : nat) (r1 : rune) : M (rune * option error) :=
  if isSpace r1 then
    match fuel with
    | O => no_result
    | S n =>
      '(r1', e) <- lift readRune ;;
      match e with
      | Some _ => ret (r1', e)
      | None => skipWhitespace_loop n r1'
      end
    end
  else ret (r1, None).

Definition skipWhitespace : M (rune * option error) :=
  '(r1, e) <- lift readRune ;;
  match e with
  | Some _ => ret (r1, e)
  | None => with_fuel (fun n => skipWhitespace_loop n r1)
  end.

Fixpoint skipRestOfLine_loop (fuel : nat) (r1 : rune) : M (rune * option error) :=
  if negb (r1 =? ch "010") then
    match fuel with
    | O => no_result
    | S n =>
      '(r1', e) <- lift readRune ;;
      match e with
      | Some _ => ret (r1', e)
      | None => skipRestOfLine_loop n r1'
      end
    end
  else
    modify (fun rd => with_column 0 (with_line (line rd + 1) rd)) ;;
    ret (r1, None).

Definition skipRestOfLine : M (rune * option error) :=
  '(r1, e) <- lift readRune ;;
  match e with
  | Some _ => ret (r1, e)
  | None => with_fuel (fun n => skipRestOfLine_loop n r1)
  end.

Definition expectCommentOrEndOfLine : M (option error) :=
  '(r1, e) <- skipWhitespace ;;
  match e with
  | Some EOF => ret None
  | Some _ => ret e
  | None =>
    if r1 =? ch "#" then
      '(_, e') <- skipRestOfLine ;;
      match e' with
      | Some EOF => ret None
      | Some _ => ret e'
      | None => ret None
      end
    else if negb (r1 =? ch "010") then
      e' <- wrap ErrUnexpectedCharacter ;; ret (Some e')
    else ret None
  end.

Definition readEndQuad : M (option error) :=
  '(r1, e) <- skipWhitespace ;;
  match e with
  | Some EOF => e' <- wrap ErrUnterminatedQuad ;; ret (Some e')
  | Some _ => ret e
  | None =>
    if negb (r1 =? ch ".") then
      e' <- wrap ErrUnexpectedCharacter ;; ret (Some e')
    else ret None
  end.

(** ** Numeric escapes *)

(** The digit loop [for i := size - 1; i >= 0; i--] that both [parseIRI] and
    [parseLiteral] contain, with [n] iterations left (so [i = n - 1]).  The
    accumulation is int32 arithmetic. *)
Fixpoint readCodepoint (n : nat) (codepoint : rune) : M (rune * option error) :=
  match n with
  | O => ret (codepoint, None)
  | S i =>
    '(r1, e) <- lift readRune ;;
    match e with
    | Some e => eofErr codepoint e
    | None =>
      let weight := Z.shiftl 1 (4 * Z.of_nat i) in
      if (ch "0" <=? r1) && (r1 <=? ch "9") then
        readCodepoint i (wrap32 (codepoint + wrap32 (weight * (r1 - ch "0"))))
      else if (ch "a" <=? r1) && (r1 <=? ch "f") then
        readCodepoint i (wrap32 (codepoint + wrap32 (weight * (r1 - ch "a" + 10))))
      else if (ch "A" <=? r1) && (r1 <=? ch "F") then
        readCodepoint i (wrap32 (codepoint + wrap32 (weight * (r1 - ch "A" + 10))))
      else fail codepoint ErrInvalidCodepointExpression
    end
  end.

(** [size := 4; if r1 == 'U' { size = 8 }] *)
Definition escapeSize (r1 : rune) : nat := if r1 =? ch "U" then 8%nat else 4%nat.

(** ** Term lexers *)

Fixpoint parseIRI_loop (fuel : nat) : M (rdf.Term * option error) :=
  match fuel with
  | O => no_result
  | S n =>
    '(r1, e) <- lift readRune ;;
    match e with
    | Some e => eofErr rdf.zero e
    | None =>
      if (r1 <=? 0x20) || (r1 =? ch "<") || (r1 =? ch "034") || (r1 =? ch "{")
         || (r1 =? ch "}") || (r1 =? ch "|") || (r1 =? ch "^") || (r1 =? ch "`")
      then fail rdf.zero ErrUnexpectedCharacter
      else if r1 =? ch ">" then
        empty <- buf_empty ;;
        if empty then fail rdf.zero ErrUnexpectedCharacter
        else s <- buf_String ;; ret (rdf.IRI s, None)
      else if r1 =? ch "\" then
        '(r2, e) <- lift readRune ;;
        match e with
        | Some e => eofErr rdf.zero e
        | None =>
          if (r2 =? ch "u") || (r2 =? ch "U") then
            '(codepoint, e) <- readCodepoint (escapeSize r2) 0 ;;
            match e with
            | Some _ => ret (rdf.zero, e)
            | None => WriteRune codepoint ;; parseIRI_loop n
            end
          else fail rdf.zero ErrUnexpectedCharacter
        end
      else WriteRune r1 ;; parseIRI_loop n
    end
  end.

Definition parseIRI : M (rdf.Term * option error) := with_fuel parseIRI_loop.

(** [next[1] == ' ' || next[1] == '\t' || next[1] == '\n' || next[1] == '\r'],
    on bytes. *)
Definition isBreak (c : ascii) : bool :=
  Ascii.eqb c " " || Ascii.eqb c "009" || Ascii.eqb c "010" || Ascii.eqb c "013".

(** The label loop of [parseBlankNode]. *)
Fixpoint parseBlankNode_loop (fuel : nat) : M (rdf.Term * option error) :=
  match fuel with
  | O => no_result
  | S n =>
    '(r1, e) <- lift readRune ;;
    match e with
    | Some e => eofErr rdf.zero e
    | None =>
      if isPnChars r1 then WriteRune r1 ;; parseBlankNode_loop n
      else if isSpace r1 then s <- buf_String ;; ret (rdf.Blank s, None)
      else if r1 =? ch "." then
        e <- lift unreadRune ;;
        match e with
        | Some _ => ret (rdf.zero, None)
        | None =>
          '(next, e) <- lift (fun rd =>
             let '(res, b) := bufio.Peek 2 (r rd) in (res, with_r b rd)) ;;
          match e with
          | Some EOF => s <- buf_String ;; ret (rdf.Blank s, None)
          | _ =>
            match String.get 1 next with
            | None => no_result
            | Some c =>
              if isBreak c then s <- buf_String ;; ret (rdf.Blank s, None)
              else
                '(_, e) <- lift readRune ;;
                match e with
                | Some _ => ret (rdf.zero, e)
                | None => WriteRune r1 ;; parseBlankNode_loop n
                end
            end
          end
        end
      else fail rdf.zero ErrUnexpectedCharacter
    end
  end.

Definition parseBlankNode : M (rdf.Term * option error) :=
  '(r1, e) <- lift readRune ;;
  match e with
  | Some e => eofErr rdf.zero e
  | None =>
    if negb (r1 =? ch ":") then fail rdf.zero ErrUnexpectedCharacter
    else
      '(r1, e) <- lift readRune ;;
      match e with
      | Some e => eofErr rdf.zero e
      | None =>
        if negb (isPnCharsU r1 || isNumeral r1)
        then fail rdf.zero ErrUnexpectedCharacter
        else WriteRune r1 ;; with_fuel parseBlankNode_loop
      end
  end.

(** The language-tag loop of [parseLiteral], entered after ["@"]. *)
Fixpoint parseLiteral_language (fuel : nat) (value : string) (major : bool)
  : M (rdf.Term * option error) :=
  match fuel with
  | O => no_result
  | S n =>
    '(r1, e) <- lift readRune ;;
    match e with
    | Some e => eofErr rdf.zero e
    | None =>
      if (r1 =? ch ".") || isSpace r1 then
        empty <- buf_empty ;;
        if empty then fail rdf.zero ErrUnexpectedCharacter
        else
          e <- lift unreadRune ;;
          match e with
          | Some e => fail rdf.zero e
          | None => s <- buf_String ;; ret (rdf.LiteralWithLanguage value s, None)
          end
      else if major then
        if isAlpha r1 then WriteRune r1 ;; parseLiteral_language n value true
        else if r1 =? ch "-" then WriteRune r1 ;; parseLiteral_language n value false
        else fail rdf.zero ErrUnexpectedCharacter
      else
        if isAlpha r1 || isNumeral r1
        then WriteRune r1 ;; parseLiteral_language n value false
        else fail rdf.zero ErrUnexpectedCharacter
    end
  end.

(** The datatype loop of [parseLiteral], entered after ["^^<"]
    (the inner [for] commented [// Read an IRI]). *)
Fixpoint parseLiteral_datatype (fuel : nat) (value : string)
  : M (rdf.Term * option error) :=
  match fuel with
  | O => no_result
  | S n =>
    '(r1, e) <- lift readRune ;;
    match e with
    | Some e => eofErr rdf.zero e
    | None =>
      if r1 =? ch ">" then
        empty <- buf_empty ;;
        if empty then fail rdf.zero ErrUnexpectedCharacter
        else s <- buf_String ;; ret (rdf.LiteralWithDatatype value s, None)
      else if (r1 <? 0x20) || (0x7E <? r1) || (r1 =? ch " ") || (r1 =? ch "<")
              || (r1 =? ch "034")
      then fail rdf.zero ErrUnexpectedCharacter
      else WriteRune r1 ;; parseLiteral_datatype n value
    end
  end.

(** What follows the closing quote of a literal: the first [case] of the
    outer [switch] of [parseLiteral]. *)
Definition parseLiteral_suffix : M (rdf.Term * option error) :=
  '(r1, e) <- lift readRune ;;
  match e with
  | Some e => eofErr rdf.zero e
  | None =>
    if (r1 =? ch ".") || (r1 =? ch " ") || (r1 =? ch "009") then
      e <- lift unreadRune ;;
      match e with
      | Some e => fail rdf.zero e
      | None => s <- buf_String ;; ret (rdf.Literal s, None)
      end
    else if r1 =? ch "@" then
      value <- buf_String ;;
      Reset ;;
      with_fuel (fun n => parseLiteral_language n value true)
    else if r1 =? ch "^" then
      value <- buf_String ;;
      Reset ;;
      '(r1, e) <- lift readRune ;;
      match e with
      | Some e => eofErr rdf.zero e
      | None =>
        if negb (r1 =? ch "^") then fail rdf.zero ErrUnexpectedCharacter
        else
          '(r1, e) <- lift readRune ;;
          match e with
          | Some e => eofErr rdf.zero e
          | None =>
            if negb (r1 =? ch "<") then fail rdf.zero ErrUnexpectedCharacter
            else with_fuel (fun n => parseLiteral_datatype n value)
          end
      end
    else fail rdf.zero ErrUnexpectedCharacter
  end.

Fixpoint parseLiteral_loop (fuel : nat) : M (rdf.Term * option error) :=
  match fuel with
  | O => no_result
  | S n =>
    '(r1, e) <- lift readRune ;;
    match e with
    | Some e => eofErr rdf.zero e
    | None =>
      if r1 =? ch "034" then parseLiteral_suffix
      else if r1 =? ch "\" then
        '(r2, e) <- lift readRune ;;
        match e with
        | Some e => eofErr rdf.zero e
        | None =>
          if (r2 =? ch "\") || (r2 =? ch "034") then
            WriteRune r2 ;; parseLiteral_loop n
          else if r2 =? ch "t" then WriteRune (ch "009") ;; parseLiteral_loop n
          else if r2 =? ch "r" then WriteRune (ch "013") ;; parseLiteral_loop n
          else if r2 =? ch "n" then WriteRune (ch "010") ;; parseLiteral_loop n
          else if r2 =? ch "b" then WriteRune (ch "008") ;; parseLiteral_loop n
          else if r2 =? ch "f" then WriteRune (ch "012") ;; parseLiteral_loop n
          else if (r2 =? ch "u") || (r2 =? ch "U") then
            '(codepoint, e) <- readCodepoint (escapeSize r2) 0 ;;
            match e with
            | Some _ => ret (rdf.zero, e)
            | None => WriteRune codepoint ;; parseLiteral_loop n
            end
          else fail rdf.zero ErrUnexpectedCharacter
        end
      else WriteRune r1 ;; parseLiteral_loop n
    end
  end.

Definition parseLiteral : M (rdf.Term * option error) :=
  with_fuel parseLiteral_loop.

(** ** Dispatchers *)

Definition parseIriOrBlankNode : M (rdf.Term * option error) :=
  Reset ;;
  '(r1, e) <- skipWhitespace ;;
  match e with
  | Some _ => ret (rdf.zero, e)
  | None =>
    if r1 =? ch "<" then parseIRI
    else if r1 =? ch "_" then parseBlankNode
    else fail rdf.zero ErrUnexpectedCharacter
  end.

Definition parseAnyTerm : M (rdf.Term * option error) :=
  Reset ;;
  '(r1, e) <- skipWhitespace ;;
  match e with
  | Some _ => ret (rdf.zero, e)
  | None =>
    if r1 =? ch "<" then parseIRI
    else if r1 =? ch "_" then parseBlankNode
    else if r1 =? ch "034" then parseLiteral
    else fail rdf.zero ErrUnexpectedCharacter
  end.

Definition parseIriOrBlankNodeOrEndTriple : M (bool * rdf.Term * option error) :=
  Reset ;;
  '(r1, e) <- skipWhitespace ;;
  match e with
  | Some _ => ret (false, rdf.zero, e)
  | None =>
    if r1 =? ch "<" then
      '(term, e) <- parseIRI ;; ret (false, term, e)
    else if r1 =? ch "_" then
      '(term, e) <- parseBlankNode ;; ret (false, term, e)
    else if r1 =? ch "." then ret (true, rdf.zero, None)
    else e' <- wrap ErrUnexpectedCharacter ;; ret (false, rdf.zero, Some e')
  end.

(** ** The quad assembler *)

(** [r.err = err; return false] *)
Definition stop (e : option error) : M bool :=
  modify (with_err e) ;; ret false.

(** The loop [for r1 == '\n'] at the head of [Next], over blank lines and
    comment lines.  [inl b] means that [Next] returns [b] from inside the
    loop; [inr r1] is the rune on which the loop ends. *)
Fixpoint Next_skip (fuel : nat) (r1 : rune) : M (bool + rune) :=
  if r1 =? ch "010" then
    match fuel with
    | O => no_result
    | S n =>
      '(r1, e) <- skipWhitespace ;;
      match e with
      | Some EOF => ret (inl false)
      | Some _ => b <- stop e ;; ret (inl b)
      | None =>
        if r1 =? ch "#" then
          '(r1, e) <- skipRestOfLine ;;
          match e with
          | Some EOF => ret (inl false)
          | Some _ => b <- stop e ;; ret (inl b)
          | None => Next_skip n r1
          end
        else Next_skip n r1
      end
    end
  else ret (inr r1).

(** [r.q.S = term] and its siblings *)
Definition set_S (t : rdf.Term) : M unit :=
  modify (fun rd => with_q (Quad.with_S t (q rd)) rd).
Definition set_P (t : rdf.Term) : M unit :=
  modify (fun rd => with_q (Quad.with_P t (q rd)) rd).
Definition set_O (t : rdf.Term) : M unit :=
  modify (fun rd => with_q (Quad.with_O t (q rd)) rd).
Definition set_G (t : rdf.Term) : M unit :=
  modify (fun rd => with_q (Quad.with_G t (q rd)) rd).

(** [r.err = r.expectCommentOrEndOfLine(); return r.err == nil] *)
Definition Next_finish : M bool :=
  e <- expectCommentOrEndOfLine ;;
  modify (with_err e) ;;
  ret (match e with None => true | Some _ => false end).

(** [term.Kind == rdf.IRITerm && !isAbsoluteIRI(term.Value)] *)
Definition relativeIRI (t : rdf.Term) : bool :=
  rdf.Kind_eqb (rdf.Kind t) rdf.IRITerm && negb (isAbsoluteIRI (rdf.Value t)).

(** [term.Kind == rdf.LiteralTerm && term.Datatype != "" &&
     !isAbsoluteIRI(term.Datatype)] *)
Definition relativeDatatype (t : rdf.Term) : bool :=
  rdf.Kind_eqb (rdf.Kind t) rdf.LiteralTerm
  && negb (String.length (rdf.Datatype t) =? 0)%nat
  && negb (isAbsoluteIRI (rdf.Datatype t)).

(** [Next] from the graph slot on. *)
Definition Next_graph : M bool :=
  '(fin, term, e) <- parseIriOrBlankNodeOrEndTriple ;;
  match e with
  | Some _ => stop e
  | None =>
    if (fin : bool) then Next_finish
    else
      set_G term ;;
      e <- readEndQuad ;;
      match e with
      | Some _ => stop e
      | None => Next_finish
      end
  end.

(** [Next] from the object slot on. *)
Definition Next_object : M bool :=
  '(term, e) <- parseAnyTerm ;;
  match e with
  | Some _ => stop e
  | None =>
    if relativeIRI term then e' <- wrap ErrRelativeIRI ;; stop (Some e')
    else if relativeDatatype term then e' <- wrap ErrRelativeIRI ;; stop (Some e')
    else set_O term ;; Next_graph
  end.

(** [Next] from the predicate slot on. *)
Definition Next_predicate : M bool :=
  '(term, e) <- parseIriOrBlankNode ;;
  match e with
  | Some _ => stop e
  | None =>
    if relativeIRI term then e' <- wrap ErrRelativeIRI ;; stop (Some e')
    else set_P term ;; Next_object
  end.

(** [Next] from the subject slot on. *)
Definition Next_subject : M bool :=
  '(term, e) <- parseIriOrBlankNode ;;
  match e with
  | Some _ => stop e
  | None =>
    if relativeIRI term then e' <- wrap ErrRelativeIRI ;; stop (Some e')
    else set_S term ;; Next_predicate
  end.

(** [Next] past its first test: a parse attempt. *)
Definition Next_attempt : M bool :=
  modify (fun rd => with_column (-1) (with_line (line rd + 1)
                                        (with_q Quad.zero rd))) ;;
  s <- with_fuel (fun n => Next_skip n (ch "010")) ;;
  match s with
  | inl b => ret b
  | inr _ =>
    e <- lift (fun rd =>
           let '(e, b) := bufio.UnreadRune (r rd) in (e, with_r b rd)) ;;
    match e with
    | Some _ => stop e
    | None => Next_subject
    end
  end.

Definition Next : M bool :=
  fun rd =>
    match err rd with
    | Some _ => Some (false, rd)
    | None => Next_attempt rd
    end.

(** [n] successive calls of [Next]: for each call its result together with
    what [Quad] and [Err] return after it. *)
Fixpoint calls (n : nat) (rd : Reader)
  : option (list (bool * Quad.t * option error)) :=
  match n with
  | O => Some []
  | S k =>
    match Next rd with
    | None => None
    | Some (b, rd') =>
      match calls k rd' with
      | None => None
      | Some l => Some ((b, Quad rd', Err rd') :: l)
      end
    end
  end.

(** The calls a client makes on a fresh reader over [input]. *)
Definition session (n : nat) (input : string)
  : option (list (bool * Quad.t * option error)) :=
  calls n (NewReader input).

(** * Vocabulary of the properties *)

(** ** Observations *)

(** The number of bytes not yet consumed. *)
Definition len (rd : Reader) : nat := String.length (bufio.rest (r rd)).

(** A reader over the input given as byte values. *)
Definition raw (bs : list Z) : Reader := NewReader (bytes bs).

(** The double quote, as a one-byte string. *)
Definition dq : string := String "034" EmptyString.

(** The bytes of U+FFFD in UTF-8. *)
Definition replacement : string := bytes [0xEF; 0xBF; 0xBD].

(** A term that carries something: any kind but [UnknownTerm]. *)
Definition present (t : rdf.Term) : Prop := rdf.Kind t <> rdf.UnknownTerm.

(** The quads [Next] can leave behind: the slots are filled in the order
    subject, predicate, object, graph, each with a term that was read, and
    the slots not reached are zero. *)
Inductive partial_quad : Quad.t -> Prop :=
| pq_zero : partial_quad Quad.zero
| pq_S s : present s -> partial_quad (Quad.mk s rdf.zero rdf.zero rdf.zero)
| pq_SP s p :
    present s -> present p -> partial_quad (Quad.mk s p rdf.zero rdf.zero)
| pq_SPO s p o :
    present s -> present p -> present o ->
    partial_quad (Quad.mk s p o rdf.zero)
| pq_SPOG s p o g :
    present s -> present p -> present o -> present g ->
    partial_quad (Quad.mk s p o g).

(** ** The statement as far as it was read *)

(** The head of a parse attempt, up to the subject: quad, line and column
    are reset, blank and comment lines are skipped, and the first rune of
    the statement is put back.  [Some rd1] is the reader on which the
    subject lexer starts; [None] means that [Next] returns before. *)
Definition Next_head (rd : Reader) : option Reader :=
  match (modify (fun rd => with_column (-1) (with_line (line rd + 1)
                                               (with_q Quad.zero rd))) ;;
         with_fuel (fun n => Next_skip n (ch "010"))) rd with
  | Some (inr _, rd0) =>
    match bufio.UnreadRune (r rd0) with
    | (None, b) => Some (with_r b rd0)
    | (Some _, _) => None
    end
  | _ => None
  end.

(** The term [Next] accepts for a slot, with the reader after it: the
    lexer returns the term without an error and the test for a relative
    IRI lets it pass. *)
Definition accepted (lexer : M (rdf.Term * option error))
           (relative : rdf.Term -> bool) (rd : Reader)
  : option (rdf.Term * Reader) :=
  match lexer rd with
  | Some ((t, None), rd') => if relative t then None else Some (t, rd')
  | _ => None
  end.

(** The same for the graph slot, which has no such test; a period in the
    place of the term is no term. *)
Definition accepted_graph (rd : Reader) : option (rdf.Term * Reader) :=
  match parseIriOrBlankNodeOrEndTriple rd with
  | Some ((false, t, None), rd') => Some (t, rd')
  | _ => None
  end.

(** The statement as far as the lexers accept it from [rd] on: the terms
    in their slots, in the order subject, predicate, object, graph, up to
    the first slot for which no term is accepted, and zero from there on.
    The lexer of a slot starts where the one before stopped, on the reader
    that holds the quad as far as it goes. *)
Definition assembled (rd : Reader) : Quad.t :=
  match accepted parseIriOrBlankNode relativeIRI rd with
  | None => Quad.zero
  | Some (s, rd1) =>
    let k1 := Quad.mk s rdf.zero rdf.zero rdf.zero in
    match accepted parseIriOrBlankNode relativeIRI (with_q k1 rd1) with
    | None => k1
    | Some (p, rd2) =>
      let k2 := Quad.mk s p rdf.zero rdf.zero in
      match accepted parseAnyTerm
                     (fun t => relativeIRI t || relativeDatatype t)
                     (with_q k2 rd2) with
      | None => k2
      | Some (o, rd3) =>
        let k3 := Quad.mk s p o rdf.zero in
        match accepted_graph (with_q k3 rd3) with
        | None => k3
        | Some (g, _) => Quad.mk s p o g
        end
      end
    end
  end.

(** The reader after the failed call on ["<s> <p> <o> ."]. *)
Definition failed_reader : Reader :=
  mkReader 1 3 (bufio.mk " <p> <o> ." (Some ">")) "s"
           (Some (ParseError 1 3 ErrRelativeIRI)) Quad.zero.

(** [parseBlankNode] on the text after the underscore: the term, the error
    and the input left unread. *)
Definition lexBlankNode (body : string)
  : option (rdf.Term * option error * string) :=
  match parseBlankNode (NewReader body) with
  | Some (res, rd) => Some (res, bufio.rest (r rd))
  | None => None
  end.

(** The two IRI lexers run on the same text, which starts right after the
    opening angle bracket: [parseIRI], and the loop that [parseLiteral]
    runs after the two carets and the bracket.  Each yields the IRI it
    accepted, or the cause of its error. *)
Definition lexTermIRI (body : string) : option (string + error) :=
  match parseIRI (NewReader body) with
  | Some ((t, None), _) => Some (inl (rdf.Value t))
  | Some ((_, Some e), _) => Some (inr (Unwrap e))
  | None => None
  end.

Definition lexDatatypeIRI (body : string) : option (string + error) :=
  match with_fuel (fun n => parseLiteral_datatype n EmptyString)
                  (NewReader body) with
  | Some ((t, None), _) => Some (inl (rdf.Datatype t))
  | Some ((_, Some e), _) => Some (inr (Unwrap e))
  | None => None
  end.

(** ** Hexadecimal escapes *)

(** The value of one hexadecimal digit, by the three tests of the digit
    loop. *)
Definition hexDigit (x : ascii) : option Z :=
  let r1 := byteZ x in
  if (ch "0" <=? r1) && (r1 <=? ch "9") then Some (r1 - ch "0")
  else if (ch "a" <=? r1) && (r1 <=? ch "f") then Some (r1 - ch "a" + 10)
  else if (ch "A" <=? r1) && (r1 <=? ch "F") then Some (r1 - ch "A" + 10)
  else None.

(** The number a digit string denotes, most significant digit first;
    [None] if a character is not a hexadecimal digit. *)
Fixpoint hexValue (ds : string) : option Z :=
  match ds with
  | EmptyString => Some 0
  | String x tl =>
    match hexDigit x, hexValue tl with
    | Some d, Some v => Some (d * 16 ^ Z.of_nat (String.length tl) + v)
    | _, _ => None
    end
  end.

(** Not a Unicode scalar value: above U+10FFFF, or a surrogate. *)
Definition invalidScalar (v : Z) : Prop :=
  0x10FFFF < v \/ (0xD800 <= v <= 0xDFFF).

(** What [UnreadRune] would restore after the bytes [ds] were read one by
    one. *)
Fixpoint lastOf (lr : option string) (ds : string) : option string :=
  match ds with
  | EmptyString => lr
  | String x tl => lastOf (Some (String x EmptyString)) tl
  end.

(** ** Postconditions *)

(** [wp m Q rd]: run from [rd], [m] produces a result (it neither runs out
    of fuel nor panics) and the result and final state satisfy [Q]. *)
Definition wp {A : Type} (m : M A) (Q : A -> Reader -> Prop) (rd : Reader) : Prop :=
  match m rd with
  | Some (a, rd') => Q a rd'
  | None => False
  end.

(** What a lexer step may change: neither the quad nor the sticky error,
    and it never leaves more input than it found. *)
Definition keeps (rd rd' : Reader) : Prop :=
  q rd' = q rd /\ err rd' = err rd /\ (len rd' <= len rd)%nat.

(** What [readRune] guarantees.  Without an error it has consumed input,
    no less than [UnreadRune] can give back, and [UnreadRune] is possible
    unless the rune is a carriage return; its only error is [io.EOF], with
    the input used up. *)
Definition readRune_post (rd : Reader) (c : rune) (e : option error)
           (rd' : Reader) : Prop :=
  q rd' = q rd /\ err rd' = err rd /\
  match e with
  | None =>
    (len rd' < len rd)%nat
    /\ (forall bs, bufio.lastRune (r rd') = Some bs ->
                   (len rd' + String.length bs <= len rd)%nat)
    /\ (c <> ch "013" -> bufio.lastRune (r rd') <> None)
  | Some x => x = EOF /\ len rd' = 0%nat
  end.

(** What [skipWhitespace] and [skipRestOfLine] guarantee: on success a
    rune was consumed; the only error is [io.EOF], with the input used up. *)
Definition skip_post (rd : Reader) (res : rune * option error) (rd' : Reader)
  : Prop :=
  keeps rd rd' /\
  match snd res with
  | None => (len rd' < len rd)%nat
  | Some x => x = EOF /\ len rd' = 0%nat
  end.

(** What a term lexer guarantees: a lexer step, and a term returned
    without an error is never the zero term. *)
Definition term_post (rd : Reader) (res : rdf.Term * option error)
           (rd' : Reader) : Prop :=
  keeps rd rd' /\ (snd res = None -> present (fst res)).

(** The graph slot: a lexer step; without an error, either the statement
    ends here or a term was read. *)
Definition graph_post (rd : Reader) (res : bool * rdf.Term * option error)
           (rd' : Reader) : Prop :=
  keeps rd rd' /\
  match res with
  | (fin, term, None) => fin = true \/ present term
  | _ => True
  end.

(** What [Next] guarantees from the subject slot on: a failure always
    records an error. *)
Definition asm_post (b : bool) (rd' : Reader) : Prop :=
  partial_quad (q rd')
  /\ (b = false -> err rd' <> None)
  /\ (b = true -> err rd' = None).

(** The loop over blank and comment lines keeps the quad; when it makes
    [Next] return, the result is [false], and unless an error was recorded
    the input is used up. *)
Definition Next_skip_post (rd : Reader) (s : bool + rune) (rd' : Reader)
  : Prop :=
  q rd' = q rd /\
  match s with
  | inl b => b = false /\ (err rd' = None -> len rd' = 0%nat)
  | inr _ => err rd' = err rd
  end.

(** What a parse attempt guarantees. *)
Definition Next_post (b : bool) (rd' : Reader) : Prop :=
  partial_quad (q rd')
  /\ (b = false -> err rd' = None -> len rd' = 0%nat /\ q rd' = Quad.zero)
  /\ (b = true -> err rd' = None).

(** ** Further vocabulary *)

(** [pc m Q rd]: whenever [m] produces a result from [rd], the result and
    the final state satisfy [Q]. *)
Definition pc {A : Type} (m : M A) (Q : A -> Reader -> Prop) (rd : Reader) : Prop :=
  forall a rd', m rd = Some (a, rd') -> Q a rd'.

(** The five causes a [ParseError] of this package can carry. *)
Definition kind (k : error) : Prop :=
  k = ErrUnexpectedCharacter \/ k = ErrInvalidCodepointExpression
  \/ k = ErrUnexpectedEOF \/ k = ErrUnterminatedQuad \/ k = ErrRelativeIRI.

(** An error as the lexers hand it out: [io.EOF] as it came from the
    source, or a [ParseError] made by [wrap] where the reader stands. *)
Definition positioned (e : error) (rd : Reader) : Prop :=
  e = EOF
  \/ exists k, e = ParseError (line rd) (column rd) k /\ kind k.

(** The shapes of the terms the lexers return. *)
Definition isIRI (t : rdf.Term) : Prop :=
  rdf.Kind t = rdf.IRITerm /\ rdf.Value t <> EmptyString
  /\ rdf.Language t = EmptyString /\ rdf.Datatype t = EmptyString.

Definition isBlank (t : rdf.Term) : Prop :=
  rdf.Kind t = rdf.BlankTerm /\ rdf.Value t <> EmptyString
  /\ rdf.Language t = EmptyString /\ rdf.Datatype t = EmptyString.

(** The two halves of a language tag as [parseLiteral] accepts it: letters,
    then, after a hyphen, letters and digits. *)
Fixpoint langMinor (s : string) : bool :=
  match s with
  | EmptyString => true
  | String x tl => (isAlpha (byteZ x) || isNumeral (byteZ x)) && langMinor tl
  end.

Fixpoint langMajor (s : string) : bool :=
  match s with
  | EmptyString => true
  | String x tl =>
    if isAlpha (byteZ x) then langMajor tl
    else if byteZ x =? ch "-" then langMinor tl
    else false
  end.

(** The same grammar read from the left, as the loop goes: the flag
    [major] after a tag, [None] for a text that is no tag. *)
Definition langStep (major : bool) (x : ascii) : option bool :=
  if major then
    if isAlpha (byteZ x) then Some true
    else if byteZ x =? ch "-" then Some false
    else None
  else if isAlpha (byteZ x) || isNumeral (byteZ x) then Some false
  else None.

Fixpoint langRun (major : bool) (s : string) : option bool :=
  match s with
  | EmptyString => Some major
  | String x tl =>
    match langStep major x with
    | Some m => langRun m tl
    | None => None
    end
  end.

(** The bytes the datatype loop of [parseLiteral] copies. *)
Definition dtPlain (x : ascii) : bool :=
  negb ((byteZ x <? 0x20) || (0x7E <? byteZ x) || (byteZ x =? ch " ")
        || (byteZ x =? ch "<") || (byteZ x =? ch "034"))
  && negb (byteZ x =? ch ">").

Fixpoint all_bytes (p : ascii -> bool) (s : string) : bool :=
  match s with
  | EmptyString => true
  | String x tl => p x && all_bytes p tl
  end.

Definition isLiteral (t : rdf.Term) : Prop :=
  rdf.Kind t = rdf.LiteralTerm
  /\ (rdf.Language t = EmptyString \/ rdf.Datatype t = EmptyString)
  /\ langMajor (rdf.Language t) = true
  /\ all_bytes dtPlain (rdf.Datatype t) = true.

(** A term as [Next] accepts it for the subject and the predicate. *)
Definition resource (t : rdf.Term) : Prop :=
  (isIRI t /\ isAbsoluteIRI (rdf.Value t) = true) \/ isBlank t.

(** A term as [Next] accepts it for the object. *)
Definition object (t : rdf.Term) : Prop :=
  resource t
  \/ (isLiteral t
      /\ (rdf.Datatype t <> EmptyString -> isAbsoluteIRI (rdf.Datatype t) = true)).

(** A term as [Next] accepts it for the graph: none, or an IRI (absolute
    or not), or a blank node. *)
Definition graph (t : rdf.Term) : Prop := t = rdf.zero \/ isIRI t \/ isBlank t.

(** What a term lexer returns: a term of the shape [shape], or an error. *)
Definition shape_post (shape : rdf.Term -> Prop)
           (res : rdf.Term * option error) (rd' : Reader) : Prop :=
  match snd res with
  | None => shape (fst res)
  | Some e => positioned e rd'
  end.

(** A lexer step together with a shape. *)
Definition framed (shape : rdf.Term -> Prop) (rd : Reader)
           (res : rdf.Term * option error) (rd' : Reader) : Prop :=
  keeps rd rd' /\ shape_post shape res rd'.

(** What [readEndQuad] and [expectCommentOrEndOfLine] return. *)
Definition end_post (rd : Reader) (res : option error) (rd' : Reader) : Prop :=
  keeps rd rd' /\
  match res with
  | None => True
  | Some e => positioned e rd'
  end.

(** The quads of the successful calls. *)
Definition quad_ok (k : Quad.t) : Prop :=
  resource (Quad.S k) /\ resource (Quad.P k) /\ object (Quad.O k)
  /\ graph (Quad.G k).

(** The two ways a parse attempt ends: with a quad of the right shape and
    no error, or, when an error is recorded, with
    [bufio.ErrInvalidUnreadRune], [io.EOF] or a [ParseError] that carries
    the position of the reader. *)
Definition Next_outcome (b : bool) (rd' : Reader) : Prop :=
  (b = true -> err rd' = None /\ quad_ok (q rd'))
  /\ (b = false -> forall e, err rd' = Some e ->
                             e = ErrInvalidUnreadRune \/ positioned e rd').

(** ** The text of terms and statements *)

Definition scalar (c : rune) : Prop :=
  0 <= c < 0xD800 \/ 0xDFFF < c <= 0x10FFFF.

(** [string(rs)] for a slice of runes. *)
Fixpoint encode (cs : list rune) : string :=
  match cs with
  | [] => EmptyString
  | c :: tl => utf8.EncodeRune c ++ encode tl
  end.

(** The runes [parseIRI] copies to the buffer as they are. *)
Definition iriPlain (c : rune) : bool :=
  negb ((c <=? 0x20) || (c =? ch "<") || (c =? ch "034") || (c =? ch "{")
        || (c =? ch "}") || (c =? ch "|") || (c =? ch "^") || (c =? ch "`"))
  && negb (c =? ch ">") && negb (c =? ch "\").

(** A run of spaces and tabs. *)
Fixpoint blanks (ws : string) : bool :=
  match ws with
  | EmptyString => true
  | String x tl => isSpace (byteZ x) && blanks tl
  end.

(** The pieces of the text of a literal or an IRI: a rune written as it
    is, a backslash with one character, a numeric escape. *)
Inductive item : Type :=
| Plain (c : rune)
| Simple (x : ascii)
| Numeric (u : ascii) (ds : string).

Definition item_text (i : item) : string :=
  match i with
  | Plain c => utf8.EncodeRune c
  | Simple x => String "\" (String x EmptyString)
  | Numeric u ds => String "\" (String u ds)
  end.

(** The number of runes of the text of an item. *)
Definition item_width (i : item) : Z :=
  match i with
  | Plain _ => 1
  | Simple _ => 2
  | Numeric _ ds => 2 + Z.of_nat (String.length ds)
  end.

Fixpoint text (its : list item) : string :=
  match its with
  | [] => EmptyString
  | i :: tl => item_text i ++ text tl
  end.

Fixpoint width (its : list item) : Z :=
  match its with
  | [] => 0
  | i :: tl => item_width i + width tl
  end.

(** The [switch r1] after a backslash in [parseLiteral]: the rune a
    one-character escape stands for. *)
Definition simpleEscape (x : ascii) : option rune :=
  let r2 := byteZ x in
  if (r2 =? ch "\") || (r2 =? ch "034") then Some r2
  else if r2 =? ch "t" then Some (ch "009")
  else if r2 =? ch "r" then Some (ch "013")
  else if r2 =? ch "n" then Some (ch "010")
  else if r2 =? ch "b" then Some (ch "008")
  else if r2 =? ch "f" then Some (ch "012")
  else None.

Definition numericForm (u : ascii) (ds : string) : Prop :=
  (u = "u"%char /\ String.length ds = 4%nat)
  \/ (u = "U"%char /\ String.length ds = 8%nat).

(** [litItem i c]: in a literal, the item [i] stands for the rune [c]. *)
Inductive litItem : item -> rune -> Prop :=
| li_plain c :
    scalar c -> c <> ch "034" -> c <> ch "\" -> c <> ch "013" ->
    litItem (Plain c) c
| li_simple x c : simpleEscape x = Some c -> litItem (Simple x) c
| li_numeric u ds v :
    numericForm u ds -> hexValue ds = Some v ->
    litItem (Numeric u ds) (wrap32 v).

(** [iriItem i c]: in an IRI, the item [i] stands for the rune [c]. *)
Inductive iriItem : item -> rune -> Prop :=
| ii_plain c : scalar c -> iriPlain c = true -> iriItem (Plain c) c
| ii_numeric u ds v :
    numericForm u ds -> hexValue ds = Some v ->
    iriItem (Numeric u ds) (wrap32 v).

(** What ends a language tag: a period, a space or a tab. *)
Definition isEnd (x : ascii) : bool :=
  (byteZ x =? ch ".") || isSpace (byteZ x).

(** The runes of a blank node label behind its first one. *)
Definition labelRune (c : rune) : bool := isPnChars c || (c =? ch ".").

(** [label_end t rest dot]: the text [t] ends a blank node label and
    leaves [rest] unread: a space or a tab, which is consumed, or a period
    in front of the end of the input, a space, a tab, a line feed or a
    carriage return, which is not.  [dot] tells whether the label may end
    in a period of its own. *)
Inductive label_end : string -> string -> bool -> Prop :=
| le_space sep tl :
    isSpace (byteZ sep) = true -> label_end (String sep tl) tl false
| le_period_eof : label_end "." "." true
| le_period_break y tl :
    isBreak y = true ->
    label_end (String "." (String y tl)) (String "." (String y tl)) true.

(** Whether a label ends in a period. *)
Fixpoint endsInPeriod (cs : list rune) : bool :=
  match cs with
  | [] => false
  | c :: tl => match tl with [] => c =? ch "." | _ => endsInPeriod tl end
  end.

(** What may follow the closing quote of a literal. *)
Inductive suffix : Type :=
| Bare
| Lang (tag : string)
| Typed (dt : string).

Definition suffix_text (s : suffix) : string :=
  match s with
  | Bare => EmptyString
  | Lang tag => String "@" tag
  | Typed dt => "^^<" ++ dt ++ ">"
  end.

Definition suffix_ok (s : suffix) : bool :=
  match s with
  | Bare => true
  | Lang tag => negb (String.length tag =? 0)%nat && langMajor tag
  | Typed dt => negb (String.length dt =? 0)%nat && all_bytes dtPlain dt
  end.

Definition literal (value : string) (s : suffix) : rdf.Term :=
  match s with
  | Bare => rdf.Literal value
  | Lang tag => rdf.LiteralWithLanguage value tag
  | Typed dt => rdf.LiteralWithDatatype value dt
  end.

(** [writes s t]: the text [s] is a way to write the term [t] in N-Quads. *)
Inductive writes : string -> rdf.Term -> Prop :=
| w_IRI its cs :
    Forall2 iriItem its cs -> cs <> [] ->
    writes (String "<" (text its ++ ">")) (rdf.IRI (encode cs))
| w_Blank c cs :
    (isPnCharsU c || isNumeral c) = true -> forallb labelRune cs = true ->
    endsInPeriod cs = false ->
    writes (String "_" (String ":" (encode (c :: cs))))
           (rdf.Blank (encode (c :: cs)))
| w_Literal its cs sfx :
    Forall2 litItem its cs -> suffix_ok sfx = true ->
    writes (dq ++ text its ++ dq ++ suffix_text sfx)
           (literal (encode cs) sfx).

(** [lexes m input a tl]: from any reader state whose unread input is
    [input], [m] returns [a] and leaves [tl] unread, behind at most a
    space; it touches neither the line nor the error nor the quad. *)
Definition lexes {A : Type} (m : M A) (input : string) (a : A) (tl : string)
  : Prop :=
  forall l col lr b e k,
  exists col' lr' b' ws',
    blanks ws' = true
    /\ m (mkReader l col (bufio.mk input lr) b e k)
       = Some (a, mkReader l col' (bufio.mk (ws' ++ tl) lr') b' e k).

Definition notLF (x : ascii) : bool := negb (byteZ x =? ch "010").

(** Where a line can be cut: at the end of the input or in front of a
    line feed. *)
Definition cut (t : string) : Prop :=
  t = EmptyString \/ exists rest, t = String "010" rest.

(** [ends eol rest d]: [eol] ends a statement line, [rest] is what follows
    the line and [d] is what it adds to the line counter.  Behind spaces
    and tabs comes the end of the input, a line feed, a carriage return
    with a line feed, or a comment up to the line feed or to the end of
    the input. *)
Inductive ends : string -> string -> Z -> Prop :=
| ends_eof ws : blanks ws = true -> ends ws EmptyString 0
| ends_lf ws rest : blanks ws = true -> ends (ws ++ String "010" rest) rest 0
| ends_crlf ws rest :
    blanks ws = true ->
    ends (ws ++ String "013" (String "010" rest)) rest 0
| ends_comment ws cm rest :
    blanks ws = true -> all_bytes notLF cm = true ->
    ends (ws ++ String "#" (cm ++ String "010" rest)) rest 1
| ends_comment_eof ws cm :
    blanks ws = true -> all_bytes notLF cm = true ->
    ends (ws ++ String "#" cm) EmptyString 0.

(** [(q Quad).String], with the method [String] of [rdf.Term], which
    belongs to the imported package, as the parameter [show]. *)
Definition Quad_String (show : rdf.Term -> string) (q : Quad.t) : string :=
  if rdf.Kind_eqb (rdf.Kind (Quad.G q)) rdf.UnknownTerm
  then show (Quad.S q) ++ " " ++ show (Quad.P q) ++ " " ++ show (Quad.O q) ++ " ."
  else show (Quad.S q) ++ " " ++ show (Quad.P q) ++ " " ++ show (Quad.O q)
       ++ " " ++ show (Quad.G q) ++ " .".

(** A term printer writes the terms of [q] in N-Quads syntax. *)
Definition readable (show : rdf.Term -> string) (q : Quad.t) : Prop :=
  writes (show (Quad.S q)) (Quad.S q) /\ writes (show (Quad.P q)) (Quad.P q)
  /\ writes (show (Quad.O q)) (Quad.O q)
  /\ (Quad.G q <> rdf.zero -> writes (show (Quad.G q)) (Quad.G q)).

(** [finishes m input f rest]: behind any run of spaces and tabs, [m]
    reads [input], returns true with no error recorded, has applied [f] to
    the quad and leaves [rest] unread. *)
Definition finishes (m : M bool) (input : string) (f : Quad.t -> Quad.t)
           (rest : string) (d : Z) : Prop :=
  forall ws l col lr b e k,
    blanks ws = true ->
    exists col' lr' b',
      m (mkReader l col (bufio.mk (ws ++ input) lr) b e k)
      = Some (true, mkReader (l + d) col' (bufio.mk rest lr') b' None (f k)).

(** [preamble s n]: [s] consists of blank lines and comment lines, [n] of
    them comment lines. *)
Inductive preamble : string -> Z -> Prop :=
| pre_nil : preamble EmptyString 0
| pre_blank ws s n :
    blanks ws = true -> preamble s n -> preamble (ws ++ String "010" s) n
| pre_blank_crlf ws s n :
    blanks ws = true -> preamble s n ->
    preamble (ws ++ String "013" (String "010" s)) n
| pre_comment ws cm s n :
    blanks ws = true -> all_bytes notLF cm = true -> preamble s n ->
    preamble (ws ++ String "#" (cm ++ String "010" s)) (n + 1).

(** What may stand behind the last line feed of a document without
    being a statement: spaces and tabs, and a comment. *)
Inductive trailer : string -> Prop :=
| tr_blank ws : blanks ws = true -> trailer ws
| tr_comment ws cm :
    blanks ws = true -> all_bytes notLF cm = true ->
    trailer (ws ++ String "#" cm).

(** The text of a document: one statement per line. *)
Fixpoint document (show : rdf.Term -> string) (ks : list Quad.t) : string :=
  match ks with
  | [] => EmptyString
  | k :: tl => Quad_String show k ++ String "010" (document show tl)
  end.

(** [pushback rd0 rd]: what [UnreadRune] can give back in [rd] was read
    since [rd0]. *)
Definition pushback (rd0 rd : Reader) : Prop :=
  forall bs, bufio.lastRune (r rd) = Some bs ->
             (len rd + String.length bs <= len rd0)%nat.

(** A step of the assembler never leaves more input than it found. *)
Definition shrinks (rd : Reader) (b : bool) (rd' : Reader) : Prop :=
  (len rd' <= len rd)%nat.

(** The number of quads among the results of a run of calls. *)
Fixpoint quads (l : list (bool * Quad.t * option error)) : nat :=
  match l with
  | [] => 0%nat
  | (true, _, _) :: tl => S (quads tl)
  | (false, _, _) :: tl => quads tl
  end.

(** A run of hexadecimal digits. *)
Definition hexDigits (ds : string) : bool :=
  all_bytes (fun x => match hexDigit x with Some _ => true | None => false end) ds.

(** What stops the digit loop of a numeric escape short: the end of the
    input, or a character that is no hexadecimal digit. *)
Inductive stopper : string -> error -> string -> option string -> Prop :=
| stop_eof : stopper EmptyString ErrUnexpectedEOF EmptyString None
| stop_char (x : ascii) tl :
    byteZ x < 128 -> byteZ x <> ch "013" -> hexDigit x = None ->
    stopper (String x tl) ErrInvalidCodepointExpression tl
            (Some (String x EmptyString)).

(** The first test of the loop of [parseIRI], on a byte. *)
Definition iriForbidden (x : ascii) : bool :=
  (byteZ x <=? 0x20) || (byteZ x =? ch "<") || (byteZ x =? ch "034")
  || (byteZ x =? ch "{") || (byteZ x =? ch "}") || (byteZ x =? ch "|")
  || (byteZ x =? ch "^") || (byteZ x =? ch "`").

(** A term printer for terms whose values need no escape: an IRI in angle
    brackets, a blank node behind an underscore and a colon, a literal in
    double quotes with its language tag or its datatype. *)
Definition plain_text (t : rdf.Term) : string :=
  match rdf.Kind t with
  | rdf.IRITerm => "<" ++ rdf.Value t ++ ">"
  | rdf.BlankTerm => "_:" ++ rdf.Value t
  | rdf.LiteralTerm =>
    dq ++ rdf.Value t ++ dq
    ++ (if (String.length (rdf.Language t) =? 0)%nat
        then if (String.length (rdf.Datatype t) =? 0)%nat then EmptyString
             else "^^<" ++ rdf.Datatype t ++ ">"
        else "@" ++ rdf.Language t)
  | rdf.UnknownTerm => EmptyString
  end.

(** * Properties *)

(** ** Byte strings *)

Lemma take_drop (n : nat) (s : string) : (take n s ++ drop n s)%string = s.
Proof.
  revert s; induction n as [|n IH]; intros [|c tl]; simpl; try reflexivity.
  now rewrite IH.
Qed.

Lemma length_app (s t : string) :
  String.length (s ++ t) = (String.length s + String.length t)%nat.
Proof. induction s as [|c s IH]; simpl; [reflexivity | now rewrite IH]. Qed.

Lemma length_take_pos (n : nat) (s : string) :
  (0 < n)%nat -> s <> EmptyString -> (0 < String.length (take n s))%nat.
Proof.
  destruct n as [|n]; [lia|]. destruct s as [|c tl]; [congruence|].
  simpl; lia.
Qed.

Lemma DecodeRune_size (p : string) :
  p <> EmptyString -> (0 < snd (utf8.DecodeRune p))%nat.
Proof.
  destruct p as [|c tl]; [congruence|]; intros _.
  unfold utf8.DecodeRune; simpl.
  destruct (utf8.lead (byteZ c)) as [[[sz lo] hi]|]; simpl; [|lia].
  repeat match goal with
         | |- context [match ?x with _ => _ end] => destruct x; simpl; try lia
         end.
Qed.

(** ** The buffered source *)

Lemma ReadRune_spec (b : bufio.Reader) :
  match bufio.ReadRune b with
  | ((c, _, Some e), b') =>
    e = EOF /\ c = 0 /\ bufio.rest b = EmptyString
    /\ bufio.rest b' = EmptyString /\ bufio.lastRune b' = None
  | ((c, _, None), b') =>
    exists bs, bufio.lastRune b' = Some bs
               /\ (0 < String.length bs)%nat
               /\ bufio.rest b = (bs ++ bufio.rest b')%string
  end.
Proof.
  unfold bufio.ReadRune.
  destruct (bufio.rest b) as [|c tl] eqn:E; simpl; [now repeat split|].
  destruct (byteZ c <? utf8.RuneSelf).
  - exists (String c EmptyString); simpl. repeat split; lia.
  - pose proof (DecodeRune_size (String c tl)) as Hs.
    destruct (utf8.DecodeRune (String c tl)) as [c' sz]; simpl in *.
    exists (take sz (String c tl)); repeat split.
    + apply length_take_pos; [apply Hs|]; congruence.
    + now rewrite take_drop.
Qed.

(** ** The rune cursor *)

Lemma keeps_refl (rd : Reader) : keeps rd rd.
Proof. unfold keeps; auto. Qed.

Lemma keeps_trans (a b c : Reader) : keeps a b -> keeps b c -> keeps a c.
Proof. unfold keeps; intros (?&?&?) (?&?&?); repeat split; try congruence; lia. Qed.

Lemma readRune_spec (rd : Reader) :
  match readRune rd with ((c, e), rd') => readRune_post rd c e rd' end.
Proof.
  unfold readRune, readRune_post, len.
  pose proof (ReadRune_spec (r rd)) as H1.
  destruct (bufio.ReadRune (r rd)) as [[[c sz] e] b].
  destruct (c =? ch "013") eqn:Ec.
  - destruct e as [e|]; [destruct H1 as (_ & -> & _); discriminate|].
    destruct H1 as (bs & Hl & Hp & Hr).
    pose proof (ReadRune_spec b) as H2.
    destruct (bufio.ReadRune b) as [[[c' sz'] e'] b'].
    destruct e' as [e'|].
    + destruct H2 as (-> & _ & _ & Hr' & _); simpl.
      rewrite Hr'; simpl; auto.
    + destruct H2 as (bs' & Hl' & Hp' & Hr').
      destruct (c' =? ch "010") eqn:Ec'; simpl.
      * rewrite Hr, Hr', !length_app. repeat split; try lia.
        -- intros bs0; rewrite Hl'; intros [= <-]; lia.
        -- rewrite Hl'; discriminate.
      * unfold bufio.UnreadRune; rewrite Hl'; simpl.
        rewrite Hr, <- Hr', !length_app. repeat split; try lia; try discriminate.
  - destruct e as [e|]; simpl.
    + destruct H1 as (-> & _ & _ & Hr' & _). rewrite Hr'; auto.
    + destruct H1 as (bs & Hl & Hp & Hr).
      rewrite Hr, length_app. repeat split; try lia.
      * intros bs0; rewrite Hl; intros [= <-]; lia.
      * rewrite Hl; discriminate.
Qed.

Lemma unreadRune_spec (rd : Reader) :
  match unreadRune rd with
  | (e, rd') =>
    q rd' = q rd /\ err rd' = err rd /\
    match bufio.lastRune (r rd) with
    | Some bs => e = None /\ len rd' = (len rd + String.length bs)%nat
    | None => e <> None /\ len rd' = len rd
    end
  end.
Proof.
  unfold unreadRune, bufio.UnreadRune, len.
  destruct (bufio.lastRune (r rd)) as [bs|]; simpl.
  - rewrite length_app. repeat split; lia.
  - repeat split; discriminate.
Qed.

(** ** Weakest preconditions for reader computations *)

Lemma wp_elim {A : Type} (m : M A) (Q : A -> Reader -> Prop) rd a rd' :
  wp m Q rd -> m rd = Some (a, rd') -> Q a rd'.
Proof. unfold wp; intros H E; now rewrite E in H. Qed.

Lemma wp_total {A : Type} (m : M A) (Q : A -> Reader -> Prop) rd :
  wp m Q rd -> exists a rd', m rd = Some (a, rd') /\ Q a rd'.
Proof. unfold wp; destruct (m rd) as [[a rd']|]; [eauto | tauto]. Qed.

Lemma wp_mono {A : Type} (m : M A) (P Q : A -> Reader -> Prop) rd :
  wp m P rd -> (forall a rd', P a rd' -> Q a rd') -> wp m Q rd.
Proof. unfold wp; destruct (m rd) as [[a rd']|]; auto. Qed.

Lemma wp_ret {A : Type} (a : A) (Q : A -> Reader -> Prop) rd :
  Q a rd -> wp (ret a) Q rd.
Proof. auto. Qed.

Lemma wp_bind {A B : Type} (m : M A) (k : A -> M B) (P : A -> Reader -> Prop)
      (Q : B -> Reader -> Prop) rd :
  wp m P rd -> (forall a rd', P a rd' -> wp (k a) Q rd') -> wp (bind m k) Q rd.
Proof.
  unfold wp, bind; destruct (m rd) as [[a rd']|]; [|tauto].
  intros HP Hk; exact (Hk _ _ HP).
Qed.

Lemma wp_gets {A B : Type} (f : Reader -> A) (k : A -> M B) Q rd :
  wp (k (f rd)) Q rd -> wp (bind (gets f) k) Q rd.
Proof. auto. Qed.

Lemma wp_modify {B : Type} (f : Reader -> Reader) (k : unit -> M B) Q rd :
  wp (k tt) Q (f rd) -> wp (bind (modify f) k) Q rd.
Proof. auto. Qed.

Lemma wp_with_fuel {A : Type} (f : nat -> M A) Q rd :
  wp (f (fuel_of rd)) Q rd -> wp (with_fuel f) Q rd.
Proof. auto. Qed.

Lemma wp_readRune {B : Type} (k : rune * option error -> M B) Q rd :
  (forall c e rd', readRune_post rd c e rd' -> wp (k (c, e)) Q rd') ->
  wp (bind (lift readRune) k) Q rd.
Proof.
  intros H; unfold wp, bind, lift.
  pose proof (readRune_spec rd) as Hs.
  destruct (readRune rd) as [[c e] rd']. exact (H _ _ _ Hs).
Qed.

(** One step of symbolic execution through the state primitives. *)
Ltac wp_prim :=
  unfold fail, eofErr, wrap, WriteRune, Reset, buf_String, buf_empty;
  match goal with
  | |- wp (bind (gets _) _) _ _ => apply wp_gets
  | |- wp (bind (modify _) _) _ _ => apply wp_modify
  | |- wp (ret _) _ _ => apply wp_ret
  | |- wp (with_fuel _) _ _ => apply wp_with_fuel
  | |- wp (bind (lift readRune) _) _ _ => apply wp_readRune; intros ? ? ? ?
  end;
  cbv beta.

Lemma keeps_readRune rd rd0 c e rd' :
  keeps rd0 rd -> readRune_post rd c e rd' -> keeps rd0 rd'.
Proof.
  unfold keeps, readRune_post; intros (K1 & K2 & K3) (R1 & R2 & R3).
  repeat split; try congruence.
  destruct e; [destruct R3 as (_ & R3); lia | lia].
Qed.

Lemma keeps_buf rd0 rd s : keeps rd0 rd -> keeps rd0 (with_buf s rd).
Proof. auto. Qed.

Create HintDb lexer.
#[local] Hint Resolve keeps_refl keeps_readRune keeps_buf : lexer.

(** ** Skipping *)

Lemma skip_post_readRune rd0 rd c e rd' :
  keeps rd0 rd -> readRune_post rd c e rd' -> skip_post rd0 (c, e) rd'.
Proof.
  intros Hk Hr; split; [eauto with lexer|].
  destruct Hk as (_ & _ & Hk), Hr as (_ & _ & Hr); simpl.
  destruct e; [tauto | lia].
Qed.

Lemma skipWhitespace_loop_spec (n : nat) :
  forall rd0 rd c, keeps rd0 rd -> (len rd < len rd0)%nat -> (len rd < n)%nat ->
    wp (skipWhitespace_loop n c) (skip_post rd0) rd.
Proof.
  induction n as [|n IH]; intros rd0 rd c Hk Hlt Hn; [lia|].
  simpl. destruct (isSpace c).
  - apply wp_readRune; intros c' e rd' Hr.
    pose proof (skip_post_readRune _ _ _ _ _ Hk Hr) as Hp.
    destruct e as [x|]; [now apply wp_ret|].
    apply IH; eauto with lexer; destruct Hr as (_ & _ & Hr); lia.
  - apply wp_ret. split; [assumption | simpl; lia].
Qed.

Lemma skipWhitespace_spec rd : wp skipWhitespace (skip_post rd) rd.
Proof.
  unfold skipWhitespace. apply wp_readRune; intros c e rd' Hr.
  pose proof (skip_post_readRune _ _ _ _ _ (keeps_refl rd) Hr) as Hp.
  destruct e as [x|]; [now apply wp_ret|].
  apply wp_with_fuel, skipWhitespace_loop_spec; eauto with lexer;
    try (destruct Hr as (_ & _ & Hr); lia); unfold fuel_of, len; lia.
Qed.

Lemma skipRestOfLine_loop_spec (n : nat) :
  forall rd0 rd c, keeps rd0 rd -> (len rd < len rd0)%nat -> (len rd < n)%nat ->
    wp (skipRestOfLine_loop n c) (skip_post rd0) rd.
Proof.
  induction n as [|n IH]; intros rd0 rd c Hk Hlt Hn; [lia|].
  simpl. destruct (negb (c =? ch "010")).
  - apply wp_readRune; intros c' e rd' Hr.
    pose proof (skip_post_readRune _ _ _ _ _ Hk Hr) as Hp.
    destruct e as [x|]; [now apply wp_ret|].
    apply IH; eauto with lexer; destruct Hr as (_ & _ & Hr); lia.
  - apply wp_modify, wp_ret. split; [exact Hk | exact Hlt].
Qed.

Lemma skipRestOfLine_spec rd : wp skipRestOfLine (skip_post rd) rd.
Proof.
  unfold skipRestOfLine. apply wp_readRune; intros c e rd' Hr.
  pose proof (skip_post_readRune _ _ _ _ _ (keeps_refl rd) Hr) as Hp.
  destruct e as [x|]; [now apply wp_ret|].
  apply wp_with_fuel, skipRestOfLine_loop_spec; eauto with lexer;
    try (destruct Hr as (_ & _ & Hr); lia); unfold fuel_of, len; lia.
Qed.

(** ** Term lexers *)

Lemma wp_unreadRune {B : Type} (k : option error -> M B) Q rd c rd1 :
  readRune_post rd c None rd1 ->
  (forall e rd2,
      q rd2 = q rd1 -> err rd2 = err rd1 -> (len rd2 <= len rd)%nat ->
      (c <> ch "013" -> e = None) ->
      wp (k e) Q rd2) ->
  wp (bind (lift unreadRune) k) Q rd1.
Proof.
  intros (_ & _ & Hlt & Hbs & Hlast) H; unfold wp, bind, lift.
  pose proof (unreadRune_spec rd1) as Hs.
  destruct (unreadRune rd1) as [e rd2]. destruct Hs as (Hq & He & Hs).
  apply H; auto.
  - destruct (bufio.lastRune (r rd1)) as [bs|]; [|lia].
    specialize (Hbs bs eq_refl); lia.
  - intros Hc. specialize (Hlast Hc).
    destruct (bufio.lastRune (r rd1)); [tauto | congruence].
Qed.

Lemma wp_Peek2 {B : Type} (k : string * option error -> M B) Q rd :
  (forall next e,
      match e with
      | Some x => x = EOF
      | None => exists c, String.get 1 next = Some c
      end ->
      wp (k (next, e)) Q
         (with_r (bufio.mk (bufio.rest (r rd)) None) rd)) ->
  wp (bind (lift (fun rd =>
              let '(res, b) := bufio.Peek 2 (r rd) in (res, with_r b rd))) k)
     Q rd.
Proof.
  intros H; unfold wp, bind, lift, bufio.Peek.
  destruct (String.length (bufio.rest (r rd)) <? 2)%nat eqn:E; simpl.
  - now apply H.
  - apply H. apply Nat.ltb_ge in E.
    destruct (bufio.rest (r rd)) as [|a [|b tl]]; simpl in *; try lia.
    now exists b.
Qed.

Ltac wp_branch :=
  match goal with
  | |- wp (if ?b then _ else _) _ _ => destruct b eqn:?
  | |- wp (match ?e with _ => _ end) _ _ => destruct e eqn:?
  end.

(** Closes the side conditions: frame equalities and length bounds. *)
Ltac lex_solve :=
  unfold term_post, skip_post, keeps, readRune_post, present, fuel_of, len in *;
  simpl in *; intros;
  repeat match goal with
         | H : _ /\ _ |- _ => destruct H
         end;
  repeat split; intros;
  try congruence; try lia; try discriminate.

(** Symbolic execution up to the recursive calls. *)
Ltac wp_run := repeat first [ wp_prim | wp_branch ].

Lemma readCodepoint_spec (n : nat) :
  forall rd cp, wp (readCodepoint n cp) (fun _ rd' => keeps rd rd') rd.
Proof.
  induction n as [|n IH]; intros rd cp; simpl.
  - apply wp_ret, keeps_refl.
  - wp_run; try solve [lex_solve];
      (eapply wp_mono; [apply IH|]; lex_solve).
Qed.

Lemma parseIRI_loop_spec (n : nat) :
  forall rd0 rd, keeps rd0 rd -> (len rd < n)%nat ->
    wp (parseIRI_loop n) (term_post rd0) rd.
Proof.
  induction n as [|n IH]; intros rd0 rd Hk Hn; [lia|]; simpl.
  wp_run; try solve [lex_solve].
  - eapply wp_bind; [apply readCodepoint_spec|].
    intros [cp ecp] rd2 Hk2; wp_run; [lex_solve|].
    apply IH; lex_solve.
  - apply IH; lex_solve.
Qed.

Lemma parseIRI_spec rd : wp parseIRI (term_post rd) rd.
Proof.
  apply wp_with_fuel, parseIRI_loop_spec; [apply keeps_refl|].
  unfold fuel_of, len; lia.
Qed.

Lemma period_not_CR c : (c =? ch ".") = true -> c <> ch "013".
Proof. intros H; apply Z.eqb_eq in H; subst; discriminate. Qed.

Lemma parseBlankNode_loop_spec (n : nat) :
  forall rd0 rd, keeps rd0 rd -> (len rd < n)%nat ->
    wp (parseBlankNode_loop n) (term_post rd0) rd.
Proof.
  induction n as [|n IH]; intros rd0 rd Hk Hn; [lia|]; simpl.
  wp_run; try solve [lex_solve].
  - apply IH; lex_solve.
  - match goal with
    | Hr : readRune_post rd _ None _, Hc : (_ =? ch ".") = true |- _ =>
      eapply wp_unreadRune; [exact Hr|];
      intros e2 rd2 Hq2 He2 Hl2 Hnone;
      specialize (Hnone (period_not_CR _ Hc)); subst e2
    end.
    apply wp_Peek2; intros next e3 Hnext.
    destruct e3 as [x|]; [subst x; wp_run; lex_solve|].
    destruct Hnext as (b & ->).
    wp_run; try solve [lex_solve].
    apply IH; lex_solve.
Qed.

Lemma parseBlankNode_spec rd : wp parseBlankNode (term_post rd) rd.
Proof.
  unfold parseBlankNode. wp_run; try solve [lex_solve].
  apply parseBlankNode_loop_spec; lex_solve.
Qed.

Lemma parseLiteral_language_spec (n : nat) :
  forall rd0 rd value major, keeps rd0 rd -> (len rd < n)%nat ->
    wp (parseLiteral_language n value major) (term_post rd0) rd.
Proof.
  induction n as [|n IH]; intros rd0 rd value major Hk Hn; [lia|]; simpl.
  wp_run; try solve [lex_solve]; try solve [apply IH; lex_solve].
  match goal with
  | Hr : readRune_post rd _ None _ |- _ =>
    eapply wp_unreadRune; [exact Hr|]; intros e2 rd2 Hq2 He2 Hl2 _
  end.
  wp_run; lex_solve.
Qed.

Lemma parseLiteral_datatype_spec (n : nat) :
  forall rd0 rd value, keeps rd0 rd -> (len rd < n)%nat ->
    wp (parseLiteral_datatype n value) (term_post rd0) rd.
Proof.
  induction n as [|n IH]; intros rd0 rd value Hk Hn; [lia|]; simpl.
  wp_run; try solve [lex_solve]; apply IH; lex_solve.
Qed.

Lemma parseLiteral_suffix_spec rd0 rd :
  keeps rd0 rd -> wp parseLiteral_suffix (term_post rd0) rd.
Proof.
  intros Hk; unfold parseLiteral_suffix.
  wp_run; try solve [lex_solve].
  - match goal with
    | Hr : readRune_post rd _ None _ |- _ =>
      eapply wp_unreadRune; [exact Hr|]; intros e2 rd2 Hq2 He2 Hl2 _
    end.
    wp_run; lex_solve.
  - apply parseLiteral_language_spec; lex_solve.
  - apply parseLiteral_datatype_spec; lex_solve.
Qed.

Lemma parseLiteral_loop_spec (n : nat) :
  forall rd0 rd, keeps rd0 rd -> (len rd < n)%nat ->
    wp (parseLiteral_loop n) (term_post rd0) rd.
Proof.
  induction n as [|n IH]; intros rd0 rd Hk Hn; [lia|]; simpl.
  wp_run; try solve [lex_solve]; try solve [apply IH; lex_solve].
  - apply parseLiteral_suffix_spec; lex_solve.
  - eapply wp_bind; [apply readCodepoint_spec|].
    intros [cp ecp] rd2 Hk2; wp_run; [lex_solve|].
    apply IH; lex_solve.
Qed.

Lemma parseLiteral_spec rd : wp parseLiteral (term_post rd) rd.
Proof.
  apply wp_with_fuel, parseLiteral_loop_spec; [apply keeps_refl|].
  unfold fuel_of, len; lia.
Qed.

Ltac wp_call spec :=
  eapply wp_bind; [apply spec|]; cbv beta;
  let res := fresh "res" in
  let rd1 := fresh "rd" in
  let Hp := fresh "Hp" in
  intros res rd1 Hp.

Lemma term_post_trans rd0 rd res rd' :
  keeps rd0 rd -> term_post rd res rd' -> term_post rd0 res rd'.
Proof. intros Hk (Hk' & Hp); split; [eapply keeps_trans; eauto | exact Hp]. Qed.

Lemma parseIriOrBlankNode_spec rd : wp parseIriOrBlankNode (term_post rd) rd.
Proof.
  unfold parseIriOrBlankNode. wp_run.
  wp_call skipWhitespace_spec. destruct res as [c e].
  wp_run; try solve [lex_solve].
  - eapply wp_mono; [apply parseIRI_spec|]; intros; eapply term_post_trans; eauto.
    lex_solve.
  - eapply wp_mono; [apply parseBlankNode_spec|]; intros; eapply term_post_trans; eauto.
    lex_solve.
Qed.

Lemma parseAnyTerm_spec rd : wp parseAnyTerm (term_post rd) rd.
Proof.
  unfold parseAnyTerm. wp_run.
  wp_call skipWhitespace_spec. destruct res as [c e].
  wp_run; try solve [lex_solve].
  - eapply wp_mono; [apply parseIRI_spec|]; intros; eapply term_post_trans; eauto.
    lex_solve.
  - eapply wp_mono; [apply parseBlankNode_spec|]; intros; eapply term_post_trans; eauto.
    lex_solve.
  - eapply wp_mono; [apply parseLiteral_spec|]; intros; eapply term_post_trans; eauto.
    lex_solve.
Qed.

Lemma parseIriOrBlankNodeOrEndTriple_spec rd :
  wp parseIriOrBlankNodeOrEndTriple (graph_post rd) rd.
Proof.
  unfold parseIriOrBlankNodeOrEndTriple. wp_run.
  wp_call skipWhitespace_spec. destruct res as [c e].
  wp_run; try solve [unfold graph_post; lex_solve; auto].
  - wp_call parseIRI_spec. destruct res as [t [e'|]]; wp_run;
      unfold graph_post; lex_solve; auto.
  - wp_call parseBlankNode_spec. destruct res as [t [e'|]]; wp_run;
      unfold graph_post; lex_solve; auto.
Qed.

Lemma readEndQuad_spec rd :
  wp readEndQuad (fun _ rd' => keeps rd rd') rd.
Proof.
  unfold readEndQuad. wp_call skipWhitespace_spec. destruct res as [c e].
  wp_run; lex_solve.
Qed.

Lemma expectCommentOrEndOfLine_spec rd :
  wp expectCommentOrEndOfLine (fun _ rd' => keeps rd rd') rd.
Proof.
  unfold expectCommentOrEndOfLine. wp_call skipWhitespace_spec.
  destruct res as [c e]. wp_run; try solve [lex_solve].
  wp_call skipRestOfLine_spec. destruct res as [c' e'].
  wp_run; lex_solve.
Qed.

(** ** The quad assembler *)

Ltac asm_solve :=
  unfold asm_post, graph_post, term_post, keeps, present in *;
  simpl in *; intros;
  repeat match goal with
         | H : _ /\ _ |- _ => destruct H
         end;
  repeat match goal with
         | H : q _ = _ |- _ => rewrite H in *
         end;
  simpl in *;
  repeat split; intros; try congruence; try discriminate;
  try solve [constructor; unfold present; auto].

Lemma Next_finish_spec rd :
  partial_quad (q rd) -> wp Next_finish asm_post rd.
Proof.
  intros Hq; unfold Next_finish.
  wp_call expectCommentOrEndOfLine_spec.
  apply wp_modify, wp_ret. destruct Hp as (Hq' & _ & _).
  destruct res; asm_solve.
Qed.

Lemma Next_graph_spec rd s p o :
  q rd = Quad.mk s p o rdf.zero -> present s -> present p -> present o ->
  wp Next_graph asm_post rd.
Proof.
  intros Hq Hs Hp Ho; unfold Next_graph, stop, set_G.
  wp_call parseIriOrBlankNodeOrEndTriple_spec.
  destruct res as [[fin term] [e|]].
  - wp_run. asm_solve.
  - destruct Hp0 as ((Hq' & _ & _) & Hfin). destruct fin.
    + apply Next_finish_spec. rewrite Hq', Hq. now constructor.
    + destruct Hfin as [Hfin|Hterm]; [discriminate|].
      apply wp_modify. wp_call readEndQuad_spec.
      destruct Hp0 as (Hq2 & _ & _); simpl in Hq2.
      destruct res as [e|]; [wp_run; asm_solve|].
      apply Next_finish_spec. rewrite Hq2, Hq', Hq. now constructor.
Qed.

Lemma Next_object_spec rd s p :
  q rd = Quad.mk s p rdf.zero rdf.zero -> present s -> present p ->
  wp Next_object asm_post rd.
Proof.
  intros Hq Hs Hp; unfold Next_object, stop, set_O.
  wp_call parseAnyTerm_spec. destruct res as [term [e|]].
  - wp_run. asm_solve.
  - destruct Hp0 as ((Hq' & _ & _) & Hterm). specialize (Hterm eq_refl).
    wp_run; try solve [asm_solve].
    apply Next_graph_spec with (s := s) (p := p) (o := term); simpl; auto.
    now rewrite Hq', Hq.
Qed.

Lemma Next_predicate_spec rd s :
  q rd = Quad.mk s rdf.zero rdf.zero rdf.zero -> present s ->
  wp Next_predicate asm_post rd.
Proof.
  intros Hq Hs; unfold Next_predicate, stop, set_P.
  wp_call parseIriOrBlankNode_spec. destruct res as [term [e|]].
  - wp_run. asm_solve.
  - destruct Hp as ((Hq' & _ & _) & Hterm). specialize (Hterm eq_refl).
    wp_run; try solve [asm_solve].
    apply Next_object_spec with (s := s) (p := term); simpl; auto.
    now rewrite Hq', Hq.
Qed.

Lemma Next_subject_spec rd :
  q rd = Quad.zero -> wp Next_subject asm_post rd.
Proof.
  intros Hq; unfold Next_subject, stop, set_S.
  wp_call parseIriOrBlankNode_spec. destruct res as [term [e|]].
  - wp_run. asm_solve.
  - destruct Hp as ((Hq' & _ & _) & Hterm). specialize (Hterm eq_refl).
    wp_run; try solve [asm_solve].
    apply Next_predicate_spec with (s := term); simpl; auto.
    now rewrite Hq', Hq.
Qed.

Lemma Next_skip_spec (n : nat) :
  forall rd0 rd c, q rd = q rd0 -> err rd = err rd0 -> (len rd < n)%nat ->
    wp (Next_skip n c) (Next_skip_post rd0) rd.
Proof.
  induction n as [|n IH]; intros rd0 rd c Hq He Hn; simpl.
  - destruct (c =? ch "010"); [|apply wp_ret; split; assumption].
    lia.
  - destruct (c =? ch "010"); [|apply wp_ret; split; assumption].
    wp_call skipWhitespace_spec. destruct res as [c1 [x|]].
    + destruct Hp as ((Hq1 & He1 & Hl1) & -> & Hz); simpl.
      apply wp_ret; repeat split; congruence.
    + destruct Hp as ((Hq1 & He1 & Hl1) & Hlt); simpl in Hlt.
      destruct (c1 =? ch "#").
      * wp_call skipRestOfLine_spec. destruct res as [c2 [x|]].
        -- destruct Hp as ((Hq2 & He2 & Hl2) & -> & Hz); simpl.
           apply wp_ret; repeat split; congruence.
        -- destruct Hp as ((Hq2 & He2 & Hl2) & Hlt2); simpl in Hlt2.
           apply IH; try congruence; lia.
      * apply IH; try congruence; lia.
Qed.

Lemma Next_attempt_spec rd : wp Next_attempt Next_post rd.
Proof.
  unfold Next_attempt. apply wp_modify, wp_bind with
    (P := Next_skip_post (with_column (-1) (with_line (line rd + 1)
                                              (with_q Quad.zero rd)))).
  - apply wp_with_fuel, Next_skip_spec; auto.
  - intros [b|c] rd1 (Hq & Hs); simpl in Hq.
    + destruct Hs as (-> & Hz). apply wp_ret. unfold Next_post.
      rewrite Hq. repeat split; auto using partial_quad; discriminate.
    + unfold wp, bind, lift, bufio.UnreadRune.
      destruct (bufio.lastRune (r rd1)) as [bs|]; simpl.
      * pose proof (Next_subject_spec
                      (with_r (bufio.mk (bs ++ bufio.rest (r rd1)) None) rd1)
                      Hq) as Hsub.
        unfold wp in Hsub.
        destruct (Next_subject _) as [[b rd2]|]; [|exact Hsub].
        destruct Hsub as (Hpq & Hf & Ht). unfold Next_post.
        repeat split; auto; exfalso; apply Hf; assumption.
      * unfold Next_post; simpl. rewrite Hq.
        repeat split; auto using partial_quad; discriminate.
Qed.

Lemma Next_spec rd : err rd = None -> wp Next Next_post rd.
Proof.
  intros He. pose proof (Next_attempt_spec rd) as H.
  unfold wp, Next in *. now rewrite He.
Qed.

(** [Next] always returns: no input exhausts the fuel of a loop or reaches
    the index expression of [parseBlankNode] with too short a slice. *)
Lemma Next_total rd : exists b rd', Next rd = Some (b, rd').
Proof.
  destruct (err rd) as [e|] eqn:He.
  - exists false, rd. unfold Next; now rewrite He.
  - destruct (wp_total _ _ _ (Next_spec rd He)) as (b & rd' & H & _); eauto.
Qed.

(** A parse attempt on an input that is used up. *)
Lemma Next_exhausted rd :
  err rd = None -> len rd = 0%nat ->
  exists rd', Next rd = Some (false, rd')
              /\ err rd' = None /\ len rd' = 0%nat /\ q rd' = Quad.zero.
Proof.
  intros He Hl. unfold Next; rewrite He.
  unfold len in Hl. destruct rd as [l c [rest last] b e k]; simpl in *.
  destruct rest; [|discriminate]. subst e.
  eexists; split; [reflexivity|]. simpl; auto.
Qed.

Lemma calls_exhausted (n : nat) :
  forall rd, err rd = None -> len rd = 0%nat ->
    calls n rd = Some (repeat (false, Quad.zero, None) n).
Proof.
  induction n as [|n IH]; intros rd He Hl; simpl; [reflexivity|].
  destruct (Next_exhausted rd He Hl) as (rd' & -> & He' & Hl' & Hq').
  rewrite (IH rd' He' Hl'). unfold Quad, Err. now rewrite He', Hq'.
Qed.

(** ** The quad a parse attempt leaves *)

Lemma stop_q e rd b rd' : stop e rd = Some (b, rd') -> q rd' = q rd.
Proof. unfold stop, bind, modify, ret. intros [= <- <-]. reflexivity. Qed.

Lemma wrap_stop_q k rd b rd' :
  (e' <- wrap k ;; stop (Some e')) rd = Some (b, rd') -> q rd' = q rd.
Proof. unfold wrap, gets, bind. apply stop_q. Qed.

Lemma Next_finish_q rd b rd' : Next_finish rd = Some (b, rd') -> q rd' = q rd.
Proof.
  unfold Next_finish, bind.
  destruct (expectCommentOrEndOfLine rd) as [[e rd1]|] eqn:E; [|discriminate].
  pose proof (wp_elim _ _ _ _ _ (expectCommentOrEndOfLine_spec rd) E) as (Hq & _).
  unfold modify, ret. intros [= <- <-]. exact Hq.
Qed.

Lemma Next_graph_assembled rd s p o b rd' :
  q rd = Quad.mk s p o rdf.zero -> Next_graph rd = Some (b, rd') ->
  q rd' = match accepted_graph rd with
          | None => Quad.mk s p o rdf.zero
          | Some (g, _) => Quad.mk s p o g
          end.
Proof.
  intros Hq. unfold Next_graph, accepted_graph, bind at 1.
  destruct (parseIriOrBlankNodeOrEndTriple rd) as [[[[fin g] e] rd1]|] eqn:E;
    [|discriminate].
  pose proof (wp_elim _ _ _ _ _ (parseIriOrBlankNodeOrEndTriple_spec rd) E)
    as ((Hq1 & _) & _).
  destruct e as [e|].
  - intros H. rewrite (stop_q _ _ _ _ H), Hq1, Hq. now destruct fin.
  - destruct fin.
    + intros H. now rewrite (Next_finish_q _ _ _ H), Hq1, Hq.
    + unfold set_G, bind at 1, modify.
      unfold bind at 1.
      match goal with
      | |- context [readEndQuad ?x] =>
        destruct (readEndQuad x) as [[e rd2]|] eqn:E2; [|discriminate];
          pose proof (wp_elim _ _ _ _ _ (readEndQuad_spec x) E2) as (Hq2 & _)
      end.
      simpl in Hq2. rewrite Hq1, Hq in Hq2. simpl in Hq2.
      destruct e as [e|]; intros H.
      * now rewrite (stop_q _ _ _ _ H).
      * now rewrite (Next_finish_q _ _ _ H).
Qed.

Lemma Next_object_assembled rd s p b rd' :
  q rd = Quad.mk s p rdf.zero rdf.zero -> Next_object rd = Some (b, rd') ->
  q rd' = match accepted parseAnyTerm
                         (fun t => relativeIRI t || relativeDatatype t) rd with
          | None => Quad.mk s p rdf.zero rdf.zero
          | Some (o, rd1) =>
            match accepted_graph (with_q (Quad.mk s p o rdf.zero) rd1) with
            | None => Quad.mk s p o rdf.zero
            | Some (g, _) => Quad.mk s p o g
            end
          end.
Proof.
  intros Hq. unfold Next_object, accepted, bind at 1.
  destruct (parseAnyTerm rd) as [[[o e] rd1]|] eqn:E; [|discriminate].
  pose proof (wp_elim _ _ _ _ _ (parseAnyTerm_spec rd) E) as ((Hq1 & _) & _).
  destruct e as [e|].
  - intros H. now rewrite (stop_q _ _ _ _ H), Hq1, Hq.
  - destruct (relativeIRI o); simpl.
    + intros H. now rewrite (wrap_stop_q _ _ _ _ H), Hq1, Hq.
    + destruct (relativeDatatype o).
      * intros H. now rewrite (wrap_stop_q _ _ _ _ H), Hq1, Hq.
      * unfold set_O, bind at 1, modify. intros H.
        apply (Next_graph_assembled _ s p o) in H;
          [|simpl; now rewrite Hq1, Hq].
        rewrite Hq1, Hq in H. exact H.
Qed.

Lemma Next_predicate_assembled rd s b rd' :
  q rd = Quad.mk s rdf.zero rdf.zero rdf.zero ->
  Next_predicate rd = Some (b, rd') ->
  q rd' = match accepted parseIriOrBlankNode relativeIRI rd with
          | None => Quad.mk s rdf.zero rdf.zero rdf.zero
          | Some (p, rd1) =>
            match accepted parseAnyTerm
                           (fun t => relativeIRI t || relativeDatatype t)
                           (with_q (Quad.mk s p rdf.zero rdf.zero) rd1) with
            | None => Quad.mk s p rdf.zero rdf.zero
            | Some (o, rd2) =>
              match accepted_graph (with_q (Quad.mk s p o rdf.zero) rd2) with
              | None => Quad.mk s p o rdf.zero
              | Some (g, _) => Quad.mk s p o g
              end
            end
          end.
Proof.
  intros Hq. unfold Next_predicate, accepted at 1, bind at 1.
  destruct (parseIriOrBlankNode rd) as [[[p e] rd1]|] eqn:E; [|discriminate].
  pose proof (wp_elim _ _ _ _ _ (parseIriOrBlankNode_spec rd) E)
    as ((Hq1 & _) & _).
  destruct e as [e|].
  - intros H. now rewrite (stop_q _ _ _ _ H), Hq1, Hq.
  - destruct (relativeIRI p).
    + intros H. now rewrite (wrap_stop_q _ _ _ _ H), Hq1, Hq.
    + unfold set_P, bind at 1, modify. intros H.
      apply (Next_object_assembled _ s p) in H;
        [|simpl; now rewrite Hq1, Hq].
      rewrite Hq1, Hq in H. exact H.
Qed.

Lemma Next_subject_assembled rd b rd' :
  q rd = Quad.zero -> Next_subject rd = Some (b, rd') ->
  q rd' = assembled rd.
Proof.
  intros Hq. unfold Next_subject, assembled, accepted at 1, bind at 1.
  destruct (parseIriOrBlankNode rd) as [[[s e] rd1]|] eqn:E; [|discriminate].
  pose proof (wp_elim _ _ _ _ _ (parseIriOrBlankNode_spec rd) E)
    as ((Hq1 & _) & _).
  destruct e as [e|].
  - intros H. now rewrite (stop_q _ _ _ _ H), Hq1, Hq.
  - destruct (relativeIRI s).
    + intros H. now rewrite (wrap_stop_q _ _ _ _ H), Hq1, Hq.
    + unfold set_S, bind at 1, modify. intros H.
      apply (Next_predicate_assembled _ s) in H;
        [|simpl; now rewrite Hq1, Hq].
      rewrite Hq1, Hq in H. exact H.
Qed.

(** The quad after a parse attempt, whatever it returns. *)
Lemma Next_attempt_assembled rd b rd' :
  Next_attempt rd = Some (b, rd') ->
  q rd' = match Next_head rd with
          | Some rd1 => assembled rd1
          | None => Quad.zero
          end.
Proof.
  unfold Next_attempt, Next_head.
  unfold bind, modify.
  match goal with
  | |- context [with_fuel ?f ?x] =>
    pose proof (wp_with_fuel f (Next_skip_post x) x
                  (Next_skip_spec _ x x (ch "010") eq_refl eq_refl
                                  (Nat.lt_succ_diag_r _))) as Hs;
      unfold wp in Hs;
      destruct (with_fuel f x) as [[[b0|c] rd0]|]; [| |discriminate]
  end.
  - destruct Hs as (Hq & _). unfold ret. intros [= <- <-]. exact Hq.
  - destruct Hs as (Hq & _). simpl in Hq.
    unfold lift.
    destruct (bufio.UnreadRune (r rd0)) as [[e|] b1] eqn:U.
    + intros H. now rewrite (stop_q _ _ _ _ H).
    + apply Next_subject_assembled. exact Hq.
Qed.

(** * The reader's contract *)

(** ** Sticky errors *)

(** C1.  Once the sticky error of a reader is set, a call of [Next] returns
    false and leaves the reader exactly as it was: nothing is read, and
    [Err] keeps returning the same error, however many calls follow. *)
Theorem Next_sticky_error (rd : Reader) (e : error) :
  Err rd = Some e ->
  Next rd = Some (false, rd)
  /\ forall n, calls n rd = Some (repeat (false, Quad rd, Some e) n).
Proof.
  unfold Err; intros He.
  assert (Hn : Next rd = Some (false, rd)) by (unfold Next; now rewrite He).
  split; [exact Hn|].
  induction n as [|n IH]; simpl; [reflexivity|].
  rewrite Hn, IH. unfold Err; now rewrite He.
Qed.

Lemma failed_reader_reached :
  Next (NewReader "<s> <p> <o> .") = Some (false, failed_reader).
Proof. vm_compute. reflexivity. Qed.

Lemma Next_sticky_error_witness :
  Err failed_reader = Some (ParseError 1 3 ErrRelativeIRI)
  /\ (Next failed_reader = Some (false, failed_reader)
      /\ forall n,
          calls n failed_reader
          = Some (repeat (false, Quad failed_reader,
                          Some (ParseError 1 3 ErrRelativeIRI)) n)).
Proof.
  split; [reflexivity|].
  apply (Next_sticky_error failed_reader (ParseError 1 3 ErrRelativeIRI)).
  reflexivity.
Defined.

(** ** Exhaustion *)

(** C10.  When [Next] returns false and [Err] is nil afterwards, the input
    was used up, and every later call of [Next] returns false as well, with
    [Err] still nil (and [Quad] the zero quad). *)
Theorem Next_exhaustion_stable (rd rd' : Reader) :
  Next rd = Some (false, rd') -> Err rd' = None ->
  forall n, calls n rd' = Some (repeat (false, Quad.zero, None) n).
Proof.
  unfold Err; intros HN He n.
  destruct (err rd) as [e|] eqn:Hrd.
  - unfold Next in HN; rewrite Hrd in HN. injection HN as <-. congruence.
  - pose proof (wp_elim _ _ _ _ _ (Next_spec rd Hrd) HN) as (_ & Hf & _).
    destruct (Hf eq_refl He) as (Hl & _).
    now apply calls_exhausted.
Qed.

Lemma Next_exhaustion_stable_witness :
  Next (NewReader "# no statement")
  = Some (false, mkReader 1 14 (bufio.mk EmptyString None) EmptyString None
                          Quad.zero)
  /\ Err (mkReader 1 14 (bufio.mk EmptyString None) EmptyString None
                   Quad.zero) = None
  /\ forall n,
      calls n (mkReader 1 14 (bufio.mk EmptyString None) EmptyString None
                        Quad.zero)
      = Some (repeat (false, Quad.zero, None) n).
Proof.
  split; [vm_compute; reflexivity|]. split; [reflexivity|].
  apply (Next_exhaustion_stable (NewReader "# no statement")).
  - vm_compute; reflexivity.
  - reflexivity.
Defined.

(** ** The quad after a failed call *)

(** C2, as stated, fails: on ["<a:s> x"] the subject is accepted and stored
    before the predicate lexer meets ['x'], so after the failed call [Quad]
    returns a quad whose subject is [<a:s>], not the zero quad. *)
Lemma Quad_after_failure_keeps_subject :
  session 1 "<a:s> x"
  = Some [(false,
           Quad.mk (rdf.IRI "a:s") rdf.zero rdf.zero rdf.zero,
           Some (ParseError 1 7 ErrUnexpectedCharacter))]
  /\ Quad.mk (rdf.IRI "a:s") rdf.zero rdf.zero rdf.zero <> Quad.zero.
Proof. split; [vm_compute; reflexivity | discriminate]. Qed.

(** C2, amended.  A parse attempt starts from the zero quad and stores each
    term as soon as it is accepted.  After a failed call [Quad] therefore
    returns the statement as far as it was assembled, [assembled]: every
    term that its lexer returned without an error and that passed the test
    for a relative IRI before the error is in its slot (subject, then
    predicate, then object, then graph), none of them the zero term, and
    the slots from the first one without an accepted term on are zero; it
    is the zero quad unless a subject had been accepted.  No error path
    clears the quad or stores anything else. *)
Theorem Quad_after_failure_partial (rd rd' : Reader) (e : error) :
  Err rd = None -> Next rd = Some (false, rd') -> Err rd' = Some e ->
  Quad rd' = match Next_head rd with
             | Some rd1 => assembled rd1
             | None => Quad.zero
             end
  /\ partial_quad (Quad rd')
  /\ (Quad.S (Quad rd') = rdf.zero -> Quad rd' = Quad.zero).
Proof.
  unfold Err, Quad; intros Hrd HN _.
  pose proof (proj1 (wp_elim _ _ _ _ _ (Next_spec rd Hrd) HN)) as Hp.
  split; [|split; [exact Hp|]].
  - unfold Next in HN. rewrite Hrd in HN.
    exact (Next_attempt_assembled _ _ _ HN).
  - destruct Hp as [|s Hs|s p Hs _|s p o Hs _ _|s p o g Hs _ _ _]; simpl;
      intros Hz; [reflexivity|subst s; exfalso; apply Hs; reflexivity..].
Qed.

(** The example of the witness: the reader on which the subject lexer
    starts, and the statement as far as it is accepted there. *)
Lemma assembled_subject_predicate :
  Next_head (NewReader "<a:s> <a:p> x")
  = Some (mkReader 1 0 (bufio.mk "<a:s> <a:p> x" None) EmptyString None
                   Quad.zero)
  /\ assembled (mkReader 1 0 (bufio.mk "<a:s> <a:p> x" None) EmptyString None
                          Quad.zero)
     = Quad.mk (rdf.IRI "a:s") (rdf.IRI "a:p") rdf.zero rdf.zero.
Proof. split; vm_compute; reflexivity. Qed.

Lemma Quad_after_failure_partial_witness :
  Err (NewReader "<a:s> <a:p> x") = None
  /\ Next (NewReader "<a:s> <a:p> x")
     = Some (false,
             mkReader 1 13 (bufio.mk EmptyString (Some "x")) EmptyString
                      (Some (ParseError 1 13 ErrUnexpectedCharacter))
                      (Quad.mk (rdf.IRI "a:s") (rdf.IRI "a:p") rdf.zero
                               rdf.zero))
  /\ Quad.mk (rdf.IRI "a:s") (rdf.IRI "a:p") rdf.zero rdf.zero
     = match Next_head (NewReader "<a:s> <a:p> x") with
       | Some rd1 => assembled rd1
       | None => Quad.zero
       end
  /\ partial_quad (Quad.mk (rdf.IRI "a:s") (rdf.IRI "a:p") rdf.zero rdf.zero).
Proof.
  split; [reflexivity|]. split; [vm_compute; reflexivity|].
  pose proof (Quad_after_failure_partial
                (NewReader "<a:s> <a:p> x")
                (mkReader 1 13 (bufio.mk EmptyString (Some "x")) EmptyString
                          (Some (ParseError 1 13 ErrUnexpectedCharacter))
                          (Quad.mk (rdf.IRI "a:s") (rdf.IRI "a:p") rdf.zero
                                   rdf.zero))
                (ParseError 1 13 ErrUnexpectedCharacter)
                eq_refl
                ltac:(vm_compute; reflexivity)
                eq_refl) as (H1 & H2 & _).
  split; [exact H1 | exact H2].
Defined.

(** ** The absoluteness check *)

(** C3 holds for the subject, the predicate, the object and the datatype,
    but not for the graph: [Next] stores the graph term without calling
    [isAbsoluteIRI].  On ["<a:s> <a:p> <a:o> <g> ."] the call succeeds with
    the relative graph IRI [g] and no error. *)
Theorem graph_IRI_not_checked :
  session 1 "<a:s> <a:p> <a:o> <g> ."
  = Some [(true,
           Quad.mk (rdf.IRI "a:s") (rdf.IRI "a:p") (rdf.IRI "a:o") (rdf.IRI "g"),
           None)]
  /\ isAbsoluteIRI "g" = false
  /\ session 1 "<a:s> <a:p> <g> ."
     = Some [(false,
              Quad.mk (rdf.IRI "a:s") (rdf.IRI "a:p") rdf.zero rdf.zero,
              Some (ParseError 1 15 ErrRelativeIRI))].
Proof. repeat split; vm_compute; reflexivity. Qed.

(** ** Graph optionality *)

(** C4, as stated, fails: the subject of ["<s> <p> <o> ."] has no colon, so
    the first call stops at the absoluteness check with the relative-IRI
    error and no quad. *)
Lemma relative_subject_rejected :
  session 2 "<s> <p> <o> ."
  = Some [(false, Quad.zero, Some (ParseError 1 3 ErrRelativeIRI));
          (false, Quad.zero, Some (ParseError 1 3 ErrRelativeIRI))].
Proof. vm_compute; reflexivity. Qed.

(** C4, amended: with absolute IRIs.  ["<x:s> <x:p> <x:o> ."] yields a quad
    whose graph is the zero term, of kind [UnknownTerm];
    ["<x:s> <x:p> <x:o> <x:g> ."] yields a quad whose graph is the IRI
    [x:g]; on both inputs the second call returns false, without error. *)
Theorem graph_optional :
  session 2 "<x:s> <x:p> <x:o> ."
  = Some [(true,
           Quad.mk (rdf.IRI "x:s") (rdf.IRI "x:p") (rdf.IRI "x:o") rdf.zero,
           None);
          (false, Quad.zero, None)]
  /\ rdf.Kind rdf.zero = rdf.UnknownTerm
  /\ session 2 "<x:s> <x:p> <x:o> <x:g> ."
     = Some [(true,
              Quad.mk (rdf.IRI "x:s") (rdf.IRI "x:p") (rdf.IRI "x:o")
                      (rdf.IRI "x:g"),
              None);
             (false, Quad.zero, None)].
Proof. repeat split; vm_compute; reflexivity. Qed.

(** ** The terminator slot *)

(** C7 holds after four terms ([readEndQuad] turns the end of input into
    [ErrUnterminatedQuad], and another character into
    [ErrUnexpectedCharacter]) but not after three: there the end of input
    is met by [parseIriOrBlankNodeOrEndTriple], which hands [io.EOF] on as
    it is, and [Err] returns the bare [io.EOF]. *)
Theorem unterminated_triple_reports_EOF :
  session 1 "<a:s> <a:p> <a:o>"
  = Some [(false,
           Quad.mk (rdf.IRI "a:s") (rdf.IRI "a:p") (rdf.IRI "a:o") rdf.zero,
           Some EOF)]
  /\ session 1 "<a:s> <a:p> <a:o> "
     = Some [(false,
              Quad.mk (rdf.IRI "a:s") (rdf.IRI "a:p") (rdf.IRI "a:o") rdf.zero,
              Some EOF)]
  /\ Unwrap EOF <> ErrUnterminatedQuad
  /\ session 1 "<a:s> <a:p> <a:o> <a:g>"
     = Some [(false,
              Quad.mk (rdf.IRI "a:s") (rdf.IRI "a:p") (rdf.IRI "a:o")
                      (rdf.IRI "a:g"),
              Some (ParseError 1 24 ErrUnterminatedQuad))]
  /\ session 1 "<a:s> <a:p> <a:o> <a:g> ,"
     = Some [(false,
              Quad.mk (rdf.IRI "a:s") (rdf.IRI "a:p") (rdf.IRI "a:o")
                      (rdf.IRI "a:g"),
              Some (ParseError 1 25 ErrUnexpectedCharacter))].
Proof. repeat split; try (vm_compute; reflexivity). discriminate. Qed.

(** ** Carriage returns *)

(** C8 holds except for a carriage return that ends the input: [readRune]
    has then consumed it in order to look at the next rune, finds none, and
    returns the zero rune with [io.EOF]; the carriage return is lost.  The
    other cases are as claimed: CR LF gives one ['\n'], CR before another
    rune gives ['\r'], and the column moves by one each time. *)
Theorem readRune_final_CR_lost :
  (forall l c lr b e k,
      readRune (mkReader l c (bufio.mk (bytes [13]) lr) b e k)
      = ((0, Some EOF), mkReader l (c + 1) (bufio.mk EmptyString None) b e k))
  /\ (forall l c lr b e k tl,
         readRune (mkReader l c (bufio.mk (bytes [13; 10] ++ tl) lr) b e k)
         = ((10, None),
            mkReader l (c + 1) (bufio.mk tl (Some (bytes [10]))) b e k))
  /\ readRune (raw [13; 97])
     = ((13, None),
        mkReader 0 1 (bufio.mk "a" None) EmptyString None Quad.zero)
  /\ session 1 (bytes [13]) = Some [(false, Quad.zero, None)].
Proof. repeat split; vm_compute; reflexivity. Qed.

(** ** Datatype IRIs *)

(** C6 fails but for its last clause.  The loop for the datatype keeps the
    character rule of the package's first IRI lexer: it takes the printable
    ASCII characters other than the angle brackets and the double quote,
    and knows no escapes.  So it accepts a brace, which [parseIRI] rejects;
    it rejects a non-ASCII character, which [parseIRI] accepts; and it
    copies a numeric escape, which [parseIRI] decodes.  Both reject the
    empty IRI. *)
Theorem datatype_lexer_differs :
  lexTermIRI "a:{>" = Some (inr ErrUnexpectedCharacter)
  /\ lexDatatypeIRI "a:{>" = Some (inl "a:{")
  /\ lexTermIRI (bytes [97; 58; 195; 169; 62]) = Some (inl (bytes [97; 58; 195; 169]))
  /\ lexDatatypeIRI (bytes [97; 58; 195; 169; 62]) = Some (inr ErrUnexpectedCharacter)
  /\ lexTermIRI "a:\u0041>" = Some (inl "a:A")
  /\ lexDatatypeIRI "a:\u0041>" = Some (inl "a:\u0041")
  /\ lexTermIRI ">" = Some (inr ErrUnexpectedCharacter)
  /\ lexDatatypeIRI ">" = Some (inr ErrUnexpectedCharacter).
Proof. repeat split; vm_compute; reflexivity. Qed.

(** ** Periods in blank-node labels *)

(** C5.  When the label loop of [parseBlankNode] reads a period, it looks
    at the byte that follows.  If there is none, or if it is a space, a
    tab, a line feed or a carriage return, the label ends before the
    period, which stays in the input; otherwise the period joins the label
    and the loop goes on behind it.  Hence [_:a.] at the end of the input
    or before a space is the label [a], and [_:a.b] is the label [a.b]. *)
Theorem blank_label_period_lookahead :
  (forall n l c lr b e k tl,
      parseBlankNode_loop (S n)
        (mkReader l c (bufio.mk (String "." tl) lr) b e k)
      = match tl with
        | EmptyString =>
          Some ((rdf.Blank b, None),
                mkReader l c (bufio.mk "." None) b e k)
        | String x _ =>
          if isBreak x
          then Some ((rdf.Blank b, None),
                     mkReader l c (bufio.mk (String "." tl) None) b e k)
          else parseBlankNode_loop n
                 (mkReader l (c + 1) (bufio.mk tl (Some ".")) (b ++ ".") e k)
        end)
  /\ lexBlankNode ":a." = Some ((rdf.Blank "a", None), ".")
  /\ lexBlankNode ":a. " = Some ((rdf.Blank "a", None), ". ")
  /\ lexBlankNode ":a.b " = Some ((rdf.Blank "a.b", None), EmptyString)
  /\ session 1 "<x:s> <x:p> _:a.b ."
     = Some [(true,
              Quad.mk (rdf.IRI "x:s") (rdf.IRI "x:p") (rdf.Blank "a.b") rdf.zero,
              None)]
  /\ session 1 "<x:s> <x:p> _:a."
     = Some [(true,
              Quad.mk (rdf.IRI "x:s") (rdf.IRI "x:p") (rdf.Blank "a") rdf.zero,
              None)].
Proof.
  split; [|repeat split; vm_compute; reflexivity].
  intros n l c lr b e k tl.
  destruct tl as [|x tl'].
  - cbn -[Z.add Z.sub isBreak].
    unfold ret, with_r, with_column; cbn -[Z.add Z.sub].
    now rewrite Z.add_simpl_r.
  - cbn -[Z.add Z.sub isBreak].
    destruct (isBreak x);
      unfold ret, bind, modify, WriteRune, with_r, with_column, with_buf;
      cbn -[Z.add Z.sub]; rewrite Z.add_simpl_r; reflexivity.
Qed.

(** ** Numeric escapes outside the Unicode scalar values *)

Lemma wrap32_congr (a k : Z) : wrap32 (a + k * 2 ^ 32) = wrap32 a.
Proof.
  unfold wrap32. replace (a + k * 2 ^ 32 + 2 ^ 31) with (a + 2 ^ 31 + k * 2 ^ 32) by ring.
  now rewrite Z_mod_plus_full.
Qed.

Lemma wrap32_eqm (a : Z) : exists k, wrap32 a = a + k * 2 ^ 32.
Proof.
  exists (- ((a + 2 ^ 31) / 2 ^ 32)). unfold wrap32.
  rewrite Z.mod_eq by lia. ring.
Qed.

Lemma wrap32_add (a b : Z) : wrap32 (wrap32 a + wrap32 b) = wrap32 (a + b).
Proof.
  destruct (wrap32_eqm a) as (k1 & ->), (wrap32_eqm b) as (k2 & ->).
  replace (a + k1 * 2 ^ 32 + (b + k2 * 2 ^ 32))
    with (a + b + (k1 + k2) * 2 ^ 32) by ring.
  apply wrap32_congr.
Qed.

Lemma uint32_wrap32 (v : Z) : 0 <= v < 2 ^ 32 -> uint32 (wrap32 v) = v.
Proof.
  intros Hv. unfold uint32. destruct (wrap32_eqm v) as (k & ->).
  rewrite Z_mod_plus_full. now apply Z.mod_small.
Qed.

Lemma EncodeRune_invalid (v : Z) :
  0 <= v < 2 ^ 32 -> invalidScalar v ->
  utf8.EncodeRune (wrap32 v) = replacement.
Proof.
  intros Hv Hi. unfold utf8.EncodeRune. rewrite (uint32_wrap32 v Hv).
  unfold invalidScalar, utf8.MaxRune, utf8.surrogateMin, utf8.surrogateMax in *.
  destruct (v <=? 0x7F) eqn:E1; [lia|].
  destruct (v <=? 0x7FF) eqn:E2; [lia|].
  destruct ((0x10FFFF <? v) || ((0xD800 <=? v) && (v <=? 0xDFFF))) eqn:E3;
    [reflexivity|].
  apply orb_false_iff in E3 as (E3 & E4).
  apply andb_false_iff in E4. lia.
Qed.

Lemma hexDigit_range (x : ascii) (d : Z) :
  hexDigit x = Some d ->
  (byteZ x <? utf8.RuneSelf) = true /\ (byteZ x =? ch "013") = false
  /\ 0 <= d < 16.
Proof.
  unfold hexDigit, utf8.RuneSelf.
  change (ch "0") with 48; change (ch "9") with 57; change (ch "a") with 97;
    change (ch "f") with 102; change (ch "A") with 65; change (ch "F") with 70;
    change (ch "013") with 13.
  repeat match goal with
         | |- context [if ?b then _ else _] => destruct b eqn:?
         end; intros [= <-]; lia.
Qed.

Lemma hexValue_range (ds : string) :
  forall v, hexValue ds = Some v -> 0 <= v < 16 ^ Z.of_nat (String.length ds).
Proof.
  induction ds as [|x tl IH]; cbn [hexValue String.length]; intros v.
  - intros [= <-]; simpl; lia.
  - destruct (hexDigit x) as [d|] eqn:Hd; [|discriminate].
    destruct (hexValue tl) as [w|]; [|discriminate]. intros [= <-].
    destruct (hexDigit_range _ _ Hd) as (_ & _ & Hr).
    specialize (IH w eq_refl).
    rewrite Nat2Z.inj_succ, Z.pow_succ_r by lia. nia.
Qed.

Lemma readRune_ascii l c lr b e k (x : ascii) (tl : string) :
  (byteZ x <? utf8.RuneSelf) = true -> (byteZ x =? ch "013") = false ->
  readRune (mkReader l c (bufio.mk (String x tl) lr) b e k)
  = ((byteZ x, None),
     mkReader l (c + 1) (bufio.mk tl (Some (String x EmptyString))) b e k).
Proof.
  intros H1 H2. unfold readRune, bufio.ReadRune; simpl.
  rewrite H1; simpl. now rewrite H2.
Qed.

Lemma readCodepoint_digit (i : nat) cp l c lr b e k (x : ascii) tl d :
  hexDigit x = Some d ->
  readCodepoint (S i) cp
    (mkReader l c (bufio.mk (String x tl) lr) b e k)
  = readCodepoint i
      (wrap32 (cp + wrap32 (Z.shiftl 1 (4 * Z.of_nat i) * d)))
      (mkReader l (c + 1) (bufio.mk tl (Some (String x EmptyString))) b e k).
Proof.
  intros Hd. destruct (hexDigit_range _ _ Hd) as (H1 & H2 & _).
  cbn [readCodepoint]. unfold bind at 1. unfold lift.
  rewrite readRune_ascii by assumption.
  unfold hexDigit in Hd; cbv zeta in Hd.
  destruct ((ch "0" <=? byteZ x) && (byteZ x <=? ch "9"));
    [now injection Hd as <-|].
  destruct ((ch "a" <=? byteZ x) && (byteZ x <=? ch "f"));
    [now injection Hd as <-|].
  destruct ((ch "A" <=? byteZ x) && (byteZ x <=? ch "F"));
    [now injection Hd as <-|discriminate].
Qed.

Lemma readCodepoint_hex (ds : string) :
  forall a l c lr b e k tl v,
    hexValue ds = Some v ->
    readCodepoint (String.length ds) (wrap32 a)
      (mkReader l c (bufio.mk (ds ++ tl) lr) b e k)
    = Some ((wrap32 (a + v), None),
            mkReader l (c + Z.of_nat (String.length ds))
                     (bufio.mk tl (lastOf lr ds)) b e k).
Proof.
  induction ds as [|x ds IH]; intros a l c lr b e k tl v;
    cbn [hexValue String.length append lastOf].
  - intros [= <-]. cbn [readCodepoint Z.of_nat]. now rewrite !Z.add_0_r.
  - destruct (hexDigit x) as [d|] eqn:Hd; [|discriminate].
    destruct (hexValue ds) as [w|] eqn:Hw; [|discriminate]. intros [= <-].
    rewrite (readCodepoint_digit _ _ _ _ _ _ _ _ _ _ _ Hd).
    rewrite wrap32_add.
    rewrite (IH _ l (c + 1) _ b e k tl w eq_refl).
    rewrite Z.shiftl_1_l, Nat2Z.inj_succ.
    replace (2 ^ (4 * Z.of_nat (String.length ds)))
      with (16 ^ Z.of_nat (String.length ds))
      by (rewrite Z.pow_mul_r by lia; reflexivity).
    replace (a + 16 ^ Z.of_nat (String.length ds) * d + w)
      with (a + (d * 16 ^ Z.of_nat (String.length ds) + w)) by ring.
    replace (c + 1 + Z.of_nat (String.length ds))
      with (c + Z.succ (Z.of_nat (String.length ds))) by lia.
    reflexivity.
Qed.

Lemma escape_step_literal n l c lr b e k (u : ascii) ds tl v :
  (u = "u"%char /\ String.length ds = 4%nat)
  \/ (u = "U"%char /\ String.length ds = 8%nat) ->
  hexValue ds = Some v -> invalidScalar v ->
  parseLiteral_loop (S n)
    (mkReader l c (bufio.mk (String "\" (String u (ds ++ tl))) lr) b e k)
  = parseLiteral_loop n
      (mkReader l (c + 1 + 1 + Z.of_nat (String.length ds))
                (bufio.mk tl (lastOf (Some (String u EmptyString)) ds))
                (b ++ replacement) e k).
Proof.
  intros Hu Hv Hi.
  pose proof (hexValue_range _ _ Hv) as Hr.
  assert (Hb : 0 <= v < 2 ^ 32)
    by (destruct Hu as [[_ Hl]|[_ Hl]]; rewrite Hl in Hr; simpl in Hr; lia).
  cbn [parseLiteral_loop]. unfold bind at 1. unfold lift at 1.
  rewrite readRune_ascii by reflexivity.
  cbn -[Z.add readCodepoint parseLiteral_loop wrap32 replacement].
  assert (Hu' : (byteZ u <? utf8.RuneSelf) = true
                /\ (byteZ u =? ch "013") = false)
    by (destruct Hu as [[-> _]|[-> _]]; split; reflexivity).
  rewrite readRune_ascii by apply Hu'.
  assert (Hs : escapeSize (byteZ u) = String.length ds)
    by (destruct Hu as [[-> ->]|[-> ->]]; reflexivity).
  replace ((byteZ u =? 92) || (byteZ u =? 34)) with false
    by (destruct Hu as [[-> _]|[-> _]]; reflexivity).
  replace (byteZ u =? 116) with false
    by (destruct Hu as [[-> _]|[-> _]]; reflexivity).
  replace (byteZ u =? 114) with false
    by (destruct Hu as [[-> _]|[-> _]]; reflexivity).
  replace (byteZ u =? 110) with false
    by (destruct Hu as [[-> _]|[-> _]]; reflexivity).
  replace (byteZ u =? 98) with false
    by (destruct Hu as [[-> _]|[-> _]]; reflexivity).
  replace (byteZ u =? 102) with false
    by (destruct Hu as [[-> _]|[-> _]]; reflexivity).
  replace ((byteZ u =? 117) || (byteZ u =? 85)) with true
    by (destruct Hu as [[-> _]|[-> _]]; reflexivity).
  rewrite Hs. change 0 with (wrap32 0) at 1.
  unfold bind at 1. rewrite (readCodepoint_hex ds 0 _ _ _ _ _ _ tl v Hv).
  unfold bind, WriteRune, modify, with_buf; cbn -[Z.add wrap32 replacement parseLiteral_loop].
  rewrite ?Z.add_0_l. now rewrite (EncodeRune_invalid v Hb Hi).
Qed.

Lemma escape_step_IRI n l c lr b e k (u : ascii) ds tl v :
  (u = "u"%char /\ String.length ds = 4%nat)
  \/ (u = "U"%char /\ String.length ds = 8%nat) ->
  hexValue ds = Some v -> invalidScalar v ->
  parseIRI_loop (S n)
    (mkReader l c (bufio.mk (String "\" (String u (ds ++ tl))) lr) b e k)
  = parseIRI_loop n
      (mkReader l (c + 1 + 1 + Z.of_nat (String.length ds))
                (bufio.mk tl (lastOf (Some (String u EmptyString)) ds))
                (b ++ replacement) e k).
Proof.
  intros Hu Hv Hi.
  pose proof (hexValue_range _ _ Hv) as Hr.
  assert (Hb : 0 <= v < 2 ^ 32)
    by (destruct Hu as [[_ Hl]|[_ Hl]]; rewrite Hl in Hr; simpl in Hr; lia).
  cbn [parseIRI_loop]. unfold bind at 1. unfold lift at 1.
  rewrite readRune_ascii by reflexivity.
  cbn -[Z.add readCodepoint parseIRI_loop wrap32 replacement].
  assert (Hu' : (byteZ u <? utf8.RuneSelf) = true
                /\ (byteZ u =? ch "013") = false)
    by (destruct Hu as [[-> _]|[-> _]]; split; reflexivity).
  rewrite readRune_ascii by apply Hu'.
  assert (Hs : escapeSize (byteZ u) = String.length ds)
    by (destruct Hu as [[-> ->]|[-> ->]]; reflexivity).
  replace ((byteZ u =? 117) || (byteZ u =? 85)) with true
    by (destruct Hu as [[-> _]|[-> _]]; reflexivity).
  rewrite Hs. change 0 with (wrap32 0) at 1.
  unfold bind at 1. rewrite (readCodepoint_hex ds 0 _ _ _ _ _ _ tl v Hv).
  unfold bind, WriteRune, modify, with_buf;
    cbn -[Z.add wrap32 replacement parseIRI_loop].
  rewrite ?Z.add_0_l. now rewrite (EncodeRune_invalid v Hb Hi).
Qed.

(** C9.  A numeric escape [\u] with four or [\U] with eight hexadecimal
    digits whose value is not a Unicode scalar value (above U+10FFFF, or a
    surrogate) is no error, in a literal and in an IRI alike: the lexer
    goes on behind the escape exactly as if it had read U+FFFD, whose three
    bytes it has appended to the value being collected.  So [\UFFFFFFFF] and
    [\uD800] in a literal, and [\U00110000] in an IRI, end up as U+FFFD in
    the term, and [Next] succeeds. *)
Theorem invalid_escape_becomes_replacement
        n l c lr b e k (u : ascii) (ds tl : string) (v : Z) :
  (u = "u"%char /\ String.length ds = 4%nat)
  \/ (u = "U"%char /\ String.length ds = 8%nat) ->
  hexValue ds = Some v -> invalidScalar v ->
  parseLiteral_loop (S n)
    (mkReader l c (bufio.mk (String "\" (String u (ds ++ tl))) lr) b e k)
  = parseLiteral_loop n
      (mkReader l (c + 1 + 1 + Z.of_nat (String.length ds))
                (bufio.mk tl (lastOf (Some (String u EmptyString)) ds))
                (b ++ replacement) e k)
  /\ parseIRI_loop (S n)
       (mkReader l c (bufio.mk (String "\" (String u (ds ++ tl))) lr) b e k)
     = parseIRI_loop n
         (mkReader l (c + 1 + 1 + Z.of_nat (String.length ds))
                   (bufio.mk tl (lastOf (Some (String u EmptyString)) ds))
                   (b ++ replacement) e k)
  /\ session 1 ("<x:s> <x:p> " ++ dq ++ "\UFFFFFFFF" ++ dq ++ " .")
     = Some [(true,
              Quad.mk (rdf.IRI "x:s") (rdf.IRI "x:p") (rdf.Literal replacement)
                      rdf.zero,
              None)]
  /\ session 1 ("<x:s> <x:p> " ++ dq ++ "a\uD800b" ++ dq ++ " .")
     = Some [(true,
              Quad.mk (rdf.IRI "x:s") (rdf.IRI "x:p")
                      (rdf.Literal ("a" ++ replacement ++ "b")) rdf.zero,
              None)]
  /\ session 1 "<x:s> <x:p> <x:\U00110000> ."
     = Some [(true,
              Quad.mk (rdf.IRI "x:s") (rdf.IRI "x:p")
                      (rdf.IRI ("x:" ++ replacement)) rdf.zero,
              None)].
Proof.
  intros Hu Hv Hi.
  split; [apply escape_step_literal with (v := v); assumption|].
  split; [apply escape_step_IRI with (v := v); assumption|].
  repeat split; vm_compute; reflexivity.
Qed.

Lemma invalid_escape_becomes_replacement_witness :
  hexValue "FFFFFFFF" = Some 0xFFFFFFFF
  /\ invalidScalar 0xFFFFFFFF
  /\ parseLiteral_loop 3
       (mkReader 1 12 (bufio.mk ("\UFFFFFFFF" ++ dq ++ " .") (Some dq))
                 EmptyString None Quad.zero)
     = parseLiteral_loop 2
         (mkReader 1 22 (bufio.mk (dq ++ " .") (Some "F")) replacement None
                   Quad.zero).
Proof.
  split; [reflexivity|]. split; [left; reflexivity|].
  exact (proj1 (invalid_escape_becomes_replacement
                  2 1 12 (Some dq) EmptyString None Quad.zero
                  "U" "FFFFFFFF" (dq ++ " .") 0xFFFFFFFF
                  (or_intror (conj eq_refl eq_refl)) eq_refl
                  (or_introl eq_refl))).
Defined.

(** * Further properties *)

(** ** Partial correctness *)

Lemma pc_of_wp {A : Type} (m : M A) (Q : A -> Reader -> Prop) rd :
  wp m Q rd -> pc m Q rd.
Proof. intros H a rd' E. exact (wp_elim _ _ _ _ _ H E). Qed.

Lemma pc_conj {A : Type} (m : M A) (P Q : A -> Reader -> Prop) rd :
  pc m P rd -> pc m Q rd -> pc m (fun a rd' => P a rd' /\ Q a rd') rd.
Proof. intros HP HQ a rd' E; split; auto. Qed.

Lemma pc_mono {A : Type} (m : M A) (P Q : A -> Reader -> Prop) rd :
  pc m P rd -> (forall a rd', P a rd' -> Q a rd') -> pc m Q rd.
Proof. intros HP H a rd' E; auto. Qed.

Lemma pc_ret {A : Type} (a : A) (Q : A -> Reader -> Prop) rd :
  Q a rd -> pc (ret a) Q rd.
Proof. intros H a' rd' [= <- <-]; exact H. Qed.

Lemma pc_bind {A B : Type} (m : M A) (k : A -> M B) (P : A -> Reader -> Prop)
      (Q : B -> Reader -> Prop) rd :
  pc m P rd -> (forall a rd', P a rd' -> pc (k a) Q rd') -> pc (bind m k) Q rd.
Proof.
  intros HP Hk b rd2 E. unfold bind in E.
  destruct (m rd) as [[a rd1]|] eqn:Em; [|discriminate].
  exact (Hk a rd1 (HP a rd1 Em) b rd2 E).
Qed.

Lemma pc_gets {A B : Type} (f : Reader -> A) (k : A -> M B) Q rd :
  pc (k (f rd)) Q rd -> pc (bind (gets f) k) Q rd.
Proof. auto. Qed.

Lemma pc_modify {B : Type} (f : Reader -> Reader) (k : unit -> M B) Q rd :
  pc (k tt) Q (f rd) -> pc (bind (modify f) k) Q rd.
Proof. auto. Qed.

Lemma pc_with_fuel {A : Type} (f : nat -> M A) Q rd :
  pc (f (fuel_of rd)) Q rd -> pc (with_fuel f) Q rd.
Proof. auto. Qed.

Lemma pc_no_result {A : Type} (Q : A -> Reader -> Prop) rd :
  pc no_result Q rd.
Proof. intros a rd' [=]. Qed.

Lemma pc_readRune {B : Type} (k : rune * option error -> M B) Q rd :
  (forall c e rd', readRune_post rd c e rd' -> pc (k (c, e)) Q rd') ->
  pc (bind (lift readRune) k) Q rd.
Proof.
  intros H b rd2. unfold bind, lift.
  pose proof (readRune_spec rd) as Hs.
  destruct (readRune rd) as [[c e] rd']. exact (H _ _ _ Hs b rd2).
Qed.

Lemma pc_unreadRune {B : Type} (k : option error -> M B) Q rd c rd1 :
  readRune_post rd c None rd1 ->
  (forall e rd2,
      line rd2 = line rd1 -> buf rd2 = buf rd1 ->
      (c <> ch "013" -> e = None) ->
      pc (k e) Q rd2) ->
  pc (bind (lift unreadRune) k) Q rd1.
Proof.
  intros (_ & _ & _ & _ & Hlast) H b rd3. unfold bind, lift.
  unfold unreadRune, bufio.UnreadRune.
  destruct (bufio.lastRune (r rd1)) as [bs|] eqn:El; simpl.
  - apply H; auto.
  - apply H; auto. intros Hc; elim (Hlast Hc); reflexivity.
Qed.

Lemma pc_Peek2 {B : Type} (k : string * option error -> M B) Q rd :
  (forall next e,
      pc (k (next, e)) Q (with_r (bufio.mk (bufio.rest (r rd)) None) rd)) ->
  pc (bind (lift (fun rd =>
              let '(res, b) := bufio.Peek 2 (r rd) in (res, with_r b rd))) k)
     Q rd.
Proof.
  intros H b rd2. unfold bind, lift, bufio.Peek.
  destruct (String.length (bufio.rest (r rd)) <? 2)%nat; simpl; apply H.
Qed.

Ltac pc_prim :=
  unfold fail, eofErr, wrap, WriteRune, Reset, buf_String, buf_empty, stop,
    set_S, set_P, set_O, set_G;
  match goal with
  | |- pc (bind (gets _) _) _ _ => apply pc_gets
  | |- pc (bind (modify _) _) _ _ => apply pc_modify
  | |- pc (ret _) _ _ => apply pc_ret
  | |- pc (with_fuel _) _ _ => apply pc_with_fuel
  | |- pc no_result _ _ => apply pc_no_result
  | |- pc (bind (lift readRune) _) _ _ => apply pc_readRune; intros ? ? ? ?
  end;
  cbv beta.

Ltac pc_branch :=
  match goal with
  | |- pc (if ?b then _ else _) _ _ => destruct b eqn:?
  | |- pc (match ?e with _ => _ end) _ _ => destruct e eqn:?
  end.

Ltac pc_run := repeat first [ pc_prim | pc_branch ].

Ltac pc_call spec :=
  eapply pc_bind; [apply spec|]; cbv beta;
  let res := fresh "res" in
  let rd1 := fresh "rd" in
  let Hp := fresh "Hp" in
  intros res rd1 Hp.

(** ** The shape of lexed terms and of lexer errors *)

Lemma readRune_frame rd :
  buf (snd (readRune rd)) = buf rd /\ line (snd (readRune rd)) = line rd.
Proof.
  unfold readRune.
  destruct (bufio.ReadRune (r rd)) as [[[c sz] e] b].
  destruct (c =? ch "013"); [|split; reflexivity].
  destruct (bufio.ReadRune b) as [[[c' sz'] e'] b'].
  destruct e'; [split; reflexivity|].
  destruct (negb (c' =? ch "010")); [|split; reflexivity].
  destruct (bufio.UnreadRune b') as [[e''|] b'']; split; reflexivity.
Qed.

Lemma pc_readRune_frame {B : Type} (k : rune * option error -> M B) Q rd :
  (forall c e rd',
      readRune_post rd c e rd' -> buf rd' = buf rd -> line rd' = line rd ->
      pc (k (c, e)) Q rd') ->
  pc (bind (lift readRune) k) Q rd.
Proof.
  intros H b rd2. unfold bind, lift.
  pose proof (readRune_spec rd) as Hs.
  pose proof (readRune_frame rd) as (Hb & Hl).
  destruct (readRune rd) as [[c e] rd']. exact (H _ _ _ Hs Hb Hl b rd2).
Qed.

Lemma EncodeRune_nonempty (c : rune) : utf8.EncodeRune c <> EmptyString.
Proof.
  unfold utf8.EncodeRune.
  repeat match goal with
         | |- context [if ?b then _ else _] => destruct b
         end; discriminate.
Qed.

Lemma append_nonempty_l (s t : string) :
  s <> EmptyString -> (s ++ t)%string <> EmptyString.
Proof. destruct s; [congruence | discriminate]. Qed.

Lemma append_nonempty_r (s t : string) :
  t <> EmptyString -> (s ++ t)%string <> EmptyString.
Proof. destruct s; [auto | discriminate]. Qed.

Lemma length_nonempty (s : string) :
  (String.length s =? 0)%nat = false -> s <> EmptyString.
Proof. destruct s; [discriminate | discriminate]. Qed.

#[local] Hint Resolve EncodeRune_nonempty append_nonempty_l append_nonempty_r
  length_nonempty : lexer.

Ltac pc_prim' :=
  unfold fail, eofErr, wrap, WriteRune, Reset, buf_String, buf_empty, stop,
    set_S, set_P, set_O, set_G;
  match goal with
  | |- pc (bind (gets _) _) _ _ => apply pc_gets
  | |- pc (bind (modify _) _) _ _ => apply pc_modify
  | |- pc (ret _) _ _ => apply pc_ret
  | |- pc (with_fuel _) _ _ => apply pc_with_fuel
  | |- pc no_result _ _ => apply pc_no_result
  | |- pc (bind (lift readRune) _) _ _ =>
    apply pc_readRune_frame; intros ? ? ? ? ? ?
  end;
  cbv beta.

Ltac pc_run' := repeat first [ pc_prim' | pc_branch ].

(** Closes the leaves: a term of the right shape, or an error that is
    [io.EOF] or was made by [wrap] on the spot. *)
Ltac shape_leaf :=
  first [ congruence
        | left; reflexivity
        | right; eexists; split; [reflexivity | auto 10]
        | solve [auto 10 with lexer] ].

Ltac shape_solve :=
  unfold shape_post, positioned, kind, isIRI, isBlank, isLiteral in *;
  simpl in *;
  repeat match goal with
         | H : readRune_post _ _ (Some _) _ |- _ =>
           destruct H as (_ & _ & H & _); try discriminate H
         | H : _ /\ _ |- _ => destruct H
         end;
  subst; repeat split; shape_leaf.

Lemma readCodepoint_shape (n : nat) :
  forall rd cp,
    pc (readCodepoint n cp)
       (fun res rd' =>
          buf rd' = buf rd /\
          match snd res with
          | None => True
          | Some e => positioned e rd'
          end) rd.
Proof.
  induction n as [|n IH]; intros rd cp; simpl.
  - apply pc_ret; simpl; auto.
  - pc_run'; try solve [shape_solve];
      (refine (pc_mono _ _ _ _ (IH _ _) _); simpl in *;
       intros ? ? (-> & ?); split; [congruence | assumption]).
Qed.

Lemma parseIRI_loop_shape (n : nat) :
  forall rd, pc (parseIRI_loop n) (shape_post isIRI) rd.
Proof.
  induction n as [|n IH]; intros rd; simpl; [apply pc_no_result|].
  pc_run'; try solve [shape_solve]; try apply IH.
  pc_call readCodepoint_shape. destruct res as [cp [e'|]];
    pc_run'; try solve [shape_solve]; apply IH.
Qed.

Lemma parseBlankNode_loop_shape (n : nat) :
  forall rd, buf rd <> EmptyString ->
    pc (parseBlankNode_loop n) (shape_post isBlank) rd.
Proof.
  induction n as [|n IH]; intros rd Hb; simpl; [apply pc_no_result|].
  pc_run'; try solve [shape_solve].
  - apply IH; simpl. apply append_nonempty_l; congruence.
  - match goal with
    | Hr : readRune_post rd _ None _, Hc : (_ =? ch ".") = true |- _ =>
      eapply pc_unreadRune; [exact Hr|];
      intros e2 rd2 Hl2 Hb2 Hnone;
      specialize (Hnone (period_not_CR _ Hc)); subst e2
    end.
    apply pc_Peek2; intros next e3.
    pc_run'; try solve [shape_solve];
      apply IH; simpl in *; apply append_nonempty_l; congruence.
Qed.

Lemma parseBlankNode_shape rd : pc parseBlankNode (shape_post isBlank) rd.
Proof.
  unfold parseBlankNode. pc_run'; try solve [shape_solve].
  apply parseBlankNode_loop_shape; simpl. auto with lexer.
Qed.

Lemma byteZ_Zbyte (z : Z) : 0 <= z < 256 -> byteZ (Zbyte z) = z.
Proof.
  intros H. unfold byteZ, Zbyte. rewrite N_ascii_embedding.
  - rewrite Z2N.id; [apply Z.mod_small; lia | apply Z.mod_pos_bound; lia].
  - rewrite Z.mod_small by lia. lia.
Qed.

Lemma byteZ_range (x : ascii) : 0 <= byteZ x < 256.
Proof.
  unfold byteZ. pose proof (N_ascii_bounded x). lia.
Qed.

Lemma EncodeRune_1 c : 0 <= c <= 0x7F -> utf8.EncodeRune c = String (Zbyte c) EmptyString.
Proof.
  intros H. unfold utf8.EncodeRune, uint32. rewrite Z.mod_small by lia.
  destruct (Z.leb_spec c 0x7F); [reflexivity | lia].
Qed.

Lemma EncodeRune_low (c : rune) :
  0 <= c < 128 ->
  utf8.EncodeRune c = String (Zbyte c) EmptyString /\ byteZ (Zbyte c) = c.
Proof.
  intros H. split; [apply EncodeRune_1; lia | apply byteZ_Zbyte; lia].
Qed.

Lemma isAlpha_low c : isAlpha c = true -> 0 <= c < 128.
Proof.
  unfold isAlpha. change (ch "A") with 65; change (ch "Z") with 90;
    change (ch "a") with 97; change (ch "z") with 122. lia.
Qed.

Lemma isNumeral_low c : isNumeral c = true -> 0 <= c < 128.
Proof.
  unfold isNumeral. change (ch "0") with 48; change (ch "9") with 57. lia.
Qed.

Lemma langRun_app (b : string) (x : ascii) :
  forall m,
    langRun m (b ++ String x EmptyString)
    = match langRun m b with
      | Some m' => langStep m' x
      | None => None
      end.
Proof.
  induction b as [|y b IH]; intros m; cbn [append langRun].
  - now destruct (langStep m x).
  - destruct (langStep m y); [apply IH | reflexivity].
Qed.

Lemma langRun_langMinor (s : string) :
  langRun false s <> None -> langMinor s = true.
Proof.
  induction s as [|x s IH]; cbn [langRun langMinor langStep]; [reflexivity|].
  destruct (isAlpha (byteZ x) || isNumeral (byteZ x)); [exact IH | congruence].
Qed.

Lemma langRun_langMajor (s : string) :
  langRun true s <> None -> langMajor s = true.
Proof.
  induction s as [|x s IH]; cbn [langRun langMajor langStep]; [reflexivity|].
  destruct (isAlpha (byteZ x)); [exact IH|].
  destruct (byteZ x =? ch "-"); [apply langRun_langMinor | congruence].
Qed.

Lemma all_bytes_app (p : ascii -> bool) (b : string) (x : ascii) :
  all_bytes p (b ++ String x EmptyString) = all_bytes p b && p x.
Proof.
  induction b as [|y b IH]; cbn [append all_bytes].
  - now rewrite andb_true_r.
  - now rewrite IH, andb_assoc.
Qed.

Lemma parseLiteral_language_shape (n : nat) :
  forall rd value major,
    langRun true (buf rd) = Some major ->
    pc (parseLiteral_language n value major) (shape_post isLiteral) rd.
Proof.
  induction n as [|n IH]; intros rd value major Hinv; simpl;
    [apply pc_no_result|].
  pc_run'; try solve [shape_solve].
  - match goal with
    | Hr : readRune_post rd ?c None _ |- _ =>
      eapply pc_unreadRune; [exact Hr|]; intros e2 rd2 Hl2 Hb2 Hnone;
      assert (Hc : c <> ch "013")
        by (intros ->; discriminate)
    end.
    specialize (Hnone Hc); subst e2. pc_run'.
    unfold shape_post, isLiteral; simpl. repeat split; auto.
    rewrite Hb2. apply langRun_langMajor.
    match goal with H : buf _ = buf rd |- _ => rewrite H end. congruence.
  - apply IH; simpl.
    match goal with
    | H : buf _ = buf rd, Ha : isAlpha ?c = true |- _ =>
      rewrite H; destruct (EncodeRune_low c (isAlpha_low c Ha)) as [-> Hz];
      rewrite langRun_app, Hinv; unfold langStep; rewrite Hz, Ha; reflexivity
    end.
  - apply IH; simpl.
    match goal with
    | H : buf _ = buf rd, Ha : isAlpha ?c = false, Hm : (?c =? ch "-") = true |- _ =>
      rewrite H; apply Z.eqb_eq in Hm; subst c;
      change (utf8.EncodeRune (ch "-")) with (String "-" EmptyString);
      rewrite langRun_app, Hinv; reflexivity
    end.
  - apply IH; simpl.
    match goal with
    | H : buf _ = buf rd, Ha : isAlpha ?c || isNumeral ?c = true |- _ =>
      rewrite H;
      assert (Hlow : 0 <= c < 128)
        by (apply orb_true_iff in Ha as [Ha|Ha];
            [now apply isAlpha_low | now apply isNumeral_low]);
      destruct (EncodeRune_low c Hlow) as [-> Hz];
      rewrite langRun_app, Hinv; unfold langStep; rewrite Hz, Ha; reflexivity
    end.
Qed.

Lemma parseLiteral_datatype_shape (n : nat) :
  forall rd value,
    all_bytes dtPlain (buf rd) = true ->
    pc (parseLiteral_datatype n value) (shape_post isLiteral) rd.
Proof.
  induction n as [|n IH]; intros rd value Hinv; simpl; [apply pc_no_result|].
  pc_run'; try solve [shape_solve].
  apply IH; simpl.
  match goal with
  | H : buf _ = buf rd, Hg : (?c =? ch ">") = false,
    Hp : _ || _ = false |- _ =>
    rewrite H;
    assert (Hlow : 0 <= c < 128) by (change (ch " ") with 32 in Hp; lia);
    destruct (EncodeRune_low c Hlow) as [-> Hz];
    rewrite all_bytes_app, Hinv; unfold dtPlain; rewrite Hz, Hg, Hp;
    reflexivity
  end.
Qed.

Lemma parseLiteral_suffix_shape rd :
  pc parseLiteral_suffix (shape_post isLiteral) rd.
Proof.
  unfold parseLiteral_suffix.
  pc_run'; try solve [shape_solve].
  - match goal with
    | Hr : readRune_post rd ?c None _ |- _ =>
      eapply pc_unreadRune; [exact Hr|]; intros e2 rd2 Hl2 Hb2 Hnone;
      assert (Hc : c <> ch "013")
        by (intros ->; discriminate)
    end.
    specialize (Hnone Hc); subst e2. pc_run'; shape_solve.
  - apply parseLiteral_language_shape. reflexivity.
  - apply parseLiteral_datatype_shape.
    repeat match goal with H : buf _ = _ |- _ => rewrite H; clear H end.
    reflexivity.
Qed.

Lemma parseLiteral_loop_shape (n : nat) :
  forall rd, pc (parseLiteral_loop n) (shape_post isLiteral) rd.
Proof.
  induction n as [|n IH]; intros rd; simpl; [apply pc_no_result|].
  pc_run'; try solve [shape_solve]; try apply IH.
  - apply parseLiteral_suffix_shape.
  - pc_call readCodepoint_shape. destruct res as [cp [e'|]];
      pc_run'; try solve [shape_solve]; apply IH.
Qed.

Lemma skip_error_EOF rd res rd' :
  skip_post rd res rd' -> forall e, snd res = Some e -> e = EOF.
Proof. intros (_ & H) e He; rewrite He in H; tauto. Qed.

Lemma parseIriOrBlankNode_shape rd :
  pc parseIriOrBlankNode (framed (fun t => isIRI t \/ isBlank t) rd) rd.
Proof.
  apply pc_conj.
  - refine (pc_mono _ _ _ _ (pc_of_wp _ _ _ (parseIriOrBlankNode_spec rd)) _).
    intros a rd' H; exact (proj1 H).
  - unfold parseIriOrBlankNode. pc_run'.
    pc_call (pc_of_wp _ _ _ (skipWhitespace_spec (with_buf EmptyString rd))).
    destruct res as [c [e|]].
    + pose proof (skip_error_EOF _ _ _ Hp e eq_refl) as ->.
      pc_run'; shape_solve.
    + pc_run'; try solve [shape_solve].
      * refine (pc_mono _ _ _ _ (pc_with_fuel _ _ _ (parseIRI_loop_shape _ _)) _).
        intros [t [e|]] rd'; unfold shape_post; simpl; auto.
      * refine (pc_mono _ _ _ _ (parseBlankNode_shape _) _).
        intros [t [e|]] rd'; unfold shape_post; simpl; auto.
Qed.

Lemma parseAnyTerm_shape rd :
  pc parseAnyTerm
     (framed (fun t => isIRI t \/ isBlank t \/ isLiteral t) rd) rd.
Proof.
  apply pc_conj.
  - refine (pc_mono _ _ _ _ (pc_of_wp _ _ _ (parseAnyTerm_spec rd)) _).
    intros a rd' H; exact (proj1 H).
  - unfold parseAnyTerm. pc_run'.
    pc_call (pc_of_wp _ _ _ (skipWhitespace_spec (with_buf EmptyString rd))).
    destruct res as [c [e|]].
    + pose proof (skip_error_EOF _ _ _ Hp e eq_refl) as ->.
      pc_run'; shape_solve.
    + pc_run'; try solve [shape_solve].
      * refine (pc_mono _ _ _ _ (pc_with_fuel _ _ _ (parseIRI_loop_shape _ _)) _).
        intros [t [e|]] rd'; unfold shape_post; simpl; auto.
      * refine (pc_mono _ _ _ _ (parseBlankNode_shape _) _).
        intros [t [e|]] rd'; unfold shape_post; simpl; auto.
      * refine (pc_mono _ _ _ _ (pc_with_fuel _ _ _ (parseLiteral_loop_shape _ _)) _).
        intros [t [e|]] rd'; unfold shape_post; simpl; auto.
Qed.

Lemma parseIriOrBlankNodeOrEndTriple_shape rd :
  pc parseIriOrBlankNodeOrEndTriple
     (fun res rd' =>
        keeps rd rd' /\
        match res with
        | (fin, t, None) =>
          (fin = true /\ t = rdf.zero) \/ (fin = false /\ (isIRI t \/ isBlank t))
        | (_, _, Some e) => positioned e rd'
        end) rd.
Proof.
  apply pc_conj.
  - refine (pc_mono _ _ _ _
              (pc_of_wp _ _ _ (parseIriOrBlankNodeOrEndTriple_spec rd)) _).
    intros a rd' H; exact (proj1 H).
  - unfold parseIriOrBlankNodeOrEndTriple. pc_run'.
    pc_call (pc_of_wp _ _ _ (skipWhitespace_spec (with_buf EmptyString rd))).
    destruct res as [c [e|]].
    + pose proof (skip_error_EOF _ _ _ Hp e eq_refl) as ->.
      pc_run'; shape_solve.
    + pc_run'; try solve [shape_solve].
      * eapply pc_bind;
          [exact (pc_with_fuel _ _ _ (parseIRI_loop_shape _ _))|].
        intros [t [e|]] rd'; unfold shape_post; simpl; intros H;
          apply pc_ret; auto.
      * eapply pc_bind; [exact (parseBlankNode_shape _)|].
        intros [t [e|]] rd'; unfold shape_post; simpl; intros H;
          apply pc_ret; auto.
Qed.

Lemma readEndQuad_shape rd : pc readEndQuad (end_post rd) rd.
Proof.
  apply pc_conj; [exact (pc_of_wp _ _ _ (readEndQuad_spec rd))|].
  unfold readEndQuad.
  pc_call (pc_of_wp _ _ _ (skipWhitespace_spec rd)).
  destruct res as [c [e|]].
  - pose proof (skip_error_EOF _ _ _ Hp e eq_refl) as ->.
    pc_run'; shape_solve.
  - pc_run'; shape_solve.
Qed.

Lemma expectCommentOrEndOfLine_shape rd :
  pc expectCommentOrEndOfLine (end_post rd) rd.
Proof.
  apply pc_conj; [exact (pc_of_wp _ _ _ (expectCommentOrEndOfLine_spec rd))|].
  unfold expectCommentOrEndOfLine.
  pc_call (pc_of_wp _ _ _ (skipWhitespace_spec rd)).
  destruct res as [c [e|]].
  - pose proof (skip_error_EOF _ _ _ Hp e eq_refl) as ->.
    pc_run'; shape_solve.
  - pc_run'; try solve [shape_solve].
    pc_call (pc_of_wp _ _ _ (skipRestOfLine_spec rd0)).
    destruct res as [c' [e|]].
    + pose proof (skip_error_EOF _ _ _ Hp0 e eq_refl) as ->.
      pc_run'; shape_solve.
    + pc_run'; shape_solve.
Qed.

(** ** The outcome of a parse attempt *)

Lemma accept_resource t :
  isIRI t \/ isBlank t -> relativeIRI t = false -> resource t.
Proof.
  unfold resource, relativeIRI. intros [Hi|Hb] Hr; [left|right; exact Hb].
  split; [exact Hi|]. destruct Hi as (Hk & _). rewrite Hk in Hr; simpl in Hr.
  now destruct (isAbsoluteIRI (rdf.Value t)).
Qed.

Lemma accept_object t :
  isIRI t \/ isBlank t \/ isLiteral t ->
  relativeIRI t = false -> relativeDatatype t = false -> object t.
Proof.
  unfold object. intros [Hi|[Hb|Hl]] Hr Hd.
  - left; apply accept_resource; auto.
  - left; apply accept_resource; auto.
  - right; split; [exact Hl|]. intros Hne. unfold relativeDatatype in Hd.
    destruct Hl as (Hk & _). rewrite Hk in Hd; simpl in Hd.
    destruct (rdf.Datatype t) as [|a s]; [congruence|]. simpl in Hd.
    now destruct (isAbsoluteIRI (String a s)).
Qed.

Lemma positioned_with_err e x rd : positioned e rd -> positioned e (with_err x rd).
Proof. auto. Qed.

Lemma Next_finish_outcome rd :
  quad_ok (q rd) -> pc Next_finish Next_outcome rd.
Proof.
  intros Hq. unfold Next_finish.
  pc_call expectCommentOrEndOfLine_shape. destruct Hp as ((Hq' & _) & He).
  apply pc_modify, pc_ret. unfold Next_outcome; simpl. rewrite Hq'.
  destruct res as [e|]; split; try discriminate; auto.
  intros _ e0 [= <-]. right; exact He.
Qed.

Lemma Next_graph_outcome rd s p o :
  q rd = Quad.mk s p o rdf.zero -> resource s -> resource p -> object o ->
  pc Next_graph Next_outcome rd.
Proof.
  intros Hq Hs Hp Ho. unfold Next_graph.
  pc_call parseIriOrBlankNodeOrEndTriple_shape.
  destruct res as [[fin term] [e|]]; destruct Hp0 as ((Hq' & _) & Hres).
  - pc_run'. unfold Next_outcome; simpl; split; [discriminate|].
    intros _ e0 [= <-]. right; exact Hres.
  - destruct Hres as [(-> & ->)|(-> & Ht)].
    + apply Next_finish_outcome. rewrite Hq', Hq.
      repeat split; simpl; auto. now left.
    + pc_run'. pc_call readEndQuad_shape.
      destruct Hp0 as ((Hq2 & _) & He); simpl in Hq2.
      destruct res as [e|].
      * pc_run'. unfold Next_outcome; simpl; split; [discriminate|].
        intros _ e0 [= <-]. right; exact He.
      * apply Next_finish_outcome. rewrite Hq2, Hq', Hq.
        repeat split; simpl; auto. now right.
Qed.

Lemma Next_object_outcome rd s p :
  q rd = Quad.mk s p rdf.zero rdf.zero -> resource s -> resource p ->
  pc Next_object Next_outcome rd.
Proof.
  intros Hq Hs Hp. unfold Next_object.
  pc_call parseAnyTerm_shape.
  destruct res as [term [e|]]; destruct Hp0 as ((Hq' & _) & Hres);
    unfold shape_post in Hres; simpl in Hres.
  - pc_run'. unfold Next_outcome; simpl; split; [discriminate|].
    intros _ e0 [= <-]. right; exact Hres.
  - pc_run'.
    + unfold Next_outcome; simpl; split; [discriminate|].
      intros _ e0 [= <-]. right; right; eexists; split; [reflexivity|].
      unfold kind; auto 10.
    + unfold Next_outcome; simpl; split; [discriminate|].
      intros _ e0 [= <-]. right; right; eexists; split; [reflexivity|].
      unfold kind; auto 10.
    + apply Next_graph_outcome with (s := s) (p := p) (o := term); simpl; auto.
      * now rewrite Hq', Hq.
      * now apply accept_object.
Qed.

Lemma Next_predicate_outcome rd s :
  q rd = Quad.mk s rdf.zero rdf.zero rdf.zero -> resource s ->
  pc Next_predicate Next_outcome rd.
Proof.
  intros Hq Hs. unfold Next_predicate.
  pc_call parseIriOrBlankNode_shape.
  destruct res as [term [e|]]; destruct Hp as ((Hq' & _) & Hres);
    unfold shape_post in Hres; simpl in Hres.
  - pc_run'. unfold Next_outcome; simpl; split; [discriminate|].
    intros _ e0 [= <-]. right; exact Hres.
  - pc_run'.
    + unfold Next_outcome; simpl; split; [discriminate|].
      intros _ e0 [= <-]. right; right; eexists; split; [reflexivity|].
      unfold kind; auto 10.
    + apply Next_object_outcome with (s := s) (p := term); simpl; auto.
      * now rewrite Hq', Hq.
      * now apply accept_resource.
Qed.

Lemma Next_subject_outcome rd :
  q rd = Quad.zero -> pc Next_subject Next_outcome rd.
Proof.
  intros Hq. unfold Next_subject.
  pc_call parseIriOrBlankNode_shape.
  destruct res as [term [e|]]; destruct Hp as ((Hq' & _) & Hres);
    unfold shape_post in Hres; simpl in Hres.
  - pc_run'. unfold Next_outcome; simpl; split; [discriminate|].
    intros _ e0 [= <-]. right; exact Hres.
  - pc_run'.
    + unfold Next_outcome; simpl; split; [discriminate|].
      intros _ e0 [= <-]. right; right; eexists; split; [reflexivity|].
      unfold kind; auto 10.
    + apply Next_predicate_outcome with (s := term); simpl; auto.
      * now rewrite Hq', Hq.
      * now apply accept_resource.
Qed.

Lemma Next_skip_keeps_err (n : nat) :
  forall rd c,
    pc (Next_skip n c)
       (fun s rd' =>
          q rd' = q rd /\ err rd' = err rd /\
          match s with inl b => b = false | inr _ => True end) rd.
Proof.
  induction n as [|n IH]; intros rd c; simpl.
  - destruct (c =? ch "010"); [apply pc_no_result | apply pc_ret; auto].
  - destruct (c =? ch "010"); [|apply pc_ret; auto].
    pc_call (pc_of_wp _ _ _ (skipWhitespace_spec rd)).
    destruct res as [c1 [e|]]; destruct Hp as ((Hq1 & He1 & _) & Hs).
    + simpl in Hs; destruct Hs as (-> & _). apply pc_ret; auto.
    + destruct (c1 =? ch "#").
      * pc_call (pc_of_wp _ _ _ (skipRestOfLine_spec rd0)).
        destruct res as [c2 [e|]]; destruct Hp as ((Hq2 & He2 & _) & Hs2).
        -- simpl in Hs2; destruct Hs2 as (-> & _).
           apply pc_ret; repeat split; congruence.
        -- refine (pc_mono _ _ _ _ (IH _ _) _).
           intros a rd' (? & ? & ?); repeat split; auto; congruence.
      * refine (pc_mono _ _ _ _ (IH _ _) _).
        intros a rd' (? & ? & ?); repeat split; auto; congruence.
Qed.

Lemma Next_attempt_outcome rd :
  err rd = None -> pc Next_attempt Next_outcome rd.
Proof.
  intros He. unfold Next_attempt. apply pc_modify.
  eapply pc_bind; [apply pc_with_fuel, Next_skip_keeps_err|].
  intros [b|c] rd1 (Hq & He1 & Hb); simpl in Hq, He1.
  - subst b. apply pc_ret. unfold Next_outcome; split; [discriminate|].
    intros _ e Hee. congruence.
  - intros b rd2. unfold bind, lift, bufio.UnreadRune.
    destruct (bufio.lastRune (r rd1)) as [bs|]; simpl.
    + apply Next_subject_outcome. exact Hq.
    + intros [= <- <-]. unfold Next_outcome; simpl. split; [discriminate|].
      intros _ e [= <-]. now left.
Qed.

(** X1.  Any number of calls of [Next], on any reader, produces its
    results: no input makes a loop of the lexers run on without consuming
    input, and the index expression [next[1]] of [parseBlankNode] is never
    evaluated on a slice shorter than two bytes. *)
Theorem calls_total (n : nat) :
  forall rd, exists l, calls n rd = Some l /\ List.length l = n.
Proof.
  induction n as [|n IH]; intros rd; simpl.
  - exists []; auto.
  - destruct (Next_total rd) as (b & rd' & ->).
    destruct (IH rd') as (l & -> & Hl).
    eexists; split; [reflexivity|]. simpl; now rewrite Hl.
Qed.

(** X2.  When [Next] returns true, no error is recorded and the quad is
    complete: subject and predicate are each an IRI that contains a colon
    or a blank node; the object is one of these or a literal, whose
    datatype, if it has one, contains a colon; the graph is absent, an IRI
    or a blank node.  IRIs and labels are not empty, and no literal has
    both a language and a datatype.  A language tag consists of letters,
    which a single hyphen with letters and digits may follow; a datatype
    IRI consists of printable ASCII characters other than the space, the
    angle brackets and the double quote. *)
Theorem Next_true_quad (rd rd' : Reader) :
  Next rd = Some (true, rd') ->
  Err rd = None /\ Err rd' = None /\ quad_ok (Quad rd').
Proof.
  unfold Err, Quad, Next. intros HN.
  destruct (err rd) as [e|] eqn:He; [discriminate|].
  destruct (Next_attempt_outcome rd He _ _ HN) as (Ht & _).
  destruct (Ht eq_refl); auto.
Qed.

Lemma Next_true_quad_witness :
  Next (NewReader "<x:s> <x:p> _:o .")
  = Some (true,
          mkReader 1 18 (bufio.mk EmptyString None) EmptyString None
                   (Quad.mk (rdf.IRI "x:s") (rdf.IRI "x:p") (rdf.Blank "o")
                            rdf.zero))
  /\ quad_ok (Quad.mk (rdf.IRI "x:s") (rdf.IRI "x:p") (rdf.Blank "o") rdf.zero).
Proof.
  split; [vm_compute; reflexivity|].
  apply (Next_true_quad
           (NewReader "<x:s> <x:p> _:o .")
           (mkReader 1 18 (bufio.mk EmptyString None) EmptyString None
                     (Quad.mk (rdf.IRI "x:s") (rdf.IRI "x:p") (rdf.Blank "o")
                              rdf.zero))).
  vm_compute; reflexivity.
Defined.



(** ** Runes of more than one byte *)

Lemma lor_ge_128 (a b : Z) : 128 <= a -> 0 <= b -> 128 <= Z.lor a b.
Proof.
  intros Ha Hb.
  assert (H0 : 0 <= Z.lor a b) by (apply Z.lor_nonneg; lia).
  assert (Hl : 7 <= Z.log2 (Z.lor a b)).
  { rewrite Z.log2_lor by lia.
    assert (Z.log2 128 <= Z.log2 a) by (apply Z.log2_le_mono; lia).
    change (Z.log2 128) with 7 in *. lia. }
  destruct (Z.eq_dec (Z.lor a b) 0) as [E|E]; [rewrite E in Hl; simpl in Hl; lia|].
  assert (Hs : 2 ^ Z.log2 (Z.lor a b) <= Z.lor a b)
    by (apply Z.log2_spec; lia).
  assert (2 ^ 7 <= 2 ^ Z.log2 (Z.lor a b)) by (apply Z.pow_le_mono_r; lia).
  lia.
Qed.

Lemma lor_ge_128_r (a b : Z) : 0 <= a -> 128 <= b -> 128 <= Z.lor a b.
Proof. intros; rewrite Z.lor_comm; now apply lor_ge_128. Qed.

Lemma land_mask (a n : Z) : 0 <= n -> Z.land a (Z.ones n) = a mod 2 ^ n.
Proof. apply Z.land_ones. Qed.

Lemma mask_nonneg (a m : Z) : 0 <= m -> 0 <= Z.land a m.
Proof. intros; apply Z.land_nonneg; now right. Qed.

Lemma shl_nonneg (a n : Z) : 0 <= a -> 0 <= Z.shiftl a n.
Proof. intros; now apply Z.shiftl_nonneg. Qed.

Lemma lor_nonneg2 (a b : Z) : 0 <= a -> 0 <= b -> 0 <= Z.lor a b.
Proof. intros; apply Z.lor_nonneg; auto. Qed.


Lemma DecodeRune_ge (p : string) : 128 <= fst (utf8.DecodeRune p).
Proof.
  unfold utf8.DecodeRune.
  destruct (map byteZ (list_ascii_of_string p)) as [|p0 ps];
    [cbn [fst]; unfold utf8.RuneError; lia|].
  unfold utf8.lead, utf8.cont.
  repeat match goal with
         | |- context [if ?b then _ else _] => destruct b eqn:?
         | |- context [match ?x with _ => _ end] => destruct x eqn:?
         end;
    cbn [fst]; unfold utf8.RuneError; try lia.
  all: repeat match goal with
         | H : Some _ = Some _ |- _ => injection H as <- <- <-
         | H : _ && _ = true |- _ => apply andb_prop in H; destruct H
         end.
  all: change 31 with (Z.ones 5); change 15 with (Z.ones 4);
    change 7 with (Z.ones 3); change 63 with (Z.ones 6);
    rewrite ?Z.land_ones by lia; rewrite ?Z.shiftl_mul_pow2 by lia;
    repeat match goal with
           | H : (_ <=? _) = true |- _ => apply Z.leb_le in H
           | H : (_ <=? _) = false |- _ => apply Z.leb_gt in H
           | H : (_ <? _) = false |- _ => apply Z.ltb_ge in H
           | H : (_ =? _) = true |- _ => apply Z.eqb_eq in H
           | H : (_ =? _) = false |- _ => apply Z.eqb_neq in H
           end.
  all: change (2 ^ 3) with 8; change (2 ^ 4) with 16; change (2 ^ 5) with 32;
    change (2 ^ 6) with 64; change (2 ^ 12) with 4096;
    change (2 ^ 18) with 262144.
  all: first
         [ apply lor_ge_128;
           [ Z.div_mod_to_equations; lia
           | repeat apply lor_nonneg2; Z.div_mod_to_equations; lia ]
         | apply lor_ge_128_r; [Z.div_mod_to_equations; lia|];
           apply lor_ge_128;
           [ Z.div_mod_to_equations; lia
           | repeat apply lor_nonneg2; Z.div_mod_to_equations; lia ] ].
Qed.

(** What [ReadRune] returns on an input that starts with the byte [x]:
    the byte itself if it is ASCII, and a rune outside ASCII otherwise;
    in both cases [UnreadRune] restores the input. *)
Lemma ReadRune_first (x : ascii) (tl : string) (lr : option string) :
  exists c sz b',
    bufio.ReadRune (bufio.mk (String x tl) lr) = ((c, sz, None), b')
    /\ bufio.UnreadRune b' = (None, bufio.mk (String x tl) None)
    /\ (byteZ x < 128 -> c = byteZ x /\ b' = bufio.mk tl (Some (String x EmptyString)))
    /\ (128 <= byteZ x -> 128 <= c).
Proof.
  unfold bufio.ReadRune; simpl.
  destruct (byteZ x <? utf8.RuneSelf) eqn:E.
  - eexists _, _, _; split; [reflexivity|]. apply Z.ltb_lt in E.
    unfold utf8.RuneSelf in E. repeat split; auto; lia.
  - pose proof (DecodeRune_ge (String x tl)) as Hge.
    destruct (utf8.DecodeRune (String x tl)) as [c sz]; simpl in Hge.
    eexists _, _, _; split; [reflexivity|]. apply Z.ltb_ge in E.
    unfold utf8.RuneSelf in E.
    split; [|split; [lia | auto]].
    unfold bufio.UnreadRune; simpl. now rewrite take_drop.
Qed.

Lemma readRune_lone_CR l c lr b e k (x : ascii) (tl : string) :
  byteZ x <> 10 ->
  readRune (mkReader l c (bufio.mk (String "013" (String x tl)) lr) b e k)
  = ((13, None), mkReader l (c + 1) (bufio.mk (String x tl) None) b e k).
Proof.
  intros Hn.
  destruct (ReadRune_first x tl (Some (bytes [13])))
    as (c1 & sz & b' & HR & HU & Hlo & Hhi).
  assert (Hc : (c1 =? ch "010") = false).
  { apply Z.eqb_neq. change (ch "010") with 10.
    destruct (Z.lt_ge_cases (byteZ x) 128) as [H|H];
      [destruct (Hlo H) as (-> & _); exact Hn | specialize (Hhi H); lia]. }
  destruct (ReadRune_first "013" (String x tl) lr)
    as (c0 & sz0 & b0 & HR0 & _ & Hlo0 & _).
  destruct Hlo0 as (-> & ->); [reflexivity|].
  unfold readRune.
  change (r (mkReader l c (bufio.mk (String "013" (String x tl)) lr) b e k))
    with (bufio.mk (String "013" (String x tl)) lr).
  rewrite HR0.
  change (byteZ "013" =? ch "013") with true. cbv iota.
  change (String "013" EmptyString) with (bytes [13]).
  rewrite HR, Hc; simpl. now rewrite HU.
Qed.

(** X4.  [unreadRune] undoes [readRune], input and column, for a rune that
    does not start with a carriage return.  After a folded CR LF it puts
    back the line feed only, and after a carriage return that stands
    alone it fails with [bufio.ErrInvalidUnreadRune] and changes nothing. *)
Theorem unreadRune_readRune l c lr b e k (x : ascii) (tl : string) :
  byteZ x <> 13 ->
  (exists c1 rd1,
      readRune (mkReader l c (bufio.mk (String x tl) lr) b e k) = ((c1, None), rd1)
      /\ unreadRune rd1
         = (None, mkReader l c (bufio.mk (String x tl) None) b e k))
  /\ (exists rd1,
         readRune (mkReader l c (bufio.mk (bytes [13; 10] ++ tl) lr) b e k)
         = ((10, None), rd1)
         /\ unreadRune rd1
            = (None, mkReader l c (bufio.mk (bytes [10] ++ tl) None) b e k))
  /\ (byteZ x <> 10 ->
      exists rd1,
        readRune (mkReader l c (bufio.mk (bytes [13] ++ String x tl) lr) b e k)
        = ((13, None), rd1)
        /\ unreadRune rd1 = (Some ErrInvalidUnreadRune, rd1)
        /\ bufio.rest (r rd1) = String x tl).
Proof.
  intros Hx. split; [|split].
  - destruct (ReadRune_first x tl lr) as (c1 & sz & b' & HR & HU & Hlo & Hhi).
    assert (Hc : (c1 =? ch "013") = false).
    { apply Z.eqb_neq. change (ch "013") with 13.
      destruct (Z.lt_ge_cases (byteZ x) 128) as [H|H];
        [destruct (Hlo H) as (-> & _); exact Hx | specialize (Hhi H); lia]. }
    unfold readRune; simpl. rewrite HR, Hc.
    eexists _, _; split; [reflexivity|].
    unfold unreadRune; simpl. rewrite HU; simpl.
    now rewrite Z.add_simpl_r.
  - eexists; split; [reflexivity|].
    unfold unreadRune; simpl. now rewrite Z.add_simpl_r.
  - intros Hn. eexists; split; [exact (readRune_lone_CR _ _ _ _ _ _ _ _ Hn)|].
    split; reflexivity.
Qed.

Lemma unreadRune_readRune_witness :
  byteZ "a" <> 13
  /\ exists c1 rd1,
      readRune (mkReader 1 0 (bufio.mk "ab" None) EmptyString None Quad.zero)
      = ((c1, None), rd1)
      /\ unreadRune rd1
         = (None, mkReader 1 0 (bufio.mk "ab" None) EmptyString None Quad.zero).
Proof.
  split; [discriminate|].
  apply (unreadRune_readRune 1 0 None EmptyString None Quad.zero "a" "b").
  discriminate.
Defined.

Lemma skipWhitespace_lone_CR l c lr b e k (x : ascii) (tl : string) :
  byteZ x <> 10 ->
  skipWhitespace (mkReader l c (bufio.mk (String "013" (String x tl)) lr) b e k)
  = Some ((13, None), mkReader l (c + 1) (bufio.mk (String x tl) None) b e k).
Proof.
  intros Hn. unfold skipWhitespace, bind, lift.
  rewrite (readRune_lone_CR _ _ _ _ _ _ _ _ Hn). reflexivity.
Qed.

Lemma Next_skip_lone_CR (n : nat) l c lr b e k (x : ascii) (tl : string) :
  byteZ x <> 10 ->
  Next_skip (S n) (ch "010")
    (mkReader l c (bufio.mk (String "013" (String x tl)) lr) b e k)
  = Some (inr 13, mkReader l (c + 1) (bufio.mk (String x tl) None) b e k).
Proof.
  intros Hn. cbn [Next_skip].
  change (ch "010" =? ch "010") with true. cbv iota.
  unfold bind. rewrite (skipWhitespace_lone_CR _ _ _ _ _ _ _ _ Hn).
  change (13 =? ch "#") with false. cbv iota.
  destruct n; reflexivity.
Qed.

(** X5.  A statement that starts with a carriage return followed by a
    byte other than a line feed (a carriage return that ends the input is
    another case) is not reported as an unexpected character: [readRune]
    has already used the one rune of pushback to look behind the carriage
    return, so the [UnreadRune] at the head of [Next] fails, and [Err]
    returns the bare [bufio.ErrInvalidUnreadRune]. *)
Theorem Next_lone_CR l c lr b k (x : ascii) (tl : string) :
  byteZ x <> 10 ->
  Next (mkReader l c (bufio.mk (String "013" (String x tl)) lr) b None k)
  = Some (false,
          mkReader (l + 1) 0 (bufio.mk (String x tl) None) b
                   (Some ErrInvalidUnreadRune) Quad.zero).
Proof.
  intros Hn. unfold Next; cbn [err].
  unfold Next_attempt, bind, modify, with_fuel, fuel_of.
  unfold with_column, with_line, with_q.
  cbn [line column r buf err q bufio.rest].
  rewrite (Next_skip_lone_CR _ _ _ _ _ _ _ _ _ Hn).
  reflexivity.
Qed.

Lemma Next_lone_CR_witness :
  byteZ "<" <> 10
  /\ Next (mkReader 0 0 (bufio.mk (String "013" "<x:s>") None) EmptyString None
                    Quad.zero)
     = Some (false,
             mkReader 1 0 (bufio.mk "<x:s>" None) EmptyString
                      (Some ErrInvalidUnreadRune) Quad.zero).
Proof.
  split; [discriminate|].
  apply (Next_lone_CR 0 0 None EmptyString Quad.zero "<" "x:s>").
  discriminate.
Defined.

(** ** Laws of the lexers *)

Lemma land_shifted (a b n : Z) :
  0 <= n -> 0 <= b < 2 ^ n -> Z.land (a * 2 ^ n) b = 0.
Proof.
  intros Hn Hb. apply Z.bits_inj'. intros i Hi.
  rewrite Z.land_spec, Z.bits_0.
  destruct (Z.lt_ge_cases i n) as [Hlt|Hge].
  - rewrite Z.mul_pow2_bits_low by lia. reflexivity.
  - rewrite <- (Z.mod_small b (2 ^ n)) by lia.
    rewrite Z.mod_pow2_bits_high by lia. apply andb_false_r.
Qed.

Lemma lor_shifted (a b n : Z) :
  0 <= n -> 0 <= b < 2 ^ n -> Z.lor (a * 2 ^ n) b = a * 2 ^ n + b.
Proof.
  intros Hn Hb. pose proof (Z.add_lor_land (a * 2 ^ n) b) as H.
  rewrite land_shifted in H by assumption. lia.
Qed.

(** [0xC0 | h], [0x80 | l] and the like *)
Lemma lor_tag (t h n : Z) :
  0 <= n -> 0 <= h < 2 ^ n -> t mod 2 ^ n = 0 -> Z.lor t h = t + h.
Proof.
  intros Hn Hh Ht.
  rewrite (Z.div_mod t (2 ^ n)) at 1 by lia. rewrite Ht, Z.add_0_r.
  rewrite (Z.mul_comm (2 ^ n)). rewrite lor_shifted by assumption.
  rewrite (Z.div_mod t (2 ^ n)) at 2 by lia. lia.
Qed.

Lemma DecodeRune_2 (a0 a1 : ascii) (tl : string) lo hi :
  utf8.lead (byteZ a0) = Some (2%nat, lo, hi) ->
  lo <= byteZ a1 <= hi ->
  utf8.DecodeRune (String a0 (String a1 tl))
  = (Z.lor (Z.shiftl (Z.land (byteZ a0) 0x1F) 6) (Z.land (byteZ a1) 0x3F), 2%nat).
Proof.
  intros Hl Hb. unfold utf8.DecodeRune.
  cbn [list_ascii_of_string map]. rewrite Hl.
  replace ((lo <=? byteZ a1) && (byteZ a1 <=? hi)) with true; [reflexivity|].
  symmetry. apply andb_true_iff. split; apply Z.leb_le; lia.
Qed.

Lemma DecodeRune_3 (a0 a1 a2 : ascii) (tl : string) lo hi :
  utf8.lead (byteZ a0) = Some (3%nat, lo, hi) ->
  lo <= byteZ a1 <= hi -> 0x80 <= byteZ a2 <= 0xBF ->
  utf8.DecodeRune (String a0 (String a1 (String a2 tl)))
  = (Z.lor (Z.shiftl (Z.land (byteZ a0) 0x0F) 12)
       (Z.lor (Z.shiftl (Z.land (byteZ a1) 0x3F) 6) (Z.land (byteZ a2) 0x3F)),
     3%nat).
Proof.
  intros Hl Hb Hc. unfold utf8.DecodeRune, utf8.cont.
  cbn [list_ascii_of_string map]. rewrite Hl.
  replace ((lo <=? byteZ a1) && (byteZ a1 <=? hi)) with true
    by (symmetry; apply andb_true_iff; split; apply Z.leb_le; lia).
  replace ((128 <=? byteZ a2) && (byteZ a2 <=? 191)) with true
    by (symmetry; apply andb_true_iff; split; apply Z.leb_le; lia).
  reflexivity.
Qed.

Lemma DecodeRune_4 (a0 a1 a2 a3 : ascii) (tl : string) lo hi :
  utf8.lead (byteZ a0) = Some (4%nat, lo, hi) ->
  lo <= byteZ a1 <= hi -> 0x80 <= byteZ a2 <= 0xBF -> 0x80 <= byteZ a3 <= 0xBF ->
  utf8.DecodeRune (String a0 (String a1 (String a2 (String a3 tl))))
  = (Z.lor (Z.shiftl (Z.land (byteZ a0) 0x07) 18)
       (Z.lor (Z.shiftl (Z.land (byteZ a1) 0x3F) 12)
          (Z.lor (Z.shiftl (Z.land (byteZ a2) 0x3F) 6) (Z.land (byteZ a3) 0x3F))),
     4%nat).
Proof.
  intros Hl Hb Hc Hd. unfold utf8.DecodeRune, utf8.cont.
  cbn [list_ascii_of_string map]. rewrite Hl.
  replace ((lo <=? byteZ a1) && (byteZ a1 <=? hi)) with true
    by (symmetry; apply andb_true_iff; split; apply Z.leb_le; lia).
  replace ((128 <=? byteZ a2) && (byteZ a2 <=? 191)) with true
    by (symmetry; apply andb_true_iff; split; apply Z.leb_le; lia).
  replace ((128 <=? byteZ a3) && (byteZ a3 <=? 191)) with true
    by (symmetry; apply andb_true_iff; split; apply Z.leb_le; lia).
  reflexivity.
Qed.

(** The if-chain of [lead], settled by the range of the byte. *)
Ltac lead_solve :=
  unfold utf8.lead;
  repeat match goal with
         | |- context [?a <? ?b] =>
           destruct (Z.ltb_spec a b); try lia
         | |- context [?a <=? ?b] =>
           destruct (Z.leb_spec a b); try lia
         | |- context [?a =? ?b] =>
           destruct (Z.eqb_spec a b); try lia
         end; try reflexivity.

Lemma lead_2 b : 0xC2 <= b <= 0xDF -> utf8.lead b = Some (2%nat, 0x80, 0xBF).
Proof. intros H. lead_solve. Qed.

Lemma lead_3 b :
  0xE0 <= b <= 0xEF ->
  utf8.lead b = Some (3%nat, if b =? 0xE0 then 0xA0 else 0x80,
                      if b =? 0xED then 0x9F else 0xBF).
Proof. intros H. lead_solve. Qed.

Lemma lead_4 b :
  0xF0 <= b <= 0xF4 ->
  utf8.lead b = Some (4%nat, if b =? 0xF0 then 0x90 else 0x80,
                      if b =? 0xF4 then 0x8F else 0xBF).
Proof. intros H. lead_solve. Qed.


Lemma shr_div (a n : Z) : 0 <= n -> Z.shiftr a n = a / 2 ^ n.
Proof. intros. now apply Z.shiftr_div_pow2. Qed.

Lemma shl_mul (a n : Z) : 0 <= n -> Z.shiftl a n = a * 2 ^ n.
Proof. intros. now apply Z.shiftl_mul_pow2. Qed.

Lemma land_63 a : Z.land a 0x3F = a mod 64.
Proof. change 0x3F with (Z.ones 6). now rewrite Z.land_ones by lia. Qed.
Lemma land_31 a : Z.land a 0x1F = a mod 32.
Proof. change 0x1F with (Z.ones 5). now rewrite Z.land_ones by lia. Qed.
Lemma land_15 a : Z.land a 0x0F = a mod 16.
Proof. change 0x0F with (Z.ones 4). now rewrite Z.land_ones by lia. Qed.
Lemma land_7 a : Z.land a 0x07 = a mod 8.
Proof. change 0x07 with (Z.ones 3). now rewrite Z.land_ones by lia. Qed.

Lemma lor_0x80 l : 0 <= l < 64 -> Z.lor 0x80 l = 128 + l.
Proof. intros. apply (lor_tag 128 l 6); try lia. reflexivity. Qed.
Lemma lor_0xC0 l : 0 <= l < 64 -> Z.lor 0xC0 l = 192 + l.
Proof. intros. apply (lor_tag 192 l 6); try lia. reflexivity. Qed.
Lemma lor_0xE0 l : 0 <= l < 32 -> Z.lor 0xE0 l = 224 + l.
Proof. intros. apply (lor_tag 224 l 5); try lia. reflexivity. Qed.
Lemma lor_0xF0 l : 0 <= l < 16 -> Z.lor 0xF0 l = 240 + l.
Proof. intros. apply (lor_tag 240 l 4); try lia. reflexivity. Qed.

Lemma lor_shl (a b n : Z) :
  0 <= n -> 0 <= b < 2 ^ n -> Z.lor (Z.shiftl a n) b = a * 2 ^ n + b.
Proof. intros. rewrite shl_mul by lia. now apply lor_shifted. Qed.

Lemma EncodeRune_2 c :
  0x80 <= c <= 0x7FF ->
  utf8.EncodeRune c
  = String (Zbyte (192 + c / 64)) (String (Zbyte (128 + c mod 64)) EmptyString).
Proof.
  intros H. unfold utf8.EncodeRune, uint32. rewrite Z.mod_small by lia.
  destruct (Z.leb_spec c 0x7F); [lia|].
  destruct (Z.leb_spec c 0x7FF); [|lia].
  rewrite shr_div, land_63 by lia. change (2 ^ 6) with 64.
  rewrite lor_0xC0, lor_0x80; [reflexivity| |].
  - apply Z.mod_pos_bound; lia.
  - split; [apply Z.div_pos; lia | apply Z.div_lt_upper_bound; lia].
Qed.

Lemma EncodeRune_3 c :
  0x800 <= c <= 0xFFFF -> ~ (0xD800 <= c <= 0xDFFF) ->
  utf8.EncodeRune c
  = String (Zbyte (224 + c / 4096))
      (String (Zbyte (128 + (c / 64) mod 64))
         (String (Zbyte (128 + c mod 64)) EmptyString)).
Proof.
  intros H Hs. unfold utf8.EncodeRune, uint32, utf8.MaxRune, utf8.surrogateMin,
    utf8.surrogateMax. rewrite Z.mod_small by lia.
  destruct (Z.leb_spec c 0x7F); [lia|].
  destruct (Z.leb_spec c 0x7FF); [lia|].
  destruct (Z.ltb_spec 0x10FFFF c); [lia|].
  cbn [orb].
  replace ((0xD800 <=? c) && (c <=? 0xDFFF)) with false
    by (symmetry; apply andb_false_iff;
        destruct (Z.leb_spec 0xD800 c); [right; apply Z.leb_gt; lia | now left]).
  destruct (Z.leb_spec c 0xFFFF); [|lia].
  rewrite !shr_div, !land_63 by lia. change (2 ^ 6) with 64; change (2 ^ 12) with 4096.
  rewrite lor_0xE0, !lor_0x80; [reflexivity| | |];
    try (apply Z.mod_pos_bound; lia).
  split; [apply Z.div_pos; lia | apply Z.div_lt_upper_bound; lia].
Qed.

Lemma EncodeRune_4 c :
  0x10000 <= c <= 0x10FFFF ->
  utf8.EncodeRune c
  = String (Zbyte (240 + c / 262144))
      (String (Zbyte (128 + (c / 4096) mod 64))
         (String (Zbyte (128 + (c / 64) mod 64))
            (String (Zbyte (128 + c mod 64)) EmptyString))).
Proof.
  intros H. unfold utf8.EncodeRune, uint32, utf8.MaxRune, utf8.surrogateMin,
    utf8.surrogateMax. rewrite Z.mod_small by lia.
  destruct (Z.leb_spec c 0x7F); [lia|].
  destruct (Z.leb_spec c 0x7FF); [lia|].
  destruct (Z.ltb_spec 0x10FFFF c); [lia|].
  cbn [orb].
  replace ((0xD800 <=? c) && (c <=? 0xDFFF)) with false
    by (symmetry; apply andb_false_iff; right; apply Z.leb_gt; lia).
  destruct (Z.leb_spec c 0xFFFF); [lia|].
  rewrite !shr_div, !land_63 by lia.
  change (2 ^ 6) with 64; change (2 ^ 12) with 4096; change (2 ^ 18) with 262144.
  rewrite lor_0xF0, !lor_0x80; [reflexivity| | | |];
    try (apply Z.mod_pos_bound; lia).
  split; [apply Z.div_pos; lia | apply Z.div_lt_upper_bound; lia].
Qed.


Lemma ReadRune_multi (a0 : ascii) (tl : string) lr c sz :
  128 <= byteZ a0 ->
  utf8.DecodeRune (String a0 tl) = (c, sz) ->
  bufio.ReadRune (bufio.mk (String a0 tl) lr)
  = ((c, sz, None),
     bufio.mk (drop sz (String a0 tl)) (Some (take sz (String a0 tl)))).
Proof.
  intros H0 Hd. unfold bufio.ReadRune; cbn [bufio.rest].
  unfold utf8.RuneSelf. destruct (Z.ltb_spec (byteZ a0) 0x80); [lia|].
  now rewrite Hd.
Qed.

Lemma ReadRune_EncodeRune (c : rune) (tl : string) lr :
  scalar c ->
  bufio.ReadRune (bufio.mk (utf8.EncodeRune c ++ tl) lr)
  = ((c, String.length (utf8.EncodeRune c), None),
     bufio.mk tl (Some (utf8.EncodeRune c))).
Proof.
  intros Hc. unfold scalar in Hc.
  destruct (Z.le_gt_cases c 0x7F) as [H1|H1].
  { rewrite EncodeRune_1 by lia. cbn [append String.length].
    unfold bufio.ReadRune; cbn [bufio.rest].
    rewrite byteZ_Zbyte by lia. unfold utf8.RuneSelf.
    destruct (Z.ltb_spec c 0x80); [reflexivity | lia]. }
  destruct (Z.le_gt_cases c 0x7FF) as [H2|H2].
  { rewrite EncodeRune_2 by lia. cbn [append String.length].
    pose proof (Z.div_mod c 64 ltac:(lia)) as E.
    pose proof (Z.mod_pos_bound c 64 ltac:(lia)) as Hm.
    assert (Hh : 2 <= c / 64 <= 31)
      by lia.
    erewrite ReadRune_multi;
      [| rewrite byteZ_Zbyte; lia
       | apply DecodeRune_2 with (lo := 0x80) (hi := 0xBF);
         [apply lead_2 | ]; rewrite byteZ_Zbyte; lia].
    cbn [drop take]. rewrite !byteZ_Zbyte by lia.
    rewrite land_31, land_63, lor_shl by (try apply Z.mod_pos_bound; lia).
    repeat f_equal. change (2 ^ 6) with 64.
    rewrite (Z.add_comm 192), (Z.add_comm 128).
    change 192 with (6 * 32) at 1. change 128 with (2 * 64) at 1.
    rewrite !Z.mod_add by lia. rewrite (Z.mod_small (c / 64)) by lia.
    rewrite Z.mod_mod by lia. lia. }
  destruct (Z.le_gt_cases c 0xFFFF) as [H3|H3].
  { rewrite EncodeRune_3 by lia. cbn [append String.length].
    pose proof (Z.div_mod c 64 ltac:(lia)) as E.
    pose proof (Z.mod_pos_bound c 64 ltac:(lia)) as Hm.
    pose proof (Z.div_mod (c / 64) 64 ltac:(lia)) as E2.
    pose proof (Z.mod_pos_bound (c / 64) 64 ltac:(lia)) as Hm2.
    assert (E3 : c / 4096 = c / 64 / 64)
      by (rewrite Z.div_div by lia; reflexivity).
    assert (Hh : 0 <= c / 4096 <= 15)
      by lia.
    erewrite ReadRune_multi;
      [| rewrite byteZ_Zbyte; lia
       | apply DecodeRune_3
           with (lo := if 224 + c / 4096 =? 0xE0 then 0xA0 else 0x80)
                (hi := if 224 + c / 4096 =? 0xED then 0x9F else 0xBF);
         [rewrite byteZ_Zbyte by lia; apply lead_3; lia
         | rewrite byteZ_Zbyte by lia;
           destruct (Z.eqb_spec (224 + c / 4096) 0xE0);
           destruct (Z.eqb_spec (224 + c / 4096) 0xED); lia
         | rewrite byteZ_Zbyte; lia]].
    cbn [drop take]. rewrite !byteZ_Zbyte by lia.
    rewrite land_15, !land_63.
    rewrite (Z.add_comm 224), !(Z.add_comm 128).
    change 224 with (14 * 16) at 1. change 128 with (2 * 64).
    rewrite !Z.mod_add by lia. rewrite (Z.mod_small (c / 4096)) by lia.
    rewrite !Z.mod_mod by lia.
    rewrite (lor_shl _ (c mod 64)) by lia.
    rewrite lor_shl by (change (2 ^ 12) with 4096; change (2 ^ 6) with 64; lia).
    repeat f_equal. change (2 ^ 12) with 4096; change (2 ^ 6) with 64. lia. }
  { rewrite EncodeRune_4 by lia. cbn [append String.length].
    pose proof (Z.div_mod c 64 ltac:(lia)) as E.
    pose proof (Z.mod_pos_bound c 64 ltac:(lia)) as Hm.
    pose proof (Z.div_mod (c / 64) 64 ltac:(lia)) as E2.
    pose proof (Z.mod_pos_bound (c / 64) 64 ltac:(lia)) as Hm2.
    assert (E3 : c / 4096 = c / 64 / 64)
      by (rewrite Z.div_div by lia; reflexivity).
    pose proof (Z.div_mod (c / 4096) 64 ltac:(lia)) as E4.
    pose proof (Z.mod_pos_bound (c / 4096) 64 ltac:(lia)) as Hm4.
    assert (E5 : c / 262144 = c / 4096 / 64)
      by (rewrite Z.div_div by lia; reflexivity).
    assert (Hh : 0 <= c / 262144 <= 4)
      by lia.
    erewrite ReadRune_multi;
      [| rewrite byteZ_Zbyte; lia
       | apply DecodeRune_4
           with (lo := if 240 + c / 262144 =? 0xF0 then 0x90 else 0x80)
                (hi := if 240 + c / 262144 =? 0xF4 then 0x8F else 0xBF);
         [rewrite byteZ_Zbyte by lia; apply lead_4; lia
         | rewrite byteZ_Zbyte by lia;
           destruct (Z.eqb_spec (240 + c / 262144) 0xF0);
           destruct (Z.eqb_spec (240 + c / 262144) 0xF4); lia
         | rewrite byteZ_Zbyte; lia
         | rewrite byteZ_Zbyte; lia]].
    cbn [drop take]. rewrite !byteZ_Zbyte by lia.
    rewrite land_7, !land_63.
    rewrite (Z.add_comm 240), !(Z.add_comm 128).
    change 240 with (30 * 8) at 1. change 128 with (2 * 64).
    rewrite !Z.mod_add by lia. rewrite (Z.mod_small (c / 262144)) by lia.
    rewrite !Z.mod_mod by lia.
    rewrite (lor_shl _ (c mod 64)) by lia.
    rewrite (lor_shl ((c / 4096) mod 64))
      by (change (2 ^ 12) with 4096; change (2 ^ 6) with 64; lia).
    rewrite lor_shl
      by (change (2 ^ 18) with 262144; change (2 ^ 12) with 4096;
          change (2 ^ 6) with 64; lia).
    repeat f_equal.
    change (2 ^ 18) with 262144; change (2 ^ 12) with 4096;
      change (2 ^ 6) with 64. lia. }
Qed.


Lemma readRune_encoded l col lr b e k (c : rune) (tl : string) :
  scalar c -> c <> ch "013" ->
  readRune (mkReader l col (bufio.mk (utf8.EncodeRune c ++ tl) lr) b e k)
  = ((c, None),
     mkReader l (col + 1) (bufio.mk tl (Some (utf8.EncodeRune c))) b e k).
Proof.
  intros Hc H13. unfold readRune; cbn [r].
  rewrite ReadRune_EncodeRune by assumption.
  destruct (Z.eqb_spec c (ch "013")); [contradiction | reflexivity].
Qed.

Lemma app_assoc_s (a b c : string) : ((a ++ b) ++ c = a ++ (b ++ c))%string.
Proof. induction a; simpl; congruence. Qed.

Lemma isSpace_ascii (x : ascii) :
  isSpace (byteZ x) = true ->
  (byteZ x <? utf8.RuneSelf) = true /\ (byteZ x =? ch "013") = false.
Proof.
  unfold isSpace, utf8.RuneSelf. change (ch " ") with 32; change (ch "009") with 9;
    change (ch "013") with 13.
  intros H. apply orb_true_iff in H as [H|H]; apply Z.eqb_eq in H; rewrite H;
    split; reflexivity.
Qed.

Lemma skipWhitespace_loop_blanks (ws : string) :
  forall n l col lr b e k (x : ascii) tl,
    blanks ws = true ->
    (byteZ x <? utf8.RuneSelf) = true -> (byteZ x =? ch "013") = false ->
    isSpace (byteZ x) = false ->
    (String.length ws < n)%nat ->
    skipWhitespace_loop n (ch " ")
      (mkReader l col (bufio.mk (ws ++ String x tl) lr) b e k)
    = Some ((byteZ x, None),
            mkReader l (col + Z.of_nat (String.length ws) + 1)
                     (bufio.mk tl (Some (String x EmptyString))) b e k).
Proof.
  induction ws as [|w ws IH]; intros n l col lr b e k x tl Hw H1 H2 H3 Hn;
    (destruct n as [|n]; [simpl in Hn; lia|]).
  - cbn [append String.length Z.of_nat skipWhitespace_loop].
    change (isSpace (ch " ")) with true. cbv iota.
    unfold bind, lift. rewrite readRune_ascii by assumption.
    rewrite Z.add_0_r.
    destruct n; cbn [skipWhitespace_loop]; rewrite H3; reflexivity.
  - cbn [blanks] in Hw. apply andb_true_iff in Hw as [Hw Hws].
    destruct (isSpace_ascii _ Hw) as [Ha Hb].
    cbn [append String.length skipWhitespace_loop].
    change (isSpace (ch " ")) with true. cbv iota.
    unfold bind at 1. unfold lift at 1. rewrite readRune_ascii by assumption.
    cbv beta iota.
    assert (E : forall m rd, skipWhitespace_loop m (byteZ w) rd
                             = skipWhitespace_loop m (ch " ") rd).
    { intros m rd. destruct m; cbn [skipWhitespace_loop]; rewrite Hw; reflexivity. }
    rewrite E, IH by (try assumption; cbn [String.length] in Hn; lia).
    replace (col + 1 + Z.of_nat (String.length ws) + 1)
      with (col + Z.of_nat (S (String.length ws)) + 1) by lia.
    reflexivity.
Qed.

Lemma readRune_EOF l col lr b e k :
  readRune (mkReader l col (bufio.mk EmptyString lr) b e k)
  = ((0, Some EOF), mkReader l (col + 1) (bufio.mk EmptyString None) b e k).
Proof. reflexivity. Qed.

Lemma skipWhitespace_loop_EOF (ws : string) :
  forall n l col lr b e k,
    blanks ws = true -> (String.length ws < n)%nat ->
    skipWhitespace_loop n (ch " ")
      (mkReader l col (bufio.mk ws lr) b e k)
    = Some ((0, Some EOF),
            mkReader l (col + Z.of_nat (String.length ws) + 1)
                     (bufio.mk EmptyString None) b e k).
Proof.
  induction ws as [|w ws IH]; intros n l col lr b e k Hw Hn;
    (destruct n as [|n]; [simpl in Hn; lia|]).
  - cbn [String.length Z.of_nat skipWhitespace_loop].
    change (isSpace (ch " ")) with true. cbv iota.
    unfold bind, lift. rewrite readRune_EOF. rewrite Z.add_0_r. reflexivity.
  - cbn [blanks] in Hw. apply andb_true_iff in Hw as [Hw Hws].
    destruct (isSpace_ascii _ Hw) as [Ha Hb].
    cbn [String.length skipWhitespace_loop].
    change (isSpace (ch " ")) with true. cbv iota.
    unfold bind at 1. unfold lift at 1. rewrite readRune_ascii by assumption.
    cbv beta iota.
    assert (E : forall m rd, skipWhitespace_loop m (byteZ w) rd
                             = skipWhitespace_loop m (ch " ") rd).
    { intros m rd. destruct m; cbn [skipWhitespace_loop]; rewrite Hw; reflexivity. }
    rewrite E, IH by (try assumption; cbn [String.length] in Hn; lia).
    replace (col + 1 + Z.of_nat (String.length ws) + 1)
      with (col + Z.of_nat (S (String.length ws)) + 1) by lia.
    reflexivity.
Qed.

Lemma length_app_s (a b : string) :
  String.length (a ++ b) = (String.length a + String.length b)%nat.
Proof. induction a; simpl; congruence. Qed.

Lemma skipWhitespace_run l col lr b e k (ws : string) :
  blanks ws = true ->
  (forall (x : ascii) (tl : string),
      byteZ x < 128 -> byteZ x <> ch "013" -> isSpace (byteZ x) = false ->
      skipWhitespace (mkReader l col (bufio.mk (ws ++ String x tl) lr) b e k)
      = Some ((byteZ x, None),
              mkReader l (col + Z.of_nat (String.length ws) + 1)
                       (bufio.mk tl (Some (String x EmptyString))) b e k))
  /\ skipWhitespace (mkReader l col (bufio.mk ws lr) b e k)
     = Some ((0, Some EOF),
             mkReader l (col + Z.of_nat (String.length ws) + 1)
                      (bufio.mk EmptyString None) b e k).
Proof.
  intros Hw. split.
  - intros x tl H1 H2 H3.
    assert (H1' : (byteZ x <? utf8.RuneSelf) = true) by (apply Z.ltb_lt; exact H1).
    assert (H2' : (byteZ x =? ch "013") = false) by (apply Z.eqb_neq; exact H2).
    destruct ws as [|w ws].
    + cbn [append String.length Z.of_nat]. unfold skipWhitespace, bind, lift.
      rewrite readRune_ascii by assumption. cbv beta iota.
      unfold with_fuel, fuel_of. cbn [r bufio.rest skipWhitespace_loop].
      rewrite H3, Z.add_0_r. reflexivity.
    + cbn [blanks] in Hw. apply andb_true_iff in Hw as [Hw Hws].
      destruct (isSpace_ascii _ Hw) as [Ha Hb].
      cbn [append String.length]. unfold skipWhitespace, bind, lift.
      rewrite readRune_ascii by assumption. cbv beta iota.
      unfold with_fuel, fuel_of. cbn [r bufio.rest].
      assert (E : forall m rd, skipWhitespace_loop m (byteZ w) rd
                               = skipWhitespace_loop m (ch " ") rd).
      { intros m rd. destruct m; cbn [skipWhitespace_loop]; rewrite Hw; reflexivity. }
      rewrite E, skipWhitespace_loop_blanks
        by (try assumption; rewrite length_app_s; cbn [String.length]; lia).
      replace (col + 1 + Z.of_nat (String.length ws) + 1)
        with (col + Z.of_nat (S (String.length ws)) + 1) by lia.
      reflexivity.
  - destruct ws as [|w ws].
    + cbn [String.length Z.of_nat]. rewrite Z.add_0_r. reflexivity.
    + cbn [blanks] in Hw. apply andb_true_iff in Hw as [Hw Hws].
      destruct (isSpace_ascii _ Hw) as [Ha Hb].
      cbn [String.length]. unfold skipWhitespace, bind, lift.
      rewrite readRune_ascii by assumption. cbv beta iota.
      unfold with_fuel, fuel_of. cbn [r bufio.rest].
      assert (E : forall m rd, skipWhitespace_loop m (byteZ w) rd
                               = skipWhitespace_loop m (ch " ") rd).
      { intros m rd. destruct m; cbn [skipWhitespace_loop]; rewrite Hw; reflexivity. }
      rewrite E, skipWhitespace_loop_EOF by (try assumption; lia).
      replace (col + 1 + Z.of_nat (String.length ws) + 1)
        with (col + Z.of_nat (S (String.length ws)) + 1) by lia.
      reflexivity.
Qed.


Lemma encode_length (cs : list rune) :
  (List.length cs <= String.length (encode cs))%nat.
Proof.
  induction cs as [|c cs IH]; [apply Nat.le_refl|].
  cbn [encode List.length]. rewrite length_app_s.
  pose proof (EncodeRune_nonempty c) as H.
  destruct (utf8.EncodeRune c); [congruence|]. cbn [String.length]. lia.
Qed.

Lemma app_empty_r (s : string) : (s ++ EmptyString)%string = s.
Proof. induction s; simpl; congruence. Qed.

Lemma readRune_lr l c lr b e k s :
  readRune (mkReader l c (bufio.mk s lr) b e k)
  = readRune (mkReader l c (bufio.mk s None) b e k).
Proof. reflexivity. Qed.

Lemma parseLiteral_loop_lr n l c lr b e k s :
  parseLiteral_loop n (mkReader l c (bufio.mk s lr) b e k)
  = parseLiteral_loop n (mkReader l c (bufio.mk s None) b e k).
Proof.
  destruct n; [reflexivity|]. cbn [parseLiteral_loop].
  unfold bind at 1 3. unfold lift at 1 3. now rewrite readRune_lr.
Qed.

Lemma parseIRI_loop_lr n l c lr b e k s :
  parseIRI_loop n (mkReader l c (bufio.mk s lr) b e k)
  = parseIRI_loop n (mkReader l c (bufio.mk s None) b e k).
Proof.
  destruct n; [reflexivity|]. cbn [parseIRI_loop].
  unfold bind at 1 3. unfold lift at 1 3. now rewrite readRune_lr.
Qed.

Lemma numericForm_facts u ds :
  numericForm u ds ->
  (byteZ u <? utf8.RuneSelf) = true /\ (byteZ u =? ch "013") = false
  /\ escapeSize (byteZ u) = String.length ds
  /\ ((byteZ u =? ch "u") || (byteZ u =? ch "U")) = true
  /\ ((byteZ u =? ch "\") || (byteZ u =? ch "034")) = false
  /\ (byteZ u =? ch "t") = false /\ (byteZ u =? ch "r") = false
  /\ (byteZ u =? ch "n") = false /\ (byteZ u =? ch "b") = false
  /\ (byteZ u =? ch "f") = false.
Proof.
  intros [[-> ->]|[-> ->]]; repeat split; reflexivity.
Qed.

Lemma literal_item_step n l col lr b e k (i : item) (c : rune) (tl : string) :
  litItem i c ->
  parseLiteral_loop (S n)
    (mkReader l col (bufio.mk (item_text i ++ tl) lr) b e k)
  = parseLiteral_loop n
      (mkReader l (col + item_width i) (bufio.mk tl None)
                (b ++ utf8.EncodeRune c) e k).
Proof.
  intros Hi. destruct Hi as [c Hs Hq Hb Hr | x c Hx | u ds v Hu Hv].
  - cbn [item_text item_width parseLiteral_loop].
    unfold bind at 1. unfold lift at 1.
    rewrite readRune_encoded by assumption. cbv beta iota.
    destruct (Z.eqb_spec c (ch "034")); [contradiction|].
    destruct (Z.eqb_spec c (ch "\")); [contradiction|].
    unfold bind at 1. unfold WriteRune, modify, with_buf.
    cbn [line column r buf err q].
    apply parseLiteral_loop_lr.
  - cbn [item_text item_width append parseLiteral_loop].
    unfold bind at 1. unfold lift at 1.
    rewrite readRune_ascii by reflexivity. cbv beta iota.
    change (byteZ "\" =? ch "034") with false.
    change (byteZ "\" =? ch "\") with true. cbv iota.
    assert (Ha : (byteZ x <? utf8.RuneSelf) = true
                 /\ (byteZ x =? ch "013") = false).
    { unfold simpleEscape in Hx; cbv zeta in Hx. unfold utf8.RuneSelf.
      change (ch "\") with 92 in Hx; change (ch "034") with 34 in Hx;
        change (ch "t") with 116 in Hx; change (ch "r") with 114 in Hx;
        change (ch "n") with 110 in Hx; change (ch "b") with 98 in Hx;
        change (ch "f") with 102 in Hx. change (ch "013") with 13.
      repeat match type of Hx with
             | context [?a =? ?b] => destruct (Z.eqb_spec a b)
             end; cbn [orb] in Hx; try discriminate Hx;
        (split; [apply Z.ltb_lt | apply Z.eqb_neq]; lia). }
    unfold bind at 1. unfold lift at 1.
    rewrite readRune_ascii by apply Ha. cbv beta iota.
    unfold simpleEscape in Hx; cbv zeta in Hx.
    destruct ((byteZ x =? ch "\") || (byteZ x =? ch "034")).
    { injection Hx as <-. unfold bind at 1. unfold WriteRune, modify, with_buf.
      cbn [line column r buf err q].
      replace (col + 1 + 1) with (col + 2) by lia. apply parseLiteral_loop_lr. }
    repeat match type of Hx with
           | context [if ?t then _ else _] =>
             destruct t;
               [injection Hx as <-; unfold bind at 1;
                unfold WriteRune, modify, with_buf;
                cbn [line column r buf err q];
                replace (col + 1 + 1) with (col + 2) by lia;
                apply parseLiteral_loop_lr|]
           end.
    discriminate Hx.
  - destruct (numericForm_facts _ _ Hu)
      as (U1 & U2 & U3 & U4 & U5 & U6 & U7 & U8 & U9 & U10).
    cbn [item_text item_width append parseLiteral_loop].
    unfold bind at 1. unfold lift at 1.
    rewrite readRune_ascii by reflexivity. cbv beta iota.
    change (byteZ "\" =? ch "034") with false.
    change (byteZ "\" =? ch "\") with true. cbv iota.
    unfold bind at 1. unfold lift at 1.
    rewrite readRune_ascii by assumption. cbv beta iota.
    rewrite U5, U6, U7, U8, U9, U10, U4, U3.
    change 0 with (wrap32 0) at 1.
    unfold bind at 1. rewrite (readCodepoint_hex ds 0 _ _ _ _ _ _ tl v Hv).
    cbv beta iota. rewrite Z.add_0_l.
    unfold bind at 1. unfold WriteRune, modify, with_buf.
    cbn [line column r buf err q].
    replace (col + 1 + 1 + Z.of_nat (String.length ds))
      with (col + (2 + Z.of_nat (String.length ds))) by lia.
    apply parseLiteral_loop_lr.
Qed.


Lemma iri_item_step n l col lr b e k (i : item) (c : rune) (tl : string) :
  iriItem i c ->
  parseIRI_loop (S n)
    (mkReader l col (bufio.mk (item_text i ++ tl) lr) b e k)
  = parseIRI_loop n
      (mkReader l (col + item_width i) (bufio.mk tl None)
                (b ++ utf8.EncodeRune c) e k).
Proof.
  intros Hi. destruct Hi as [c Hs Hp | u ds v Hu Hv].
  - unfold iriPlain in Hp.
    apply andb_true_iff in Hp as [Hp H3]. apply andb_true_iff in Hp as [H1 H2].
    apply negb_true_iff in H1, H2, H3.
    assert (H13 : c <> ch "013") by (intros ->; discriminate H1).
    cbn [item_text item_width parseIRI_loop].
    unfold bind at 1. unfold lift at 1.
    rewrite readRune_encoded by assumption. cbv beta iota.
    rewrite H1, H2, H3.
    unfold bind at 1. unfold WriteRune, modify, with_buf.
    cbn [line column r buf err q].
    apply parseIRI_loop_lr.
  - destruct (numericForm_facts _ _ Hu)
      as (U1 & U2 & U3 & U4 & _).
    cbn [item_text item_width append parseIRI_loop].
    unfold bind at 1. unfold lift at 1.
    rewrite readRune_ascii by reflexivity. cbv beta iota.
    change ((byteZ "\" <=? 32) || (byteZ "\" =? ch "<") || (byteZ "\" =? ch "034")
            || (byteZ "\" =? ch "{") || (byteZ "\" =? ch "}")
            || (byteZ "\" =? ch "|") || (byteZ "\" =? ch "^")
            || (byteZ "\" =? ch "`")) with false.
    change (byteZ "\" =? ch ">") with false.
    change (byteZ "\" =? ch "\") with true. cbv iota.
    unfold bind at 1. unfold lift at 1.
    rewrite readRune_ascii by assumption. cbv beta iota.
    rewrite U4, U3.
    change 0 with (wrap32 0) at 1.
    unfold bind at 1. rewrite (readCodepoint_hex ds 0 _ _ _ _ _ _ tl v Hv).
    cbv beta iota. rewrite Z.add_0_l.
    unfold bind at 1. unfold WriteRune, modify, with_buf.
    cbn [line column r buf err q].
    replace (col + 1 + 1 + Z.of_nat (String.length ds))
      with (col + (2 + Z.of_nat (String.length ds))) by lia.
    apply parseIRI_loop_lr.
Qed.

Lemma item_text_nonempty (i : item) : item_text i <> EmptyString.
Proof. destruct i; cbn [item_text]; [apply EncodeRune_nonempty | discriminate..]. Qed.

Lemma text_length (its : list item) :
  (List.length its <= String.length (text its))%nat.
Proof.
  induction its as [|i its IH]; [apply Nat.le_refl|].
  cbn [text List.length]. rewrite length_app_s.
  pose proof (item_text_nonempty i) as H.
  destruct (item_text i); [congruence|]. cbn [String.length]. lia.
Qed.

Lemma iri_items (its : list item) :
  forall cs n l col lr b e k tl,
    Forall2 iriItem its cs -> (List.length its <= n)%nat ->
    parseIRI_loop n
      (mkReader l col (bufio.mk (text its ++ tl) lr) b e k)
    = parseIRI_loop (n - List.length its)
        (mkReader l (col + width its) (bufio.mk tl None) (b ++ encode cs) e k).
Proof.
  induction its as [|i its IH]; intros cs n l col lr b e k tl Hf Hn;
    inversion Hf as [|? c ? cs' Hi Hf']; subst.
  - cbn [text append List.length width encode].
    rewrite Nat.sub_0_r, Z.add_0_r, app_empty_r. apply parseIRI_loop_lr.
  - destruct n as [|n]; [cbn [List.length] in Hn; lia|].
    cbn [text List.length width encode]. rewrite app_assoc_s.
    rewrite (iri_item_step _ _ _ _ _ _ _ _ _ _ Hi).
    rewrite (IH cs') by (try assumption; cbn [List.length] in Hn; lia).
    rewrite Nat.sub_succ, app_assoc_s, Z.add_assoc. reflexivity.
Qed.

Lemma literal_items (its : list item) :
  forall cs n l col lr b e k tl,
    Forall2 litItem its cs -> (List.length its <= n)%nat ->
    parseLiteral_loop n
      (mkReader l col (bufio.mk (text its ++ tl) lr) b e k)
    = parseLiteral_loop (n - List.length its)
        (mkReader l (col + width its) (bufio.mk tl None) (b ++ encode cs) e k).
Proof.
  induction its as [|i its IH]; intros cs n l col lr b e k tl Hf Hn;
    inversion Hf as [|? c ? cs' Hi Hf']; subst.
  - cbn [text append List.length width encode].
    rewrite Nat.sub_0_r, Z.add_0_r, app_empty_r. apply parseLiteral_loop_lr.
  - destruct n as [|n]; [cbn [List.length] in Hn; lia|].
    cbn [text List.length width encode]. rewrite app_assoc_s.
    rewrite (literal_item_step _ _ _ _ _ _ _ _ _ _ Hi).
    rewrite (IH cs') by (try assumption; cbn [List.length] in Hn; lia).
    rewrite Nat.sub_succ, app_assoc_s, Z.add_assoc. reflexivity.
Qed.

Lemma parseIRI_items l col lr b e k (its : list item) (cs : list rune)
        (tl : string) :
  Forall2 iriItem its cs ->
  parseIRI (mkReader l col (bufio.mk (text its ++ String ">" tl) lr) b e k)
  = Some
      (if (String.length (b ++ encode cs) =? 0)%nat
       then (rdf.zero,
             Some (ParseError l (col + width its + 1) ErrUnexpectedCharacter))
       else (rdf.IRI (b ++ encode cs), None),
       mkReader l (col + width its + 1)
                (bufio.mk tl (Some (String ">" EmptyString)))
                (b ++ encode cs) e k).
Proof.
  intros Hf. unfold parseIRI, with_fuel, fuel_of. cbn [r bufio.rest].
  pose proof (text_length its) as Hl.
  rewrite (iri_items its cs)
    by (try assumption; rewrite length_app_s; cbn [String.length]; lia).
  rewrite length_app_s; cbn [String.length].
  replace (S (String.length (text its) + S (String.length tl)) - List.length its)%nat
    with (S (S (String.length (text its) + String.length tl) - List.length its))%nat
    by lia.
  cbn [parseIRI_loop]. unfold bind at 1. unfold lift at 1.
  rewrite readRune_ascii by reflexivity.
  cbv beta iota.
  change ((byteZ ">" <=? 32) || (byteZ ">" =? ch "<") || (byteZ ">" =? ch "034")
          || (byteZ ">" =? ch "{") || (byteZ ">" =? ch "}")
          || (byteZ ">" =? ch "|") || (byteZ ">" =? ch "^")
          || (byteZ ">" =? ch "`")) with false.
  change (byteZ ">" =? ch ">") with true. cbv iota.
  unfold bind, buf_empty, buf_String, gets, fail, wrap, ret.
  cbn [buf line column].
  destruct (String.length (b ++ encode cs) =? 0)%nat; reflexivity.
Qed.


Lemma EncodeRune_ascii (x : ascii) :
  byteZ x < 128 -> utf8.EncodeRune (byteZ x) = String x EmptyString.
Proof.
  intros H. pose proof (byteZ_range x).
  rewrite EncodeRune_1 by lia. unfold Zbyte, byteZ.
  rewrite Z.mod_small by (fold (byteZ x); lia).
  now rewrite N2Z.id, ascii_N_embedding.
Qed.

Lemma app_cons_s (b : string) (x : ascii) (s : string) :
  ((b ++ String x EmptyString) ++ s = b ++ String x s)%string.
Proof. now rewrite app_assoc_s. Qed.

Ltac bool_hyps :=
  repeat match goal with
         | H : _ && _ = true |- _ => apply andb_true_iff in H as [? ?]
         | H : _ || _ = false |- _ => apply orb_false_iff in H as [? ?]
         | H : negb _ = true |- _ => apply negb_true_iff in H
         | H : negb _ = false |- _ => apply negb_false_iff in H
         | H : (_ <=? _) = true |- _ => apply Z.leb_le in H
         | H : (_ <=? _) = false |- _ => apply Z.leb_gt in H
         | H : (_ <? _) = true |- _ => apply Z.ltb_lt in H
         | H : (_ <? _) = false |- _ => apply Z.ltb_ge in H
         | H : (_ =? _) = true |- _ => apply Z.eqb_eq in H
         | H : (_ =? _) = false |- _ => apply Z.eqb_neq in H
         end.

Lemma isEnd_ascii (x : ascii) :
  isEnd x = true ->
  (byteZ x <? utf8.RuneSelf) = true /\ (byteZ x =? ch "013") = false.
Proof.
  unfold isEnd, isSpace, utf8.RuneSelf.
  change (ch ".") with 46; change (ch " ") with 32; change (ch "009") with 9;
    change (ch "013") with 13.
  intros H. split; [apply Z.ltb_lt | apply Z.eqb_neq];
    destruct (Z.eqb_spec (byteZ x) 46); destruct (Z.eqb_spec (byteZ x) 32);
    destruct (Z.eqb_spec (byteZ x) 9); cbn in H; try discriminate; lia.
Qed.

Lemma tagchar_ascii (x : ascii) :
  (isAlpha (byteZ x) || isNumeral (byteZ x) || (byteZ x =? ch "-")) = true ->
  (byteZ x <? utf8.RuneSelf) = true /\ (byteZ x =? ch "013") = false
  /\ ((byteZ x =? ch ".") || isSpace (byteZ x)) = false.
Proof.
  unfold isAlpha, isNumeral, isSpace, utf8.RuneSelf.
  change (ch ".") with 46; change (ch " ") with 32; change (ch "009") with 9;
    change (ch "013") with 13; change (ch "-") with 45; change (ch "A") with 65;
    change (ch "Z") with 90; change (ch "a") with 97; change (ch "z") with 122;
    change (ch "0") with 48; change (ch "9") with 57.
  intros H.
  repeat match goal with
         | |- context [?a =? ?b] => destruct (Z.eqb_spec a b)
         | |- context [?a <? ?b] => destruct (Z.ltb_spec a b)
         end; cbn [orb]; repeat split; try reflexivity; exfalso;
    repeat match type of H with
           | context [?a =? ?b] => destruct (Z.eqb_spec a b)
           | context [?a <=? ?b] => destruct (Z.leb_spec a b)
           end; cbn in H; try discriminate; lia.
Qed.

Lemma language_law (tag : string) :
  forall n value (major : bool) l col lr b e k (sep : ascii) tl,
    (if major then langMajor tag else langMinor tag) = true ->
    isEnd sep = true ->
    (String.length tag < n)%nat ->
    parseLiteral_language n value major
      (mkReader l col (bufio.mk (tag ++ String sep tl) lr) b e k)
    = Some
        (if (String.length (b ++ tag) =? 0)%nat
         then (rdf.zero,
               Some (ParseError l (col + Z.of_nat (String.length tag) + 1)
                                ErrUnexpectedCharacter),
               mkReader l (col + Z.of_nat (String.length tag) + 1)
                        (bufio.mk tl (Some (String sep EmptyString)))
                        (b ++ tag) e k)
         else (rdf.LiteralWithLanguage value (b ++ tag), None,
               mkReader l (col + Z.of_nat (String.length tag) + 1 - 1)
                        (bufio.mk (String sep tl) None) (b ++ tag) e k)).
Proof.
  induction tag as [|x tag IH];
    intros n value major l col lr b e k sep tl Ht Hsep Hn;
    (destruct n as [|n]; [simpl in Hn; lia|]).
  - destruct (isEnd_ascii _ Hsep) as [Ha Hb].
    cbn [append String.length Z.of_nat parseLiteral_language].
    unfold bind at 1. unfold lift at 1.
    rewrite readRune_ascii by assumption. cbv beta iota.
    unfold isEnd in Hsep. rewrite Hsep.
    rewrite app_empty_r, Z.add_0_r.
    unfold bind, buf_empty, buf_String, gets, fail, wrap, ret, lift, unreadRune.
    cbn [buf line column r bufio.UnreadRune bufio.lastRune bufio.rest append].
    destruct (String.length b =? 0)%nat; reflexivity.
  - assert (Hx : (isAlpha (byteZ x) || isNumeral (byteZ x) || (byteZ x =? ch "-"))
                 = true).
    { destruct major; cbn [langMajor langMinor] in Ht.
      - destruct (isAlpha (byteZ x)); [reflexivity|].
        destruct (byteZ x =? ch "-"); [apply orb_true_r | discriminate].
      - apply andb_true_iff in Ht as [Ht _]. rewrite Ht. reflexivity. }
    destruct (tagchar_ascii _ Hx) as (Ha & Hb & Hc).
    cbn [append String.length parseLiteral_language].
    unfold bind at 1. unfold lift at 1.
    rewrite readRune_ascii by assumption. cbv beta iota.
    rewrite Hc.
    assert (Hlen : (String.length (b ++ String x tag) =? 0)%nat = false).
    { rewrite length_app_s. cbn [String.length]. apply Nat.eqb_neq. lia. }
    assert (Hlen' : forall s, (String.length ((b ++ String x EmptyString) ++ s) =? 0)%nat
                        = false).
    { intros s. rewrite !length_app_s. cbn [String.length]. apply Nat.eqb_neq. lia. }
    assert (Hw : utf8.EncodeRune (byteZ x) = String x EmptyString)
      by (apply EncodeRune_ascii; apply Z.ltb_lt in Ha; exact Ha).
    rewrite Hlen.
    destruct major; cbn [langMajor langMinor] in Ht.
    + destruct (isAlpha (byteZ x)).
      * unfold bind at 1. unfold WriteRune, modify, with_buf.
        cbn [line column r buf err q]. rewrite Hw.
        rewrite (IH n value true) by (try assumption; cbn [String.length] in Hn; lia).
        rewrite Hlen', app_cons_s.
        replace (col + 1 + Z.of_nat (String.length tag) + 1 - 1)
          with (col + Z.of_nat (S (String.length tag)) + 1 - 1) by lia.
        reflexivity.
      * destruct (byteZ x =? ch "-"); [|discriminate].
        unfold bind at 1. unfold WriteRune, modify, with_buf.
        cbn [line column r buf err q]. rewrite Hw.
        rewrite (IH n value false) by (try assumption; cbn [String.length] in Hn; lia).
        rewrite Hlen', app_cons_s.
        replace (col + 1 + Z.of_nat (String.length tag) + 1 - 1)
          with (col + Z.of_nat (S (String.length tag)) + 1 - 1) by lia.
        reflexivity.
    + apply andb_true_iff in Ht as [Ht Ht']. rewrite Ht.
      unfold bind at 1. unfold WriteRune, modify, with_buf.
      cbn [line column r buf err q]. rewrite Hw.
      rewrite (IH n value false) by (try assumption; cbn [String.length] in Hn; lia).
      rewrite Hlen', app_cons_s.
      replace (col + 1 + Z.of_nat (String.length tag) + 1 - 1)
        with (col + Z.of_nat (S (String.length tag)) + 1 - 1) by lia.
      reflexivity.
Qed.


Ltac bool_cases :=
  repeat match goal with
         | H : _ || _ = true |- _ => apply orb_true_iff in H as [H|H]
         | H : _ && _ = true |- _ => apply andb_true_iff in H as [? ?]
         | H : (_ <=? _) = true |- _ => apply Z.leb_le in H
         | H : (_ <? _) = true |- _ => apply Z.ltb_lt in H
         | H : (_ =? _) = true |- _ => apply Z.eqb_eq in H
         end.

Ltac chars :=
  change (ch "-") with 45 in *; change (ch "_") with 95 in *;
  change (ch ":") with 58 in *;
  change (ch "0") with 48 in *; change (ch "9") with 57 in *;
  change (ch "A") with 65 in *;
  change (ch "Z") with 90 in *; change (ch "a") with 97 in *;
  change (ch "z") with 122 in *;
  change (ch " ") with 32 in *; change (ch "009") with 9 in *;
  change (ch ".") with 46 in *;
  change (ch "013") with 13 in *.

(** Walk down a chain [if b1 then true else if b2 then true else ...]
    that is assumed to be [true]. *)
Ltac chain tac :=
  repeat match goal with
         | |- (if ?b then true else _) = true -> _ =>
           let E := fresh "E" in
           destruct b eqn:E; [intros _; tac | clear E]
         end;
  try (intros; discriminate).

Lemma isAlpha_range c :
  isAlpha c = true -> 65 <= c <= 90 \/ 97 <= c <= 122.
Proof. unfold isAlpha. intros H. chars. bool_cases; lia. Qed.

Lemma isNumeral_range c : isNumeral c = true -> 48 <= c <= 57.
Proof. unfold isNumeral. intros H. chars. bool_cases; lia. Qed.

Lemma isPnCharsBase_range c :
  isPnCharsBase c = true ->
  65 <= c <= 0xEFFFF /\ (c < 0xD800 \/ 0xDFFF < c).
Proof.
  unfold isPnCharsBase.
  chain ltac:(first [ apply isAlpha_range in E; lia | bool_cases; lia ]).
Qed.

Lemma isPnCharsU_range c :
  isPnCharsU c = true ->
  58 <= c <= 0xEFFFF /\ (c < 0xD800 \/ 0xDFFF < c).
Proof.
  unfold isPnCharsU.
  chain ltac:(first [ apply isPnCharsBase_range in E; lia
                    | chars; bool_cases; lia ]).
Qed.

Lemma isPnChars_range c :
  isPnChars c = true ->
  45 <= c <= 0xEFFFF /\ (c < 0xD800 \/ 0xDFFF < c) /\ c <> 46.
Proof.
  unfold isPnChars.
  chain ltac:(first [ apply isPnCharsU_range in E; lia
                    | apply isNumeral_range in E; lia
                    | chars; bool_cases; lia ]).
Qed.

Lemma isAlpha_isPnCharsBase c : isAlpha c = true -> isPnCharsBase c = true.
Proof. unfold isPnCharsBase. now intros ->. Qed.

Lemma isPnCharsBase_isPnCharsU c : isPnCharsBase c = true -> isPnCharsU c = true.
Proof. unfold isPnCharsU. intros ->. now destruct ((c =? ch "_") || (c =? ch ":")). Qed.

Lemma isPnCharsU_isPnChars c : isPnCharsU c = true -> isPnChars c = true.
Proof.
  unfold isPnChars. intros ->.
  destruct ((c =? ch "-") || (c =? 0x00B7)); [reflexivity|].
  now destruct (isNumeral c).
Qed.

Lemma isNumeral_isPnChars c : isNumeral c = true -> isPnChars c = true.
Proof.
  unfold isPnChars. intros ->.
  now destruct ((c =? ch "-") || (c =? 0x00B7)).
Qed.

Lemma isPnChars_facts c :
  isPnChars c = true ->
  scalar c /\ c <> ch "013" /\ isSpace c = false /\ (c =? ch ".") = false.
Proof.
  intros H. apply isPnChars_range in H. unfold scalar, isSpace. chars.
  repeat split; lia.
Qed.


Lemma parseBlankNode_loop_lr n l c lr b e k s :
  parseBlankNode_loop n (mkReader l c (bufio.mk s lr) b e k)
  = parseBlankNode_loop n (mkReader l c (bufio.mk s None) b e k).
Proof.
  destruct n; [reflexivity|]. cbn [parseBlankNode_loop].
  unfold bind at 1 3. unfold lift at 1 3. now rewrite readRune_lr.
Qed.

Lemma blank_label (cs : list rune) :
  forall n l col lr b e k (sep : ascii) tl,
    forallb isPnChars cs = true -> isSpace (byteZ sep) = true ->
    (List.length cs < n)%nat ->
    parseBlankNode_loop n
      (mkReader l col (bufio.mk (encode cs ++ String sep tl) lr) b e k)
    = Some ((rdf.Blank (b ++ encode cs), None),
            mkReader l (col + Z.of_nat (List.length cs) + 1)
                     (bufio.mk tl (Some (String sep EmptyString)))
                     (b ++ encode cs) e k).
Proof.
  induction cs as [|c cs IH]; intros n l col lr b e k sep tl Hc Hsep Hn;
    (destruct n as [|n]; [simpl in Hn; lia|]).
  - destruct (isSpace_ascii _ Hsep) as [Ha Hb].
    cbn [encode append List.length Z.of_nat parseBlankNode_loop].
    unfold bind at 1. unfold lift at 1.
    rewrite readRune_ascii by assumption. cbv beta iota.
    assert (Hp : isPnChars (byteZ sep) = false).
    { destruct (isPnChars (byteZ sep)) eqn:E; [|reflexivity].
      apply isPnChars_facts in E. destruct E as (_ & _ & E & _). congruence. }
    rewrite Hp, Hsep, app_empty_r, Z.add_0_r. reflexivity.
  - cbn [forallb] in Hc. apply andb_true_iff in Hc as [Hc Hcs].
    destruct (isPnChars_facts _ Hc) as (Hs & H13 & _).
    cbn [encode List.length parseBlankNode_loop]. rewrite app_assoc_s.
    unfold bind at 1. unfold lift at 1.
    rewrite readRune_encoded by assumption. cbv beta iota. rewrite Hc.
    unfold bind at 1. unfold WriteRune, modify, with_buf.
    cbn [line column r buf err q].
    rewrite IH by (try assumption; cbn [List.length] in Hn; lia).
    rewrite app_assoc_s.
    replace (col + 1 + Z.of_nat (List.length cs) + 1)
      with (col + Z.of_nat (S (List.length cs)) + 1) by lia.
    reflexivity.
Qed.

Lemma dtPlain_ascii (x : ascii) :
  dtPlain x = true ->
  (byteZ x <? utf8.RuneSelf) = true /\ (byteZ x =? ch "013") = false
  /\ (byteZ x =? ch ">") = false
  /\ ((byteZ x <? 0x20) || (0x7E <? byteZ x) || (byteZ x =? ch " ")
      || (byteZ x =? ch "<") || (byteZ x =? ch "034")) = false.
Proof.
  unfold dtPlain, utf8.RuneSelf. intros H.
  apply andb_true_iff in H as [H1 H2]. apply negb_true_iff in H1, H2.
  repeat split; try assumption.
  - change (ch " ") with 32 in *. lia.
  - change (ch " ") with 32 in *. change (ch "013") with 13. lia.
Qed.

Lemma datatype_law (dt : string) :
  forall n value l col lr b e k tl,
    all_bytes dtPlain dt = true ->
    (String.length dt < n)%nat ->
    parseLiteral_datatype n value
      (mkReader l col (bufio.mk (dt ++ String ">" tl) lr) b e k)
    = Some
        (if (String.length (b ++ dt) =? 0)%nat
         then (rdf.zero,
               Some (ParseError l (col + Z.of_nat (String.length dt) + 1)
                                ErrUnexpectedCharacter))
         else (rdf.LiteralWithDatatype value (b ++ dt), None),
         mkReader l (col + Z.of_nat (String.length dt) + 1)
                  (bufio.mk tl (Some (String ">" EmptyString))) (b ++ dt) e k).
Proof.
  induction dt as [|x dt IH]; intros n value l col lr b e k tl Hd Hn;
    (destruct n as [|n]; [simpl in Hn; lia|]).
  - cbn [append String.length Z.of_nat parseLiteral_datatype].
    unfold bind at 1. unfold lift at 1.
    rewrite readRune_ascii by reflexivity. cbv beta iota.
    change (byteZ ">" =? ch ">") with true. cbv iota.
    rewrite app_empty_r, Z.add_0_r.
    unfold bind, buf_empty, buf_String, gets, fail, wrap, ret.
    cbn [buf line column].
    destruct (String.length b =? 0)%nat; reflexivity.
  - cbn [all_bytes] in Hd. apply andb_true_iff in Hd as [Hx Hd].
    destruct (dtPlain_ascii _ Hx) as (Ha & Hb & Hc & He).
    cbn [append String.length parseLiteral_datatype].
    unfold bind at 1. unfold lift at 1.
    rewrite readRune_ascii by assumption. cbv beta iota.
    rewrite Hc, He.
    unfold bind at 1. unfold WriteRune, modify, with_buf.
    cbn [line column r buf err q].
    rewrite EncodeRune_ascii by (apply Z.ltb_lt in Ha; exact Ha).
    rewrite IH by (try assumption; cbn [String.length] in Hn; lia).
    rewrite app_cons_s.
    replace (col + 1 + Z.of_nat (String.length dt) + 1)
      with (col + Z.of_nat (S (String.length dt)) + 1) by lia.
    reflexivity.
Qed.


Lemma isBreak_false (y : ascii) :
  byteZ y <> 32 -> byteZ y <> 9 -> byteZ y <> 10 -> byteZ y <> 13 ->
  isBreak y = false.
Proof.
  intros H1 H2 H3 H4. unfold isBreak.
  assert (E : forall (a : ascii), byteZ y <> byteZ a -> Ascii.eqb y a = false).
  { intros a Hn. apply Ascii.eqb_neq. intros ->. apply Hn. reflexivity. }
  rewrite !E by assumption. reflexivity.
Qed.

(** The first byte of a rune of a label is none of the four that end a
    label behind a period. *)
Lemma labelRune_first (c : rune) :
  labelRune c = true ->
  exists y s, utf8.EncodeRune c = String y s /\ isBreak y = false.
Proof.
  unfold labelRune. intros H.
  assert (Hr : 45 <= c <= 0xEFFFF /\ (c < 0xD800 \/ 0xDFFF < c)).
  { apply orb_true_iff in H as [H|H].
    - apply isPnChars_range in H. lia.
    - change (ch ".") with 46 in H. lia. }
  destruct (Z.le_gt_cases c 0x7F) as [H1|H1].
  { rewrite EncodeRune_1 by lia. eexists _, _. split; [reflexivity|].
    apply isBreak_false; rewrite byteZ_Zbyte by lia; lia. }
  assert (Hdiv : forall d, 0 < d -> 0 <= c / d) by (intros; apply Z.div_pos; lia).
  destruct (Z.le_gt_cases c 0x7FF) as [H2|H2].
  { rewrite EncodeRune_2 by lia. eexists _, _. split; [reflexivity|].
    assert (c / 64 < 32) by (apply Z.div_lt_upper_bound; lia).
    pose proof (Hdiv 64 ltac:(lia)).
    apply isBreak_false; rewrite byteZ_Zbyte by lia; lia. }
  destruct (Z.le_gt_cases c 0xFFFF) as [H3|H3].
  { rewrite EncodeRune_3 by lia. eexists _, _. split; [reflexivity|].
    assert (c / 4096 < 16) by (apply Z.div_lt_upper_bound; lia).
    pose proof (Hdiv 4096 ltac:(lia)).
    apply isBreak_false; rewrite byteZ_Zbyte by lia; lia. }
  { rewrite EncodeRune_4 by lia. eexists _, _. split; [reflexivity|].
    assert (c / 262144 < 5) by (apply Z.div_lt_upper_bound; lia).
    pose proof (Hdiv 262144 ltac:(lia)).
    apply isBreak_false; rewrite byteZ_Zbyte by lia; lia. }
Qed.

(** One turn of the label loop on a period that belongs to the label. *)
Lemma period_inside n l col lr b e k (y : ascii) (s : string) :
  isBreak y = false ->
  parseBlankNode_loop (S n)
    (mkReader l col (bufio.mk (String "." (String y s)) lr) b e k)
  = parseBlankNode_loop n
      (mkReader l (col + 1 - 1 + 1)
                (bufio.mk (String y s) (Some (String "." EmptyString)))
                (b ++ String "." EmptyString) e k).
Proof.
  intros Hy. cbn [parseBlankNode_loop].
  unfold bind at 1. unfold lift at 1.
  rewrite readRune_ascii by reflexivity. cbv beta iota.
  change (isPnChars (byteZ ".")) with false.
  change (isSpace (byteZ ".")) with false.
  change (byteZ "." =? ch ".") with true. cbv iota.
  unfold bind at 1. unfold lift at 1. unfold unreadRune.
  cbn [r bufio.UnreadRune bufio.lastRune bufio.rest append].
  unfold with_column, with_r. cbn [line column r buf err q].
  unfold bind at 1. unfold lift at 1.
  cbn [r bufio.Peek bufio.rest String.length Nat.ltb Nat.leb take].
  unfold with_r. cbn [line column r buf err q String.get Nat.eqb].
  rewrite Hy.
  unfold bind at 1. unfold lift at 1.
  rewrite readRune_ascii by reflexivity. cbv beta iota.
  unfold bind at 1. unfold WriteRune, modify, with_buf.
  cbn [line column r buf err q]. reflexivity.
Qed.

Lemma period_outside n l col lr b e k (t rest : string) :
  label_end t rest true ->
  parseBlankNode_loop (S n) (mkReader l col (bufio.mk t lr) b e k)
  = Some ((rdf.Blank b, None),
          mkReader l (col + 1 - 1) (bufio.mk rest None) b e k).
Proof.
  intros Ht. inversion Ht as [| |y tl Hy]; subst; cbn [parseBlankNode_loop];
    unfold bind at 1; unfold lift at 1;
    rewrite readRune_ascii by reflexivity; cbv beta iota;
    change (isPnChars (byteZ ".")) with false;
    change (isSpace (byteZ ".")) with false;
    change (byteZ "." =? ch ".") with true; cbv iota;
    unfold bind at 1; unfold lift at 1; unfold unreadRune;
    cbn [r bufio.UnreadRune bufio.lastRune bufio.rest append];
    unfold with_column, with_r; cbn [line column r buf err q];
    unfold bind at 1; unfold lift at 1.
  - reflexivity.
  - cbn [r bufio.Peek bufio.rest String.length Nat.ltb Nat.leb take].
    unfold with_r. cbn [line column r buf err q String.get Nat.eqb].
    rewrite Hy. reflexivity.
Qed.

Lemma blank_label_general (cs : list rune) :
  forall n l col lr b e k (t rest : string) (dot : bool),
    forallb labelRune cs = true ->
    label_end t rest dot ->
    (dot = false -> endsInPeriod cs = false) ->
    (List.length cs < n)%nat ->
    exists col' lr',
      parseBlankNode_loop n
        (mkReader l col (bufio.mk (encode cs ++ t) lr) b e k)
      = Some ((rdf.Blank (b ++ encode cs), None),
              mkReader l col' (bufio.mk rest lr') (b ++ encode cs) e k).
Proof.
  induction cs as [|c cs IH]; intros n l col lr b e k t rest dot Hc Ht Hd Hn;
    (destruct n as [|n]; [simpl in Hn; lia|]).
  - cbn [encode append]. rewrite app_empty_r.
    destruct dot.
    + rewrite (period_outside _ _ _ _ _ _ _ _ _ Ht). eexists _, _. reflexivity.
    + inversion Ht as [sep tl Hsep| |]; subst.
      pose proof (blank_label [] (S n) l col lr b e k sep rest eq_refl Hsep)
        as E.
      cbn [encode append List.length] in E. rewrite app_empty_r in E.
      rewrite E by lia. eexists _, _. reflexivity.
  - cbn [forallb] in Hc. apply andb_true_iff in Hc as [Hc Hcs].
    cbn [encode List.length]. rewrite app_assoc_s.
    assert (Hd' : dot = false -> endsInPeriod cs = false).
    { intros Hf. specialize (Hd Hf). cbn [endsInPeriod] in Hd.
      destruct cs; [reflexivity | exact Hd]. }
    destruct (isPnChars c) eqn:Hp.
    + destruct (isPnChars_facts _ Hp) as (Hs & H13 & _).
      cbn [parseBlankNode_loop].
      unfold bind at 1. unfold lift at 1.
      rewrite readRune_encoded by assumption. cbv beta iota. rewrite Hp.
      unfold bind at 1. unfold WriteRune, modify, with_buf.
      cbn [line column r buf err q].
      destruct (IH n l (col + 1) (Some (utf8.EncodeRune c))
                   (b ++ utf8.EncodeRune c) e k t rest dot Hcs Ht Hd')
        as (col' & lr' & E); [cbn [List.length] in Hn; lia|].
      rewrite E. rewrite app_assoc_s. eexists _, _. reflexivity.
    + unfold labelRune in Hc. rewrite Hp in Hc. cbn [orb] in Hc.
      apply Z.eqb_eq in Hc. subst c.
      change (utf8.EncodeRune (ch ".")) with (String "." EmptyString).
      cbn [append].
      (* the byte behind the period *)
      assert (Hnext : exists y s, (encode cs ++ t)%string = String y s
                                  /\ isBreak y = false).
      { destruct cs as [|c' cs'].
        - cbn [encode append]. destruct dot.
          + inversion Ht; subst; eexists _, _; split; reflexivity.
          + specialize (Hd eq_refl). discriminate Hd.
        - cbn [forallb] in Hcs. apply andb_true_iff in Hcs as [Hc' _].
          destruct (labelRune_first c' Hc') as (y & s & Ey & Hy).
          cbn [encode]. rewrite Ey. cbn [append].
          eexists _, _; split; [reflexivity | exact Hy]. }
      destruct Hnext as (y & s & Ey & Hy). rewrite Ey.
      rewrite (period_inside _ _ _ _ _ _ _ _ _ Hy). rewrite <- Ey.
      destruct (IH n l (col + 1 - 1 + 1) (Some (String "." EmptyString))
                   (b ++ String "." EmptyString) e k t rest dot Hcs Ht Hd')
        as (col' & lr' & E); [cbn [List.length] in Hn; lia|].
      rewrite E. rewrite app_assoc_s. eexists _, _. reflexivity.
Qed.

Lemma parseBlankNode_general l col lr b e k (c : rune) (cs : list rune)
        (t rest : string) (dot : bool) :
  (isPnCharsU c || isNumeral c) = true -> forallb labelRune cs = true ->
  label_end t rest dot -> (dot = false -> endsInPeriod cs = false) ->
  exists col' lr',
    parseBlankNode
      (mkReader l col
         (bufio.mk (String ":" (encode (c :: cs) ++ t)) lr) b e k)
    = Some ((rdf.Blank (b ++ encode (c :: cs)), None),
            mkReader l col' (bufio.mk rest lr') (b ++ encode (c :: cs)) e k).
Proof.
  intros Hc Hcs Ht Hd.
  assert (Hp : isPnChars c = true).
  { apply orb_true_iff in Hc as [Hc|Hc];
      [now apply isPnCharsU_isPnChars | now apply isNumeral_isPnChars]. }
  destruct (isPnChars_facts _ Hp) as (Hs & H13 & _).
  unfold parseBlankNode. unfold bind at 1. unfold lift at 1.
  rewrite readRune_ascii by reflexivity. cbv beta iota.
  change (negb (byteZ ":" =? ch ":")) with false. cbv iota.
  cbn [encode]. rewrite app_assoc_s.
  unfold bind at 1. unfold lift at 1.
  rewrite readRune_encoded by assumption. cbv beta iota.
  rewrite Hc. cbn [negb].
  unfold bind at 1. unfold WriteRune, modify, with_buf.
  cbn [line column r buf err q].
  unfold with_fuel, fuel_of. cbn [r bufio.rest].
  pose proof (encode_length cs) as Hl.
  destruct (blank_label_general cs (S (String.length (encode cs ++ t)))
              l (col + 1 + 1) (Some (utf8.EncodeRune c))
              (b ++ utf8.EncodeRune c) e k t rest dot Hcs Ht Hd)
    as (col' & lr' & E); [rewrite length_app_s; lia|].
  rewrite E, app_assoc_s. eexists _, _. reflexivity.
Qed.


Lemma isEnd_cases (x : ascii) :
  isEnd x = true ->
  ((byteZ x =? ch ".") || (byteZ x =? ch " ") || (byteZ x =? ch "009")) = true
  /\ (byteZ x =? ch "@") = false /\ (byteZ x =? ch "^") = false.
Proof.
  unfold isEnd, isSpace. chars. change (ch "@") with 64. change (ch "^") with 94.
  intros H. lia.
Qed.

Lemma parseLiteral_items l col lr b e k (its : list item) (cs : list rune)
        (sfx : suffix) (sep : ascii) (tl : string) :
  Forall2 litItem its cs -> suffix_ok sfx = true -> isEnd sep = true ->
  exists col' lr' b',
    parseLiteral
      (mkReader l col
         (bufio.mk (text its ++ dq ++ suffix_text sfx ++ String sep tl) lr)
         b e k)
    = Some ((literal (b ++ encode cs) sfx, None),
            mkReader l col' (bufio.mk (String sep tl) lr') b' e k).
Proof.
  intros Hf Hok Hsep. unfold parseLiteral, with_fuel, fuel_of. cbn [r bufio.rest].
  pose proof (text_length its) as Hl.
  rewrite (literal_items its cs) by (try assumption; rewrite length_app_s; lia).
  rewrite length_app_s. unfold dq. cbn [append String.length].
  replace (S (String.length (text its)
              + S (String.length (suffix_text sfx ++ String sep tl)))
           - List.length its)%nat
    with (S (S (String.length (text its)
                + String.length (suffix_text sfx ++ String sep tl))
             - List.length its))%nat by lia.
  cbn [parseLiteral_loop]. unfold bind at 1. unfold lift at 1.
  rewrite readRune_ascii by reflexivity. cbv beta iota.
  change (byteZ "034" =? ch "034") with true. cbv iota.
  destruct (isEnd_ascii _ Hsep) as [Ha Hb].
  destruct (isEnd_cases _ Hsep) as (Hc & Hd & He).
  unfold parseLiteral_suffix.
  destruct sfx as [|tag|dt]; cbn [suffix_text suffix_ok literal append] in *.
  - unfold bind at 1. unfold lift at 1.
    rewrite readRune_ascii by assumption. cbv beta iota. rewrite Hc.
    unfold bind, lift, unreadRune, buf_String, gets, ret.
    cbn [r bufio.UnreadRune bufio.lastRune bufio.rest append buf].
    eexists _, _, _. reflexivity.
  - apply andb_true_iff in Hok as [Hne Hok]. apply negb_true_iff in Hne.
    unfold bind at 1. unfold lift at 1.
    rewrite readRune_ascii by reflexivity. cbv beta iota.
    change ((byteZ "@" =? ch ".") || (byteZ "@" =? ch " ")
            || (byteZ "@" =? ch "009")) with false.
    change (byteZ "@" =? ch "@") with true. cbv iota.
    unfold bind at 1. unfold buf_String at 1. unfold gets at 1.
    unfold bind at 1. unfold Reset, modify, with_buf.
    cbn [line column r buf err q].
    unfold with_fuel, fuel_of. cbn [r bufio.rest].
    rewrite (language_law tag _ _ true)
      by (try assumption; rewrite length_app_s; cbn [String.length]; lia).
    cbn [append]. rewrite Hne.
    eexists _, _, _. reflexivity.
  - apply andb_true_iff in Hok as [Hne Hok]. apply negb_true_iff in Hne.
    unfold bind at 1. unfold lift at 1.
    rewrite readRune_ascii by reflexivity. cbv beta iota.
    change ((byteZ "^" =? ch ".") || (byteZ "^" =? ch " ")
            || (byteZ "^" =? ch "009")) with false.
    change (byteZ "^" =? ch "@") with false.
    change (byteZ "^" =? ch "^") with true. cbv iota.
    unfold bind at 1. unfold buf_String at 1. unfold gets at 1.
    unfold bind at 1. unfold Reset, modify, with_buf.
    cbn [line column r buf err q].
    unfold bind at 1. unfold lift at 1.
    rewrite readRune_ascii by reflexivity. cbv beta iota.
    change (negb (byteZ "^" =? ch "^")) with false. cbv iota.
    unfold bind at 1. unfold lift at 1.
    rewrite readRune_ascii by reflexivity. cbv beta iota.
    change (negb (byteZ "<" =? ch "<")) with false. cbv iota.
    unfold with_fuel, fuel_of. cbn [r bufio.rest].
    rewrite app_assoc_s. cbn [append].
    rewrite (datatype_law dt)
      by (try assumption; rewrite length_app_s; cbn [String.length]; lia).
    cbn [append]. rewrite Hne.
    eexists _, _, _. reflexivity.
Qed.


Lemma blanks_app (a b : string) :
  blanks a = true -> blanks b = true -> blanks (a ++ b) = true.
Proof.
  induction a as [|x a IH]; cbn [blanks append]; [auto|].
  intros H Hb. apply andb_true_iff in H as [H1 H2].
  rewrite H1. cbn [andb]. auto.
Qed.

Lemma encode_nonempty (cs : list rune) :
  cs <> [] -> (String.length (encode cs) =? 0)%nat = false.
Proof.
  destruct cs as [|c cs]; [congruence|]. intros _. cbn [encode].
  rewrite length_app_s. pose proof (EncodeRune_nonempty c).
  destruct (utf8.EncodeRune c); [congruence|]. reflexivity.
Qed.

(** After [Reset] and [skipWhitespace], what each term lexer does on the
    rest of a text. *)
Lemma skip_to (ws : string) (x : ascii) (tl : string) l col lr b e k :
  blanks ws = true ->
  byteZ x < 128 -> byteZ x <> ch "013" -> isSpace (byteZ x) = false ->
  skipWhitespace (mkReader l col (bufio.mk (ws ++ String x tl) lr) b e k)
  = Some ((byteZ x, None),
          mkReader l (col + Z.of_nat (String.length ws) + 1)
                   (bufio.mk tl (Some (String x EmptyString))) b e k).
Proof.
  intros Hw H1 H2 H3.
  now apply (proj1 (skipWhitespace_run l col lr b e k ws Hw)).
Qed.

Lemma lexes_term_IRI_or_blank (s : string) (t : rdf.Term) (ws tl : string) :
  writes s t -> rdf.Kind t <> rdf.LiteralTerm -> blanks ws = true ->
  lexes parseIriOrBlankNode (ws ++ s ++ String " " tl) (t, None) tl
  /\ lexes parseAnyTerm (ws ++ s ++ String " " tl) (t, None) tl
  /\ lexes parseIriOrBlankNodeOrEndTriple (ws ++ s ++ String " " tl)
           (false, t, None) tl.
Proof.
  intros Hw Hk Hws.
  destruct Hw as [its cs Hf Hne | c cs Hc Hcs Hdot | its cs sfx Hf Hok].
  - pose proof (encode_nonempty cs Hne) as Hlen.
    repeat split; intros l col lr b e k;
      [unfold parseIriOrBlankNode | unfold parseAnyTerm
       | unfold parseIriOrBlankNodeOrEndTriple];
      unfold bind at 1; unfold Reset, modify, with_buf;
      cbn [line column r buf err q append];
      unfold bind at 1; rewrite skip_to by (try assumption; try reflexivity; discriminate);
      cbv beta iota;
      change (byteZ "<" =? ch "<") with true; cbv iota;
      rewrite app_assoc_s; cbn [append];
      try (unfold bind at 1);
      rewrite (parseIRI_items _ _ _ _ _ _ its cs) by assumption;
      cbn [append]; rewrite Hlen;
      exists (col + Z.of_nat (String.length ws) + 1 + width its + 1),
             (Some (String ">" EmptyString)), (encode cs), (String " " EmptyString);
      (split; [reflexivity|]); reflexivity.
  - assert (Hend : label_end (String " " tl) tl false)
      by (apply le_space; reflexivity).
    repeat split; intros l col lr b e k;
      [unfold parseIriOrBlankNode | unfold parseAnyTerm
       | unfold parseIriOrBlankNodeOrEndTriple];
      unfold bind at 1; unfold Reset, modify, with_buf;
      cbn [line column r buf err q append];
      unfold bind at 1; rewrite skip_to by (try assumption; try reflexivity; discriminate);
      cbv beta iota;
      change (byteZ "_" =? ch "<") with false;
      change (byteZ "_" =? ch "_") with true; cbv iota;
      try (unfold bind at 1);
      destruct (parseBlankNode_general l (col + Z.of_nat (String.length ws) + 1)
                  (Some (String "_" EmptyString)) EmptyString e k c cs
                  (String " " tl) tl false Hc Hcs Hend (fun _ => Hdot))
        as (col' & lr' & E);
      rewrite E; cbn [append];
      exists col', lr', (encode (c :: cs)), EmptyString;
      (split; [reflexivity|]); reflexivity.
  - exfalso. apply Hk. destruct sfx; reflexivity.
Qed.


Lemma lexes_term_literal (s : string) (t : rdf.Term) (ws tl : string) :
  writes s t -> rdf.Kind t = rdf.LiteralTerm -> blanks ws = true ->
  lexes parseAnyTerm (ws ++ s ++ String " " tl) (t, None) tl.
Proof.
  intros Hw Hk Hws.
  destruct Hw as [its cs Hf Hne | c cs Hc Hcs Hdot | its cs sfx Hf Hok];
    [discriminate Hk | discriminate Hk |].
  intros l col lr b e k. unfold parseAnyTerm.
  unfold bind at 1; unfold Reset, modify, with_buf.
  cbn [line column r buf err q]. unfold dq at 1. cbn [append].
  unfold bind at 1; rewrite skip_to by (try assumption; try reflexivity; discriminate).
  cbv beta iota.
  change (byteZ "034" =? ch "<") with false;
    change (byteZ "034" =? ch "_") with false;
    change (byteZ "034" =? ch "034") with true; cbv iota.
  rewrite !app_assoc_s.
  destruct (parseLiteral_items l (col + Z.of_nat (String.length ws) + 1)
              (Some (String "034" EmptyString)) EmptyString e k
              its cs sfx " " tl Hf Hok eq_refl) as (col' & lr' & b' & E).
  rewrite E. cbn [append].
  exists col', lr', b', (String " " EmptyString). split; reflexivity.
Qed.

Lemma lexes_term_any (s : string) (t : rdf.Term) (ws tl : string) :
  writes s t -> blanks ws = true ->
  lexes parseAnyTerm (ws ++ s ++ String " " tl) (t, None) tl.
Proof.
  intros Hw Hws.
  destruct (rdf.Kind t) eqn:Hk;
    try (apply lexes_term_IRI_or_blank; [assumption | congruence | assumption]).
  now apply lexes_term_literal.
Qed.

Lemma end_of_triple (ws tl : string) l col lr b e k :
  blanks ws = true ->
  exists col' lr' b',
    parseIriOrBlankNodeOrEndTriple
      (mkReader l col (bufio.mk (ws ++ String "." tl) lr) b e k)
    = Some ((true, rdf.zero, None), mkReader l col' (bufio.mk tl lr') b' e k).
Proof.
  intros Hws. unfold parseIriOrBlankNodeOrEndTriple.
  unfold bind at 1; unfold Reset, modify, with_buf.
  cbn [line column r buf err q].
  unfold bind at 1; rewrite skip_to by (try assumption; try reflexivity; discriminate).
  cbv beta iota. eexists _, _, _. reflexivity.
Qed.

Lemma readEndQuad_period (ws tl : string) l col lr b e k :
  blanks ws = true ->
  exists col' lr' b',
    readEndQuad (mkReader l col (bufio.mk (ws ++ String "." tl) lr) b e k)
    = Some (None, mkReader l col' (bufio.mk tl lr') b' e k).
Proof.
  intros Hws. unfold readEndQuad.
  unfold bind at 1; rewrite skip_to by (try assumption; try reflexivity; discriminate).
  cbv beta iota. eexists _, _, _. reflexivity.
Qed.

Lemma readRune_CRLF l col lr b e k tl :
  readRune (mkReader l col (bufio.mk (String "013" (String "010" tl)) lr) b e k)
  = readRune (mkReader l col (bufio.mk (String "010" tl) lr) b e k).
Proof. reflexivity. Qed.

Lemma skipWhitespace_loop_CRLF (ws : string) :
  forall n l col lr b e k tl,
    blanks ws = true ->
    skipWhitespace_loop n (ch " ")
      (mkReader l col (bufio.mk (ws ++ String "013" (String "010" tl)) lr) b e k)
    = skipWhitespace_loop n (ch " ")
        (mkReader l col (bufio.mk (ws ++ String "010" tl) lr) b e k).
Proof.
  induction ws as [|w ws IH]; intros n l col lr b e k tl Hw;
    (destruct n as [|n]; [reflexivity|]); cbn [skipWhitespace_loop append];
    change (isSpace (ch " ")) with true; cbv iota.
  - unfold bind, lift. now rewrite readRune_CRLF.
  - cbn [blanks] in Hw. apply andb_true_iff in Hw as [Hw Hws].
    destruct (isSpace_ascii _ Hw) as [Ha Hb].
    unfold bind, lift. rewrite !readRune_ascii by assumption.
    cbv beta iota.
    assert (E : forall m rd, skipWhitespace_loop m (byteZ w) rd
                             = skipWhitespace_loop m (ch " ") rd).
    { intros m rd. destruct m; cbn [skipWhitespace_loop]; rewrite Hw; reflexivity. }
    rewrite !E. now apply IH.
Qed.

Lemma skip_to_CRLF (ws : string) (tl : string) l col lr b e k :
  blanks ws = true ->
  skipWhitespace
    (mkReader l col (bufio.mk (ws ++ String "013" (String "010" tl)) lr) b e k)
  = Some ((ch "010", None),
          mkReader l (col + Z.of_nat (String.length ws) + 1)
                   (bufio.mk tl (Some (String "010" EmptyString))) b e k).
Proof.
  intros Hw. destruct ws as [|w ws].
  - cbn [String.length Z.of_nat]. rewrite Z.add_0_r. reflexivity.
  - cbn [blanks] in Hw. apply andb_true_iff in Hw as [Hw Hws].
    destruct (isSpace_ascii _ Hw) as [Ha Hb].
    cbn [append String.length]. unfold skipWhitespace, bind, lift.
    rewrite readRune_ascii by assumption. cbv beta iota.
    unfold with_fuel, fuel_of. cbn [r bufio.rest].
    assert (E : forall m rd, skipWhitespace_loop m (byteZ w) rd
                             = skipWhitespace_loop m (ch " ") rd).
    { intros m rd. destruct m; cbn [skipWhitespace_loop]; rewrite Hw; reflexivity. }
    rewrite E, skipWhitespace_loop_CRLF by assumption.
    rewrite (skipWhitespace_loop_blanks ws _ _ _ _ _ _ _ "010")
      by (try assumption; try reflexivity;
          rewrite length_app_s; cbn [String.length]; lia).
    replace (col + 1 + Z.of_nat (String.length ws) + 1)
      with (col + Z.of_nat (S (String.length ws)) + 1) by lia.
    reflexivity.
Qed.

Lemma lead_bounds p0 sz lo hi :
  utf8.lead p0 = Some (sz, lo, hi) -> 128 <= lo /\ (2 <= sz <= 4)%nat.
Proof.
  unfold utf8.lead.
  repeat match goal with
         | |- context [if ?b then _ else _] => destruct b
         end; intros [= <- <- <-]; lia.
Qed.

(** A multi-byte sequence never reaches over a line feed or the end of the
    input. *)
Lemma DecodeRune_stops (x : ascii) (cm t : string) :
  cut t -> all_bytes notLF cm = true ->
  exists cm2,
    drop (snd (utf8.DecodeRune (String x (cm ++ t)))) (String x (cm ++ t))
    = (cm2 ++ t)%string
    /\ all_bytes notLF cm2 = true
    /\ (String.length cm2 <= String.length cm)%nat.
Proof.
  intros Ht Hcm.
  assert (H1 : drop 1 (String x (cm ++ t)) = (cm ++ t)%string) by reflexivity.
  assert (Done1 : exists cm2,
             drop 1 (String x (cm ++ t)) = (cm2 ++ t)%string
             /\ all_bytes notLF cm2 = true
             /\ (String.length cm2 <= String.length cm)%nat)
    by (exists cm; auto).
  unfold utf8.DecodeRune. cbn [list_ascii_of_string map].
  destruct (utf8.lead (byteZ x)) as [[[sz lo] hi]|] eqn:El; [|exact Done1].
  destruct (lead_bounds _ _ _ _ El) as [Hlo Hsz].
  (* the bytes behind [x], one at a time *)
  assert (Hfirst : forall (s : string),
             cut s ->
             match map byteZ (list_ascii_of_string s) with
             | [] => True
             | b1 :: _ => b1 = 10
             end).
  { intros s [->|[r' ->]]; cbn; auto. }
  destruct sz as [|[|[|[|[|sz]]]]]; try lia.
  - (* two bytes *)
    destruct cm as [|y cm]; cbn [append list_ascii_of_string map].
    + pose proof (Hfirst t Ht) as Hf.
      destruct (map byteZ (list_ascii_of_string t)) as [|b1 ps]; [exact Done1|].
      subst b1. destruct (Z.leb_spec lo 10); [lia|]. cbn [andb]. exact Done1.
    + destruct ((lo <=? byteZ y) && (byteZ y <=? hi)); [|exact Done1].
      cbn [snd drop]. cbn [all_bytes] in Hcm.
      apply andb_true_iff in Hcm as [_ Hcm].
      exists cm. repeat split; auto. cbn [String.length]. lia.
  - (* three bytes *)
    destruct cm as [|y cm]; cbn [append list_ascii_of_string map].
    + pose proof (Hfirst t Ht) as Hf.
      destruct (map byteZ (list_ascii_of_string t)) as [|b1 [|b2 ps]];
        try exact Done1.
      subst b1. destruct (Z.leb_spec lo 10); [lia|]. cbn [andb]. exact Done1.
    + cbn [all_bytes] in Hcm. apply andb_true_iff in Hcm as [_ Hcm].
      destruct cm as [|z cm]; cbn [append list_ascii_of_string map].
      * pose proof (Hfirst t Ht) as Hf.
        destruct (map byteZ (list_ascii_of_string t)) as [|b2 ps];
          [exact Done1|].
        subst b2. unfold utf8.cont. change (128 <=? 10) with false.
        rewrite andb_false_r. exact Done1.
      * destruct ((lo <=? byteZ y) && (byteZ y <=? hi) && utf8.cont (byteZ z));
          [|exact Done1].
        cbn [snd drop]. cbn [all_bytes] in Hcm.
        apply andb_true_iff in Hcm as [_ Hcm].
        exists cm. repeat split; auto. cbn [String.length]. lia.
  - (* four bytes *)
    destruct cm as [|y cm]; cbn [append list_ascii_of_string map].
    + pose proof (Hfirst t Ht) as Hf.
      destruct (map byteZ (list_ascii_of_string t)) as [|b1 [|b2 [|b3 ps]]];
        try exact Done1.
      subst b1. destruct (Z.leb_spec lo 10); [lia|]. cbn [andb]. exact Done1.
    + cbn [all_bytes] in Hcm. apply andb_true_iff in Hcm as [_ Hcm].
      destruct cm as [|z cm]; cbn [append list_ascii_of_string map].
      * pose proof (Hfirst t Ht) as Hf.
        destruct (map byteZ (list_ascii_of_string t)) as [|b2 [|b3 ps]];
          try exact Done1.
        subst b2. unfold utf8.cont. change (128 <=? 10) with false.
        rewrite andb_false_r. exact Done1.
      * cbn [all_bytes] in Hcm. apply andb_true_iff in Hcm as [_ Hcm].
        destruct cm as [|w cm]; cbn [append list_ascii_of_string map].
        -- pose proof (Hfirst t Ht) as Hf.
           destruct (map byteZ (list_ascii_of_string t)) as [|b3 ps];
             [exact Done1|].
           subst b3. unfold utf8.cont. change (128 <=? 10) with false.
           rewrite !andb_false_r. exact Done1.
        -- destruct ((lo <=? byteZ y) && (byteZ y <=? hi) && utf8.cont (byteZ z)
                     && utf8.cont (byteZ w)); [|exact Done1].
           cbn [snd drop]. cbn [all_bytes] in Hcm.
           apply andb_true_iff in Hcm as [_ Hcm].
           exists cm. repeat split; auto. cbn [String.length]. lia.
Qed.


(** One [readRune] inside a line: it yields a rune other than a line
    feed and stays inside the line, or it reads the carriage return and
    the line feed that end the line, or it reaches the end of the input. *)
Lemma readRune_in_line (x : ascii) (cm t : string) l col lr b e k :
  cut t -> notLF x = true -> all_bytes notLF cm = true ->
  (exists c cm2 lr',
      readRune (mkReader l col (bufio.mk (String x (cm ++ t)) lr) b e k)
      = ((c, None), mkReader l (col + 1) (bufio.mk (cm2 ++ t) lr') b e k)
      /\ c <> ch "010" /\ all_bytes notLF cm2 = true
      /\ (String.length cm2 <= String.length cm)%nat)
  \/ (exists rest,
         t = String "010" rest
         /\ readRune (mkReader l col (bufio.mk (String x (cm ++ t)) lr) b e k)
            = ((ch "010", None),
               mkReader l (col + 1)
                        (bufio.mk rest (Some (String "010" EmptyString))) b e k))
  \/ (t = EmptyString
      /\ exists c,
         readRune (mkReader l col (bufio.mk (String x (cm ++ t)) lr) b e k)
         = ((c, Some EOF),
            mkReader l (col + 1) (bufio.mk EmptyString None) b e k)).
Proof.
  intros Ht Hx Hcm. unfold notLF in Hx. apply negb_true_iff in Hx.
  apply Z.eqb_neq in Hx. change (ch "010") with 10 in *.
  destruct (Z.eq_dec (byteZ x) 13) as [E13|N13].
  - (* a carriage return *)
    assert (Ex : x = "013"%char).
    { rewrite <- (ascii_N_embedding x). unfold byteZ in E13.
      replace (N_of_ascii x) with 13%N by lia. reflexivity. }
    subst x. clear E13 Hx.
    destruct cm as [|y cm]; cbn [append].
    + destruct Ht as [->|[rest ->]].
      * right; right. split; [reflexivity|]. eexists. reflexivity.
      * right; left. exists rest. split; reflexivity.
    + left. cbn [all_bytes] in Hcm. apply andb_true_iff in Hcm as [Hy Hcm].
      unfold notLF in Hy. apply negb_true_iff in Hy. apply Z.eqb_neq in Hy.
      exists 13, (String y cm), None. split; [|repeat split].
      * apply (readRune_lone_CR l col lr b e k y (cm ++ t)). exact Hy.
      * discriminate.
      * cbn [all_bytes]. apply andb_true_iff. split; [|exact Hcm].
        unfold notLF. apply negb_true_iff. now apply Z.eqb_neq.
      * apply Nat.le_refl.
  - left. destruct (Z.lt_ge_cases (byteZ x) 128) as [Hlt|Hge].
    + exists (byteZ x), cm, (Some (String x EmptyString)).
      split; [|repeat split; auto].
      apply readRune_ascii; [now apply Z.ltb_lt | now apply Z.eqb_neq].
    + destruct (DecodeRune_stops x cm t Ht Hcm) as (cm2 & Ed & Hcm2 & Hl).
      pose proof (DecodeRune_ge (String x (cm ++ t))) as Hc.
      destruct (utf8.DecodeRune (String x (cm ++ t))) as [c sz] eqn:Edec.
      cbn [fst snd] in *.
      exists c, cm2, (Some (take sz (String x (cm ++ t)))).
      split; [|repeat split; auto; lia].
      unfold readRune. cbn [r].
      rewrite (ReadRune_multi x (cm ++ t) lr c sz Hge Edec).
      destruct (Z.eqb_spec c (ch "013")) as [E|_];
        [change (ch "013") with 13 in E; lia|].
      rewrite Ed. reflexivity.
Qed.


Lemma skipRestOfLine_loop_LF (n : nat) :
  forall (cm rest : string) r1 l col lr b e k,
    r1 <> ch "010" -> all_bytes notLF cm = true ->
    (String.length cm < n)%nat ->
    skipRestOfLine_loop n r1
      (mkReader l col (bufio.mk (cm ++ String "010" rest) lr) b e k)
    = Some ((ch "010", None),
            mkReader (l + 1) 0
                     (bufio.mk rest (Some (String "010" EmptyString))) b e k).
Proof.
  induction n as [|n IH]; intros cm rest r1 l col lr b e k Hr Hcm Hn; [lia|].
  assert (Exit : forall m l col lr,
             skipRestOfLine_loop m (ch "010")
               (mkReader l col (bufio.mk rest lr) b e k)
             = Some ((ch "010", None),
                     mkReader (l + 1) 0 (bufio.mk rest lr) b e k)).
  { intros m l0 col0 lr0. destruct m; reflexivity. }
  cbn [skipRestOfLine_loop].
  destruct (Z.eqb_spec r1 (ch "010")) as [|_]; [contradiction|]. cbn [negb].
  unfold bind at 1. unfold lift at 1.
  destruct cm as [|x cm]; cbn [append].
  - rewrite readRune_ascii by reflexivity. cbv beta iota. apply Exit.
  - cbn [all_bytes] in Hcm. apply andb_true_iff in Hcm as [Hx Hcm].
    destruct (readRune_in_line x cm (String "010" rest) l col lr b e k
                (or_intror (ex_intro _ rest eq_refl)) Hx Hcm)
      as [(c & cm2 & lr' & E & Hc & Hcm2 & Hl)
         |[(rest' & Er & E)|(Ee & _)]]; [| |discriminate Ee].
    + rewrite E. cbv beta iota.
      apply IH; auto. cbn [String.length] in Hn. lia.
    + injection Er as <-. rewrite E. cbv beta iota. apply Exit.
Qed.

Lemma skipRestOfLine_loop_EOF (n : nat) :
  forall (cm : string) r1 l col lr b e k,
    r1 <> ch "010" -> all_bytes notLF cm = true ->
    (String.length cm < n)%nat ->
    exists c col',
      skipRestOfLine_loop n r1 (mkReader l col (bufio.mk cm lr) b e k)
      = Some ((c, Some EOF),
              mkReader l col' (bufio.mk EmptyString None) b e k).
Proof.
  induction n as [|n IH]; intros cm r1 l col lr b e k Hr Hcm Hn; [lia|].
  cbn [skipRestOfLine_loop].
  destruct (Z.eqb_spec r1 (ch "010")) as [|_]; [contradiction|]. cbn [negb].
  unfold bind at 1. unfold lift at 1.
  destruct cm as [|x cm].
  - rewrite readRune_EOF. eexists _, _. reflexivity.
  - cbn [all_bytes] in Hcm. apply andb_true_iff in Hcm as [Hx Hcm].
    destruct (readRune_in_line x cm EmptyString l col lr b e k
                (or_introl eq_refl) Hx Hcm)
      as [(c & cm2 & lr' & E & Hc & Hcm2 & Hl)
         |[(rest' & Er & _)|(_ & c & E)]]; [| discriminate Er |].
    + rewrite !app_empty_r in E. rewrite E. cbv beta iota.
      apply IH; auto. cbn [String.length] in Hn. lia.
    + rewrite !app_empty_r in E. rewrite E. eexists _, _. reflexivity.
Qed.

(** The rest of a comment line, from behind the number sign. *)
Lemma skipRestOfLine_LF (cm rest : string) l col lr b e k :
  all_bytes notLF cm = true ->
  skipRestOfLine (mkReader l col (bufio.mk (cm ++ String "010" rest) lr) b e k)
  = Some ((ch "010", None),
          mkReader (l + 1) 0
                   (bufio.mk rest (Some (String "010" EmptyString))) b e k).
Proof.
  intros Hcm. unfold skipRestOfLine. unfold bind at 1. unfold lift at 1.
  destruct cm as [|x cm]; cbn [append].
  - rewrite readRune_ascii by reflexivity. cbv beta iota.
    unfold with_fuel. cbn [fuel_of skipRestOfLine_loop]. reflexivity.
  - cbn [all_bytes] in Hcm. apply andb_true_iff in Hcm as [Hx Hcm].
    destruct (readRune_in_line x cm (String "010" rest) l col lr b e k
                (or_intror (ex_intro _ rest eq_refl)) Hx Hcm)
      as [(c & cm2 & lr' & E & Hc & Hcm2 & Hl)
         |[(rest' & Er & E)|(Ee & _)]]; [| |discriminate Ee].
    + rewrite E. cbv beta iota. unfold with_fuel, fuel_of. cbn [r bufio.rest].
      apply skipRestOfLine_loop_LF; auto.
      rewrite length_app_s. cbn [String.length]. lia.
    + injection Er as <-. rewrite E. cbv beta iota.
      unfold with_fuel. cbn [fuel_of skipRestOfLine_loop]. reflexivity.
Qed.

Lemma skipRestOfLine_EOF (cm : string) l col lr b e k :
  all_bytes notLF cm = true ->
  exists c col',
    skipRestOfLine (mkReader l col (bufio.mk cm lr) b e k)
    = Some ((c, Some EOF), mkReader l col' (bufio.mk EmptyString None) b e k).
Proof.
  intros Hcm. unfold skipRestOfLine. unfold bind at 1. unfold lift at 1.
  destruct cm as [|x cm].
  - rewrite readRune_EOF. eexists _, _. reflexivity.
  - cbn [all_bytes] in Hcm. apply andb_true_iff in Hcm as [Hx Hcm].
    destruct (readRune_in_line x cm EmptyString l col lr b e k
                (or_introl eq_refl) Hx Hcm)
      as [(c & cm2 & lr' & E & Hc & Hcm2 & Hl)
         |[(rest' & Er & _)|(_ & c & E)]]; [| discriminate Er |].
    + rewrite !app_empty_r in E. rewrite E. cbv beta iota.
      unfold with_fuel, fuel_of. cbn [r bufio.rest].
      apply skipRestOfLine_loop_EOF; auto.
    + rewrite !app_empty_r in E. rewrite E. eexists _, _. reflexivity.
Qed.


Lemma expectCommentOrEndOfLine_ends (eol rest : string) d l col lr b e k :
  ends eol rest d ->
  exists col' lr' b',
    expectCommentOrEndOfLine (mkReader l col (bufio.mk eol lr) b e k)
    = Some (None, mkReader (l + d) col' (bufio.mk rest lr') b' e k).
Proof.
  intros [ws Hw | ws r' Hw | ws r' Hw | ws cm r' Hw Hcm | ws cm Hw Hcm];
    unfold expectCommentOrEndOfLine; unfold bind at 1; rewrite ?Z.add_0_r.
  - rewrite (proj2 (skipWhitespace_run l col lr b e k ws Hw)).
    eexists _, _, _. reflexivity.
  - rewrite skip_to by (try assumption; try reflexivity; discriminate).
    eexists _, _, _. reflexivity.
  - rewrite skip_to_CRLF by assumption.
    eexists _, _, _. reflexivity.
  - rewrite skip_to by (try assumption; try reflexivity; discriminate).
    cbv beta iota. change (byteZ "#" =? ch "#") with true. cbv iota.
    unfold bind at 1. rewrite skipRestOfLine_LF by assumption.
    eexists _, _, _. reflexivity.
  - rewrite skip_to by (try assumption; try reflexivity; discriminate).
    cbv beta iota. change (byteZ "#" =? ch "#") with true. cbv iota.
    destruct (skipRestOfLine_EOF cm l (col + Z.of_nat (String.length ws) + 1)
                (Some (String "#" EmptyString)) b e k Hcm) as (c & col' & E).
    unfold bind at 1. rewrite E.
    eexists _, _, _. reflexivity.
Qed.

Lemma Next_finish_ends (eol rest : string) d l col lr b e k :
  ends eol rest d ->
  exists col' lr' b',
    Next_finish (mkReader l col (bufio.mk eol lr) b e k)
    = Some (true, mkReader (l + d) col' (bufio.mk rest lr') b' None k).
Proof.
  intros He. unfold Next_finish.
  destruct (expectCommentOrEndOfLine_ends eol rest d l col lr b e k He)
    as (col' & lr' & b' & E).
  unfold bind at 1. rewrite E. eexists _, _, _. reflexivity.
Qed.


Lemma resource_accepted t :
  resource t -> relativeIRI t = false /\ rdf.Kind t <> rdf.LiteralTerm.
Proof.
  unfold resource, relativeIRI, isIRI, isBlank.
  intros [[(Hk & _) Ha]|(Hk & _)]; rewrite Hk.
  - rewrite Ha. split; [reflexivity | discriminate].
  - split; [reflexivity | discriminate].
Qed.

Lemma object_accepted t :
  object t -> relativeIRI t = false /\ relativeDatatype t = false.
Proof.
  unfold object. intros [Hr|[(Hk & _) Hd]].
  - destruct (resource_accepted t Hr) as [H1 H2]. split; [exact H1|].
    unfold relativeDatatype. destruct (rdf.Kind t); try reflexivity. congruence.
  - unfold relativeIRI, relativeDatatype. rewrite Hk. cbn [rdf.Kind_eqb andb].
    split; [reflexivity|].
    destruct (rdf.Datatype t) as [|a s] eqn:E; [reflexivity|].
    cbn [String.length Nat.eqb negb]. rewrite Hd by discriminate. reflexivity.
Qed.

Lemma graph_cases g :
  graph g ->
  (g = rdf.zero /\ rdf.Kind_eqb (rdf.Kind g) rdf.UnknownTerm = true)
  \/ (g <> rdf.zero /\ rdf.Kind_eqb (rdf.Kind g) rdf.UnknownTerm = false
      /\ rdf.Kind g <> rdf.LiteralTerm).
Proof.
  unfold graph, isIRI, isBlank. intros [->|[(Hk & _)|(Hk & _)]].
  - left. split; reflexivity.
  - right. rewrite Hk. repeat split; try discriminate.
    intros ->. discriminate Hk.
  - right. rewrite Hk. repeat split; try discriminate.
    intros ->. discriminate Hk.
Qed.

Lemma first_of_resource s t :
  writes s t -> rdf.Kind t <> rdf.LiteralTerm ->
  exists (x : ascii) s', s = String x s' /\ byteZ x < 128 /\ byteZ x <> ch "013"
                         /\ isSpace (byteZ x) = false
                         /\ (byteZ x =? ch "#") = false
                         /\ (byteZ x =? ch "010") = false.
Proof.
  intros Hw Hk. destruct Hw as [its cs Hf Hne | c cs Hc Hcs Hdot | its cs sfx Hf Hok].
  - eexists _, _. split; [reflexivity|]. repeat split; try reflexivity; discriminate.
  - eexists _, _. split; [reflexivity|]. repeat split; try reflexivity; discriminate.
  - exfalso. apply Hk. destruct sfx; reflexivity.
Qed.

Lemma Next_graph_end (ws eol rest : string) d l col lr b e k :
  blanks ws = true -> ends eol rest d ->
  exists col' lr' b',
    Next_graph (mkReader l col (bufio.mk (ws ++ String "." eol) lr) b e k)
    = Some (true, mkReader (l + d) col' (bufio.mk rest lr') b' None k).
Proof.
  intros Hws He. unfold Next_graph.
  destruct (end_of_triple ws eol l col lr b e k Hws) as (c1 & l1 & b1 & E1).
  unfold bind at 1. rewrite E1. cbv beta iota.
  apply Next_finish_ends. exact He.
Qed.

Lemma Next_graph_term (ws eol rest tg : string) (g : rdf.Term) d l col lr b e k :
  blanks ws = true -> ends eol rest d ->
  writes tg g -> rdf.Kind g <> rdf.LiteralTerm ->
  exists col' lr' b',
    Next_graph
      (mkReader l col (bufio.mk (ws ++ tg ++ String " " (String "." eol)) lr) b e k)
    = Some (true, mkReader (l + d) col' (bufio.mk rest lr') b' None
                           (Quad.with_G g k)).
Proof.
  intros Hws He Hw Hk. unfold Next_graph.
  destruct (lexes_term_IRI_or_blank tg g ws (String "." eol) Hw Hk Hws)
    as (_ & _ & L).
  destruct (L l col lr b e k) as (c1 & l1 & b1 & ws1 & Hws1 & E1).
  unfold bind at 1. rewrite E1. cbv beta iota.
  unfold bind at 1. unfold set_G, modify, with_q. cbn [line column r buf err q].
  destruct (readEndQuad_period ws1 eol l c1 l1 b1 e (Quad.with_G g k) Hws1)
    as (c2 & l2 & b2 & E2).
  unfold bind at 1. rewrite E2. cbv beta iota.
  apply Next_finish_ends. exact He.
Qed.


Lemma finishes_end (eol rest : string) d :
  ends eol rest d -> finishes Next_graph (String "." eol) (fun k => k) rest d.
Proof. intros He ws l col lr b e k Hws. now apply Next_graph_end. Qed.

Lemma finishes_graph (tg eol rest : string) (g : rdf.Term) d :
  ends eol rest d -> writes tg g -> rdf.Kind g <> rdf.LiteralTerm ->
  finishes Next_graph (tg ++ String " " (String "." eol)) (Quad.with_G g) rest d.
Proof. intros He Hw Hk ws l col lr b e k Hws. now apply Next_graph_term. Qed.

Lemma finishes_object (input : string) f rest d (to : string) (o : rdf.Term) :
  finishes Next_graph input f rest d -> writes to o -> object o ->
  finishes Next_object (to ++ String " " input)
           (fun k => f (Quad.with_O o k)) rest d.
Proof.
  intros Hg Hw Ho ws l col lr b e k Hws. unfold Next_object.
  destruct (lexes_term_any to o ws input Hw Hws l col lr b e k)
    as (c1 & l1 & b1 & ws1 & Hws1 & E1).
  unfold bind at 1. rewrite E1. cbv beta iota.
  destruct (object_accepted o Ho) as [-> ->].
  unfold bind at 1. unfold set_O, modify, with_q. cbn [line column r buf err q].
  apply Hg. exact Hws1.
Qed.

Lemma finishes_predicate (input : string) f rest d (tp : string) (p : rdf.Term) :
  finishes Next_object input f rest d -> writes tp p -> resource p ->
  finishes Next_predicate (tp ++ String " " input)
           (fun k => f (Quad.with_P p k)) rest d.
Proof.
  intros Hg Hw Hp ws l col lr b e k Hws. unfold Next_predicate.
  destruct (resource_accepted p Hp) as [Hr Hk].
  destruct (lexes_term_IRI_or_blank tp p ws input Hw Hk Hws) as (L & _).
  destruct (L l col lr b e k) as (c1 & l1 & b1 & ws1 & Hws1 & E1).
  unfold bind at 1. rewrite E1. cbv beta iota. rewrite Hr.
  unfold bind at 1. unfold set_P, modify, with_q. cbn [line column r buf err q].
  apply Hg. exact Hws1.
Qed.

Lemma finishes_subject (input : string) f rest d (ts : string) (s : rdf.Term) :
  finishes Next_predicate input f rest d -> writes ts s -> resource s ->
  finishes Next_subject (ts ++ String " " input)
           (fun k => f (Quad.with_S s k)) rest d.
Proof.
  intros Hg Hw Hp ws l col lr b e k Hws. unfold Next_subject.
  destruct (resource_accepted s Hp) as [Hr Hk].
  destruct (lexes_term_IRI_or_blank ts s ws input Hw Hk Hws) as (L & _).
  destruct (L l col lr b e k) as (c1 & l1 & b1 & ws1 & Hws1 & E1).
  unfold bind at 1. rewrite E1. cbv beta iota. rewrite Hr.
  unfold bind at 1. unfold set_S, modify, with_q. cbn [line column r buf err q].
  apply Hg. exact Hws1.
Qed.

Lemma preamble_nonneg s n : preamble s n -> 0 <= n.
Proof. induction 1; lia. Qed.

(** The loop at the head of [Next], over a preamble and the spaces in
    front of a statement. *)
Lemma Next_skip_preamble (pre : string) (n : Z) :
  preamble pre n ->
  forall fuel (ws : string) (x : ascii) (tl : string) l col lr b e k,
    blanks ws = true ->
    byteZ x < 128 -> byteZ x <> ch "013" -> isSpace (byteZ x) = false ->
    (byteZ x =? ch "#") = false -> (byteZ x =? ch "010") = false ->
    (String.length pre < fuel)%nat ->
    exists col',
      Next_skip fuel (ch "010")
        (mkReader l col (bufio.mk (pre ++ ws ++ String x tl) lr) b e k)
      = Some (inr (byteZ x),
              mkReader (l + n) col'
                       (bufio.mk tl (Some (String x EmptyString))) b e k).
Proof.
  induction 1 as [|ws' s n Hws' Hs IH|ws' s n Hws' Hs IH|ws' cm s n Hws' Hcm Hs IH];
    intros fuel ws x tl l col lr b e k Hws X1 X2 X3 X4 X5 Hf;
    (destruct fuel as [|fuel]; [cbn [String.length] in Hf; lia|]);
    cbn [Next_skip]; change (ch "010" =? ch "010") with true; cbv iota;
    unfold bind at 1.
  - cbn [append]. rewrite skip_to by assumption. cbv beta iota. rewrite X4.
    rewrite Z.add_0_r. eexists.
    destruct fuel; cbn [Next_skip]; rewrite X5; reflexivity.
  - rewrite app_assoc_s. cbn [append].
    rewrite skip_to by (try assumption; try reflexivity; discriminate).
    cbv beta iota. change (byteZ "010" =? ch "#") with false. cbv iota.
    apply IH; try assumption.
    rewrite length_app_s in Hf. cbn [String.length] in Hf. lia.
  - rewrite app_assoc_s. cbn [append].
    rewrite skip_to_CRLF by assumption.
    cbv beta iota. change (ch "010" =? ch "#") with false. cbv iota.
    apply IH; try assumption.
    rewrite length_app_s in Hf. cbn [String.length] in Hf. lia.
  - rewrite app_assoc_s. cbn [append]. rewrite app_assoc_s. cbn [append].
    rewrite skip_to by (try assumption; try reflexivity; discriminate).
    cbv beta iota. change (byteZ "#" =? ch "#") with true. cbv iota.
    unfold bind at 1. rewrite skipRestOfLine_LF by assumption.
    cbv beta iota.
    destruct (IH fuel ws x tl (l + 1) 0 (Some (String "010" EmptyString))
                 b e k Hws X1 X2 X3 X4 X5) as (col' & E).
    { rewrite !length_app_s in Hf. cbn [String.length] in Hf.
      rewrite length_app_s in Hf. cbn [String.length] in Hf. lia. }
    rewrite E. exists col'.
    replace (l + 1 + n) with (l + (n + 1)) by lia. reflexivity.
Qed.

(** The same loop when nothing but a preamble is left. *)
Lemma Next_skip_nothing (pre : string) (n : Z) :
  preamble pre n ->
  forall fuel (t : string) l col lr b e k,
    trailer t ->
    (String.length pre < fuel)%nat ->
    exists col',
      Next_skip fuel (ch "010")
        (mkReader l col (bufio.mk (pre ++ t) lr) b e k)
      = Some (inl false,
              mkReader (l + n) col' (bufio.mk EmptyString None) b e k).
Proof.
  induction 1 as [|ws' s n Hws' Hs IH|ws' s n Hws' Hs IH|ws' cm s n Hws' Hcm Hs IH];
    intros fuel t l col lr b e k Ht Hf;
    (destruct fuel as [|fuel]; [cbn [String.length] in Hf; lia|]);
    cbn [Next_skip]; change (ch "010" =? ch "010") with true; cbv iota;
    unfold bind at 1.
  - cbn [append]. rewrite Z.add_0_r.
    destruct Ht as [ws Hw | ws cm Hw Hcm].
    + rewrite (proj2 (skipWhitespace_run l col lr b e k ws Hw)).
      eexists. reflexivity.
    + rewrite skip_to by (try assumption; try reflexivity; discriminate).
      cbv beta iota. change (byteZ "#" =? ch "#") with true. cbv iota.
      destruct (skipRestOfLine_EOF cm l (col + Z.of_nat (String.length ws) + 1)
                  (Some (String "#" EmptyString)) b e k Hcm) as (c & col' & E).
      unfold bind at 1. rewrite E. eexists. reflexivity.
  - rewrite app_assoc_s. cbn [append].
    rewrite skip_to by (try assumption; try reflexivity; discriminate).
    cbv beta iota. change (byteZ "010" =? ch "#") with false. cbv iota.
    apply IH; try assumption.
    rewrite length_app_s in Hf. cbn [String.length] in Hf. lia.
  - rewrite app_assoc_s. cbn [append].
    rewrite skip_to_CRLF by assumption.
    cbv beta iota. change (ch "010" =? ch "#") with false. cbv iota.
    apply IH; try assumption.
    rewrite length_app_s in Hf. cbn [String.length] in Hf. lia.
  - rewrite app_assoc_s. cbn [append]. rewrite app_assoc_s. cbn [append].
    rewrite skip_to by (try assumption; try reflexivity; discriminate).
    cbv beta iota. change (byteZ "#" =? ch "#") with true. cbv iota.
    unfold bind at 1. rewrite skipRestOfLine_LF by assumption.
    cbv beta iota.
    destruct (IH fuel t (l + 1) 0 (Some (String "010" EmptyString))
                 b e k Ht) as (col' & E).
    { rewrite !length_app_s in Hf. cbn [String.length] in Hf.
      rewrite length_app_s in Hf. cbn [String.length] in Hf. lia. }
    rewrite E. exists col'.
    replace (l + 1 + n) with (l + (n + 1)) by lia. reflexivity.
Qed.

Lemma Next_statement (pre ws : string) (n : Z) (input : string) f rest d
      (ts : string) (s : rdf.Term) l col lr b k :
  preamble pre n -> blanks ws = true ->
  finishes Next_predicate input f rest d -> writes ts s -> resource s ->
  exists col' lr' b',
    Next (mkReader l col
            (bufio.mk (pre ++ ws ++ ts ++ String " " input) lr) b None k)
    = Some (true,
            mkReader (l + 1 + n + d) col' (bufio.mk rest lr') b' None
                     (f (Quad.with_S s Quad.zero))).
Proof.
  intros Hpre Hws Hg Hw Hs.
  destruct (resource_accepted s Hs) as [Hr Hk].
  destruct (first_of_resource ts s Hw Hk)
    as (x & s' & Ets & X1 & X2 & X3 & X4 & X5).
  pose proof (finishes_subject input f rest d ts s Hg Hw Hs) as Hfin.
  unfold Next; cbn [err]. unfold Next_attempt.
  unfold bind at 1. unfold modify, with_column, with_line, with_q.
  cbn [line column r buf err q].
  unfold bind at 1. unfold with_fuel, fuel_of. cbn [r bufio.rest].
  rewrite Ets in *. cbn [append].
  destruct (Next_skip_preamble pre n Hpre
              (S (String.length (pre ++ ws ++ String x (s' ++ String " " input))))
              ws x (s' ++ String " " input) (l + 1) (-1) lr b None Quad.zero
              Hws X1 X2 X3 X4 X5) as (c0 & E).
  { rewrite length_app_s. lia. }
  rewrite E. cbv beta iota.
  unfold bind at 1. unfold lift at 1.
  cbn [r bufio.UnreadRune bufio.lastRune bufio.rest append].
  unfold with_r. cbn [line column r buf err q].
  rewrite <- Z.add_assoc with (n := l + 1).
  replace (l + 1 + (n + d)) with (l + 1 + n + d) by lia.
  apply (Hfin EmptyString). reflexivity.
Qed.

Lemma Next_line (show : rdf.Term -> string) (k : Quad.t)
        (pre ws eol rest : string) (n d : Z) l col lr b k0 :
  quad_ok k -> readable show k ->
  preamble pre n -> blanks ws = true -> ends eol rest d ->
  exists col' lr' b',
    Next (mkReader l col
            (bufio.mk (pre ++ ws ++ Quad_String show k ++ eol) lr) b None k0)
    = Some (true,
            mkReader (l + 1 + n + d) col' (bufio.mk rest lr') b' None k).
Proof.
  destruct k as [s p o g]. unfold quad_ok, readable, Quad_String.
  cbn [Quad.S Quad.P Quad.O Quad.G].
  intros (Hs & Hp & Ho & Hg) (Ws & Wp & Wo & Wg) Hpre Hws He.
  destruct (graph_cases g Hg) as [[-> Hu]|(Hz & Hu & Hk)]; rewrite Hu.
  - rewrite !app_assoc_s. cbn [append].
    exact (Next_statement pre ws n _ _ _ _ _ _ l col lr b k0 Hpre Hws
             (finishes_predicate _ _ _ _ _ _
                (finishes_object _ _ _ _ _ _ (finishes_end eol rest d He) Wo Ho)
                Wp Hp)
             Ws Hs).
  - rewrite !app_assoc_s. cbn [append].
    exact (Next_statement pre ws n _ _ _ _ _ _ l col lr b k0 Hpre Hws
             (finishes_predicate _ _ _ _ _ _
                (finishes_object _ _ _ _ _ _
                   (finishes_graph _ eol rest g d He (Wg Hz) Hk) Wo Ho) Wp Hp)
             Ws Hs).
Qed.

Lemma calls_document (show : rdf.Term -> string) (ks : list Quad.t) :
  Forall (fun k => quad_ok k /\ readable show k) ks ->
  forall l col lr b k0,
    calls (S (List.length ks))
          (mkReader l col (bufio.mk (document show ks) lr) b None k0)
    = Some (map (fun k => (true, k, @None error)) ks
            ++ [(false, Quad.zero, None)])%list.
Proof.
  induction 1 as [|k ks [Hq Hr] Hks IH]; intros l col lr b k0.
  - reflexivity.
  - cbn [document List.length map app].
    destruct (Next_line show k EmptyString EmptyString
                (String "010" (document show ks))
                (document show ks) 0 0 l col lr b k0 Hq Hr
                pre_nil eq_refl
                (ends_lf EmptyString _ eq_refl)) as (c1 & l1 & b1 & E).
    cbn [append] in E.
    change (calls (S (S (List.length ks))) ?rd)
      with (match Next rd with
            | None => None
            | Some (b, rd') =>
              match calls (S (List.length ks)) rd' with
              | None => None
              | Some l => Some ((b, Quad rd', Err rd') :: l)
              end
            end).
    rewrite E. rewrite IH. reflexivity.
Qed.

Lemma pushback_readRune rd0 rd c rd' :
  (len rd <= len rd0)%nat -> readRune_post rd c None rd' -> pushback rd0 rd'.
Proof.
  intros Hl (_ & _ & _ & Hbs & _) bs Hlast. specialize (Hbs bs Hlast). lia.
Qed.

Lemma skipWhitespace_loop_back (n : nat) :
  forall rd0 rd c,
    (len rd <= len rd0)%nat -> pushback rd0 rd ->
    pc (skipWhitespace_loop n c)
       (fun res rd' => snd res = None -> pushback rd0 rd') rd.
Proof.
  induction n as [|n IH]; intros rd0 rd c Hl Hp; simpl.
  - destruct (isSpace c); [apply pc_no_result | apply pc_ret; auto].
  - destruct (isSpace c); [|apply pc_ret; auto].
    apply pc_readRune; intros c' e rd' Hr.
    destruct e as [x|]; [apply pc_ret; discriminate|].
    apply IH.
    + destruct Hr as (_ & _ & Hr & _). lia.
    + eapply pushback_readRune; eauto.
Qed.

Lemma skipWhitespace_back rd :
  pc skipWhitespace (fun res rd' => snd res = None -> pushback rd rd') rd.
Proof.
  unfold skipWhitespace. apply pc_readRune; intros c e rd' Hr.
  destruct e as [x|]; [apply pc_ret; discriminate|].
  apply pc_with_fuel, skipWhitespace_loop_back.
  - destruct Hr as (_ & _ & Hr & _). lia.
  - eapply pushback_readRune; eauto.
Qed.

Lemma skipRestOfLine_loop_back (n : nat) :
  forall rd0 rd c,
    (len rd <= len rd0)%nat -> pushback rd0 rd ->
    pc (skipRestOfLine_loop n c)
       (fun res rd' => snd res = None -> pushback rd0 rd') rd.
Proof.
  induction n as [|n IH]; intros rd0 rd c Hl Hp; simpl.
  - destruct (negb (c =? ch "010")); [apply pc_no_result|].
    apply pc_modify, pc_ret. intros _. exact Hp.
  - destruct (negb (c =? ch "010")).
    + apply pc_readRune; intros c' e rd' Hr.
      destruct e as [x|]; [apply pc_ret; discriminate|].
      apply IH.
      * destruct Hr as (_ & _ & Hr & _). lia.
      * eapply pushback_readRune; eauto.
    + apply pc_modify, pc_ret. intros _. exact Hp.
Qed.

Lemma skipRestOfLine_back rd :
  pc skipRestOfLine (fun res rd' => snd res = None -> pushback rd rd') rd.
Proof.
  unfold skipRestOfLine. apply pc_readRune; intros c e rd' Hr.
  destruct e as [x|]; [apply pc_ret; discriminate|].
  apply pc_with_fuel, skipRestOfLine_loop_back.
  - destruct Hr as (_ & _ & Hr & _). lia.
  - eapply pushback_readRune; eauto.
Qed.

Lemma pushback_le rd0 rd1 rd :
  (len rd1 <= len rd0)%nat -> pushback rd1 rd -> pushback rd0 rd.
Proof. intros Hl Hp bs Hb. specialize (Hp bs Hb). lia. Qed.

Lemma Next_skip_back (n : nat) :
  forall rd0 rd c,
    (len rd <= len rd0)%nat ->
    (c =? ch "010") = true \/ pushback rd0 rd ->
    pc (Next_skip n c)
       (fun s rd' => (len rd' <= len rd0)%nat
                     /\ match s with
                        | inl b => b = false
                        | inr _ => pushback rd0 rd'
                        end) rd.
Proof.
  induction n as [|n IH]; intros rd0 rd c Hl Hp; simpl.
  - destruct (c =? ch "010"); [apply pc_no_result|].
    apply pc_ret. split; [exact Hl|]. destruct Hp; [discriminate | assumption].
  - destruct (c =? ch "010");
      [|apply pc_ret; split; [exact Hl|];
        destruct Hp; [discriminate | assumption]].
    eapply pc_bind;
      [apply pc_conj;
       [apply (pc_of_wp _ _ _ (skipWhitespace_spec rd))
       | apply skipWhitespace_back]|].
    intros [c1 e1] rd1 [((_ & _ & Hk1) & Hs1) Hb1]. simpl in Hs1, Hb1.
    destruct e1 as [x|].
    + destruct x; unfold pc, stop, bind, modify, ret; intros a rd' [= <- <-];
        unfold len in *; simpl; split; auto; lia.
    + specialize (Hb1 eq_refl).
      destruct (c1 =? ch "#").
      * eapply pc_bind;
          [apply pc_conj;
           [apply (pc_of_wp _ _ _ (skipRestOfLine_spec rd1))
           | apply skipRestOfLine_back]|].
        intros [c2 e2] rd2 [((_ & _ & Hk2) & Hs2) Hb2]. simpl in Hs2, Hb2.
        destruct e2 as [x|].
        -- destruct x; unfold pc, stop, bind, modify, ret; intros a rd' [= <- <-];
             unfold len in *; simpl; split; auto; lia.
        -- apply IH; [lia|]. right.
           apply pushback_le with rd1; [lia | auto].
      * apply IH; [lia|]. right. apply pushback_le with rd; [lia | auto].
Qed.

Ltac shrink_leaf :=
  unfold pc, stop, bind, modify, ret, wrap, gets, set_S, set_P, set_O, set_G;
  intros ? ? [= <- <-]; unfold shrinks, len in *; simpl; lia.

Lemma Next_finish_shrinks rd : pc Next_finish (shrinks rd) rd.
Proof.
  unfold Next_finish.
  eapply pc_bind; [apply (pc_of_wp _ _ _ (expectCommentOrEndOfLine_spec rd))|].
  intros e rd1 (_ & _ & Hk). shrink_leaf.
Qed.

Lemma shrinks_from rd0 rd (m : M bool) :
  (len rd <= len rd0)%nat -> pc m (shrinks rd) rd -> pc m (shrinks rd0) rd.
Proof.
  intros Hl H. refine (pc_mono _ _ _ _ H _). unfold shrinks. intros; lia.
Qed.

Lemma Next_graph_shrinks rd : pc Next_graph (shrinks rd) rd.
Proof.
  unfold Next_graph.
  eapply pc_bind;
    [apply (pc_of_wp _ _ _ (parseIriOrBlankNodeOrEndTriple_spec rd))|].
  intros [[fin term] e] rd1 ((_ & _ & Hk) & _).
  destruct e as [x|]; [shrink_leaf|].
  destruct fin.
  - apply shrinks_from; [exact Hk | apply Next_finish_shrinks].
  - unfold set_G. apply pc_modify.
    eapply pc_bind; [apply (pc_of_wp _ _ _ (readEndQuad_spec _))|].
    intros e2 rd2 (_ & _ & Hk2). unfold len in Hk2; simpl in Hk2.
    destruct e2 as [x|]; [shrink_leaf|].
    apply shrinks_from; [unfold len in *; lia | apply Next_finish_shrinks].
Qed.

Lemma Next_object_shrinks rd : pc Next_object (shrinks rd) rd.
Proof.
  unfold Next_object.
  eapply pc_bind; [apply (pc_of_wp _ _ _ (parseAnyTerm_spec rd))|].
  intros [term e] rd1 ((_ & _ & Hk) & _).
  destruct e as [x|]; [shrink_leaf|].
  destruct (relativeIRI term); [shrink_leaf|].
  destruct (relativeDatatype term); [shrink_leaf|].
  unfold set_O. apply pc_modify.
  apply shrinks_from; [unfold len in *; simpl; lia | apply Next_graph_shrinks].
Qed.

Lemma Next_predicate_shrinks rd : pc Next_predicate (shrinks rd) rd.
Proof.
  unfold Next_predicate.
  eapply pc_bind; [apply (pc_of_wp _ _ _ (parseIriOrBlankNode_spec rd))|].
  intros [term e] rd1 ((_ & _ & Hk) & _).
  destruct e as [x|]; [shrink_leaf|].
  destruct (relativeIRI term); [shrink_leaf|].
  unfold set_P. apply pc_modify.
  apply shrinks_from; [unfold len in *; simpl; lia | apply Next_object_shrinks].
Qed.

(** A term that was read took at least one byte. *)
Lemma parseIriOrBlankNode_consumes rd :
  pc parseIriOrBlankNode
     (fun res rd' => (len rd' <= len rd)%nat
                     /\ (snd res = None -> (len rd' < len rd)%nat)) rd.
Proof.
  unfold parseIriOrBlankNode, Reset. apply pc_modify.
  eapply pc_bind; [apply (pc_of_wp _ _ _ (skipWhitespace_spec _))|].
  intros [c e] rd1 ((_ & _ & Hk) & Hs). unfold len in Hk, Hs; simpl in Hk, Hs.
  destruct e as [x|].
  - apply pc_ret. simpl. unfold len. split; [lia | discriminate].
  - destruct (c =? ch "<").
    + refine (pc_mono _ _ _ _ (pc_of_wp _ _ _ (parseIRI_spec rd1)) _).
      intros res rd2 ((_ & _ & Hk2) & _). unfold len in *. split; intros; lia.
    + destruct (c =? ch "_").
      * refine (pc_mono _ _ _ _ (pc_of_wp _ _ _ (parseBlankNode_spec rd1)) _).
        intros res rd2 ((_ & _ & Hk2) & _). unfold len in *. split; intros; lia.
      * unfold pc, fail, wrap, bind, gets, ret. intros ? ? [= <- <-].
        simpl. unfold len. split; [lia | discriminate].
Qed.

Lemma Next_subject_consumes rd :
  pc Next_subject
     (fun b rd' => (len rd' <= len rd)%nat
                   /\ (b = true -> (len rd' < len rd)%nat)) rd.
Proof.
  unfold Next_subject.
  eapply pc_bind; [apply parseIriOrBlankNode_consumes|].
  intros [term e] rd1 (Hk & Hs). simpl in Hs.
  destruct e as [x|].
  { unfold pc, stop, bind, modify, ret. intros ? ? [= <- <-].
    unfold len in *; simpl. split; [lia | discriminate]. }
  specialize (Hs eq_refl).
  destruct (relativeIRI term).
  { unfold pc, stop, bind, modify, ret, wrap, gets. intros ? ? [= <- <-].
    unfold len in *; simpl. split; [lia | discriminate]. }
  unfold set_S. apply pc_modify.
  refine (pc_mono _ _ _ _ (Next_predicate_shrinks _) _).
  unfold shrinks, len in *; simpl. intros b rd2 H. split; intros; lia.
Qed.

Lemma Next_attempt_consumes rd :
  pc Next_attempt
     (fun b rd' => (len rd' <= len rd)%nat
                   /\ (b = true -> (len rd' < len rd)%nat)) rd.
Proof.
  unfold Next_attempt. apply pc_modify.
  set (rd0 := with_column (-1) (with_line (line rd + 1) (with_q Quad.zero rd))).
  assert (H0 : len rd0 = len rd) by reflexivity.
  eapply pc_bind.
  { apply pc_with_fuel.
    apply (Next_skip_back (fuel_of rd0) rd0 rd0 (ch "010")); [lia|].
    left; reflexivity. }
  intros [b|c] rd1 (Hl & Hp).
  - apply pc_ret. split; [lia|]. subst b. discriminate.
  - unfold pc, bind, lift, bufio.UnreadRune.
    destruct (bufio.lastRune (r rd1)) as [bs|] eqn:El.
    + specialize (Hp bs El). intros b rd2 E.
      destruct (Next_subject_consumes _ _ _ E) as (H1 & H2).
      unfold len in *; simpl in *. rewrite length_app in *.
      split; [lia | intros Hb; specialize (H2 Hb); lia].
    + unfold stop, bind, modify, ret. intros b rd2 [= <- <-].
      unfold len in *; simpl. split; [lia | discriminate].
Qed.

Lemma Next_shrinks (rd rd' : Reader) (b : bool) :
  Next rd = Some (b, rd') ->
  (len rd' <= len rd)%nat /\ (b = true -> (len rd' < len rd)%nat).
Proof.
  unfold Next. destruct (err rd).
  - intros [= <- <-]. split; [lia | discriminate].
  - apply Next_attempt_consumes.
Qed.

Lemma calls_quads (n : nat) :
  forall rd l, calls n rd = Some l -> (quads l <= len rd)%nat.
Proof.
  induction n as [|n IH]; intros rd l; cbn [calls].
  - intros [= <-]. cbn. lia.
  - destruct (Next rd) as [[b rd']|] eqn:E; [|discriminate].
    destruct (calls n rd') as [l'|] eqn:E'; [|discriminate].
    intros [= <-]. destruct (Next_shrinks _ _ _ E) as (H1 & H2).
    specialize (IH _ _ E'). cbn [quads].
    destruct b; [specialize (H2 eq_refl)|]; lia.
Qed.

Lemma readCodepoint_stopped (ds : string) :
  forall n cp l col lr b e k t cause rest lr',
    hexDigits ds = true -> (String.length ds < n)%nat ->
    stopper t cause rest lr' ->
    exists cp',
      readCodepoint n cp (mkReader l col (bufio.mk (ds ++ t) lr) b e k)
      = Some ((cp',
               Some (ParseError l (col + Z.of_nat (String.length ds) + 1) cause)),
              mkReader l (col + Z.of_nat (String.length ds) + 1)
                       (bufio.mk rest lr') b e k).
Proof.
  induction ds as [|x ds IH]; intros n cp l col lr b e k t cause rest lr' Hd Hn Ht;
    (destruct n as [|n]; [simpl in Hn; lia|]).
  - cbn [append String.length Z.of_nat]. rewrite Z.add_0_r.
    cbn [readCodepoint]. unfold bind at 1. unfold lift at 1.
    destruct Ht as [|y tl Y1 Y2 Y3].
    + rewrite readRune_EOF. eexists. reflexivity.
    + rewrite readRune_ascii by (try apply Z.ltb_lt; try apply Z.eqb_neq; assumption).
      cbv beta iota. unfold hexDigit in Y3; cbv zeta in Y3.
      destruct ((ch "0" <=? byteZ y) && (byteZ y <=? ch "9")); [discriminate|].
      destruct ((ch "a" <=? byteZ y) && (byteZ y <=? ch "f")); [discriminate|].
      destruct ((ch "A" <=? byteZ y) && (byteZ y <=? ch "F")); [discriminate|].
      eexists. reflexivity.
  - unfold hexDigits in Hd. cbn [all_bytes] in Hd.
    apply andb_true_iff in Hd as [Hx Hd].
    destruct (hexDigit x) as [d|] eqn:Ex; [|discriminate].
    cbn [append String.length].
    rewrite (readCodepoint_digit _ _ _ _ _ _ _ _ _ _ _ Ex).
    destruct (IH n (wrap32 (cp + wrap32 (Z.shiftl 1 (4 * Z.of_nat n) * d)))
                 l (col + 1) (Some (String x EmptyString)) b e k t cause rest lr'
                 Hd) as (cp' & E); [cbn [String.length] in Hn; lia | exact Ht |].
    rewrite E. exists cp'.
    replace (col + 1 + Z.of_nat (String.length ds) + 1)
      with (col + Z.of_nat (S (String.length ds)) + 1) by lia.
    reflexivity.
Qed.

(** ** The laws of the reader *)

(** X6.  [skipWhitespace] reads over any run of spaces and tabs and
    returns the first character behind it, which it has consumed: the
    column has moved by the length of the run plus one, and [UnreadRune]
    can give that character back.  On a run that reaches the end of the
    input it returns [io.EOF], and has counted a column for the read that
    failed as well. *)
Theorem skipWhitespace_blanks l col lr b e k (ws : string) (x : ascii)
        (tl : string) :
  blanks ws = true ->
  byteZ x < 128 -> byteZ x <> ch "013" -> isSpace (byteZ x) = false ->
  skipWhitespace (mkReader l col (bufio.mk (ws ++ String x tl) lr) b e k)
  = Some ((byteZ x, None),
          mkReader l (col + Z.of_nat (String.length ws) + 1)
                   (bufio.mk tl (Some (String x EmptyString))) b e k)
  /\ skipWhitespace (mkReader l col (bufio.mk ws lr) b e k)
     = Some ((0, Some EOF),
             mkReader l (col + Z.of_nat (String.length ws) + 1)
                      (bufio.mk EmptyString None) b e k).
Proof.
  intros Hw H1 H2 H3.
  destruct (skipWhitespace_run l col lr b e k ws Hw) as [Ha Hb].
  split; [now apply Ha | exact Hb].
Qed.

Lemma skipWhitespace_blanks_witness :
  blanks "  " = true /\ byteZ "<" < 128 /\ byteZ "<" <> ch "013"
  /\ isSpace (byteZ "<") = false
  /\ skipWhitespace (mkReader 1 0 (bufio.mk "  <a>" None) EmptyString None
                              Quad.zero)
     = Some ((60, None),
             mkReader 1 3 (bufio.mk "a>" (Some "<")) EmptyString None Quad.zero)
  /\ skipWhitespace (mkReader 1 0 (bufio.mk "  " None) EmptyString None
                              Quad.zero)
     = Some ((0, Some EOF),
             mkReader 1 3 (bufio.mk EmptyString None) EmptyString None
                      Quad.zero).
Proof.
  assert (h1 : blanks "  " = true) by reflexivity.
  assert (h2 : byteZ "<" < 128) by reflexivity.
  assert (h3 : byteZ "<" <> ch "013") by discriminate.
  assert (h4 : isSpace (byteZ "<") = false) by reflexivity.
  repeat (split; [assumption|]).
  exact (skipWhitespace_blanks 1 0 None EmptyString None Quad.zero
                               "  " "<" "a>" h1 h2 h3 h4).
Defined.

(** X7.  [readRune] reads back what [WriteRune] writes: on the UTF-8
    encoding of any Unicode scalar value other than the carriage return
    it returns that rune, consumes exactly the bytes of the encoding,
    which [UnreadRune] can give back, and moves the column by one,
    whatever the length of the encoding. *)
Theorem readRune_rune l col lr b e k (c : rune) (tl : string) :
  scalar c -> c <> ch "013" ->
  readRune (mkReader l col (bufio.mk (utf8.EncodeRune c ++ tl) lr) b e k)
  = ((c, None),
     mkReader l (col + 1) (bufio.mk tl (Some (utf8.EncodeRune c))) b e k).
Proof. apply readRune_encoded. Qed.

Lemma readRune_rune_witness :
  scalar 0x20AC /\ 0x20AC <> ch "013"
  /\ readRune (mkReader 1 0 (bufio.mk (utf8.EncodeRune 0x20AC ++ "x") None)
                        EmptyString None Quad.zero)
     = ((0x20AC, None),
        mkReader 1 1 (bufio.mk "x" (Some (utf8.EncodeRune 0x20AC)))
                 EmptyString None Quad.zero).
Proof.
  assert (h1 : scalar 0x20AC) by (unfold scalar; lia).
  assert (h2 : 0x20AC <> ch "013") by discriminate.
  repeat (split; [assumption|]).
  exact (readRune_rune 1 0 None EmptyString None Quad.zero 0x20AC "x" h1 h2).
Defined.

(** X8.  [skipRestOfLine] reads to the next line feed whatever bytes
    stand in front of it (bytes that are no valid UTF-8, carriage returns
    with or without a line feed behind them): it returns the line feed,
    has consumed it, has added one to the line and set the column to
    zero.  No multi-byte sequence is decoded over the line feed.  If no
    line feed is left it reads to the end of the input and returns
    [io.EOF], with the line unchanged. *)
Theorem skipRestOfLine_line l col lr b e k (cm rest : string) :
  all_bytes notLF cm = true ->
  skipRestOfLine (mkReader l col (bufio.mk (cm ++ String "010" rest) lr) b e k)
  = Some ((ch "010", None),
          mkReader (l + 1) 0
                   (bufio.mk rest (Some (String "010" EmptyString))) b e k)
  /\ exists c col',
      skipRestOfLine (mkReader l col (bufio.mk cm lr) b e k)
      = Some ((c, Some EOF),
              mkReader l col' (bufio.mk EmptyString None) b e k).
Proof.
  intros Hcm. split.
  - now apply skipRestOfLine_LF.
  - now apply skipRestOfLine_EOF.
Qed.

Lemma skipRestOfLine_line_witness :
  all_bytes notLF (String "195" (String "013" "c")) = true
  /\ skipRestOfLine
       (mkReader 1 5
          (bufio.mk (String "195" (String "013" "c") ++ String "010" "<a>")
                    None)
          EmptyString None Quad.zero)
     = Some ((ch "010", None),
             mkReader (1 + 1) 0
                      (bufio.mk "<a>" (Some (String "010" EmptyString)))
                      EmptyString None Quad.zero).
Proof.
  assert (h1 : all_bytes notLF (String "195" (String "013" "c")) = true)
    by reflexivity.
  split; [assumption|].
  exact (proj1 (skipRestOfLine_line 1 5 None EmptyString None Quad.zero
                                    (String "195" (String "013" "c")) "<a>" h1)).
Defined.

(** X9.  The value of an IRI is its text with every numeric escape
    replaced by the UTF-8 encoding of the rune it denotes.  For a text
    made of runes that [parseIRI] copies (Unicode scalar values above the
    space other than the angle brackets, the double quote, the braces, the
    bar, the caret, the backquote and the backslash) and of escapes with
    four or eight hexadecimal digits, followed by the closing bracket,
    [parseIRI] returns the IRI whose value is what the buffer held
    followed by the decoded text, and stands behind the bracket; if that
    value is empty it returns [ErrUnexpectedCharacter] instead, at the
    column of the bracket plus one. *)
Theorem parseIRI_value l col lr b e k (its : list item) (cs : list rune)
        (tl : string) :
  Forall2 iriItem its cs ->
  parseIRI (mkReader l col (bufio.mk (text its ++ String ">" tl) lr) b e k)
  = Some
      (if (String.length (b ++ encode cs) =? 0)%nat
       then (rdf.zero,
             Some (ParseError l (col + width its + 1) ErrUnexpectedCharacter))
       else (rdf.IRI (b ++ encode cs), None),
       mkReader l (col + width its + 1)
                (bufio.mk tl (Some (String ">" EmptyString)))
                (b ++ encode cs) e k).
Proof. apply parseIRI_items. Qed.

Lemma parseIRI_value_witness :
  Forall2 iriItem [Plain 120; Plain 58; Numeric "u" "00e9"]
          [120; 58; wrap32 233]
  /\ parseIRI (mkReader 1 0 (bufio.mk "x:\u00e9> ." None) EmptyString None
                        Quad.zero)
     = Some ((rdf.IRI (String "x" (String ":" (String "195" (String "169"
                                                              EmptyString)))),
              None),
             mkReader 1 9 (bufio.mk " ." (Some ">"))
                      (String "x" (String ":" (String "195" (String "169"
                                                               EmptyString))))
                      None Quad.zero).
Proof.
  assert (h1 : Forall2 iriItem [Plain 120; Plain 58; Numeric "u" "00e9"]
                       [120; 58; wrap32 233]).
  { repeat constructor; try (unfold scalar; lia); try reflexivity. }
  split; [assumption|].
  exact (parseIRI_value 1 0 None EmptyString None Quad.zero
                        [Plain 120; Plain 58; Numeric "u" "00e9"]
                        [120; 58; wrap32 233] " ." h1).
Defined.

(** X10.  An IRI that does not reach its closing bracket is an error with
    the position of the reader: [ErrUnexpectedEOF] where the input ends,
    [ErrUnexpectedCharacter] where a space, a control character other
    than a carriage return (a line feed included), an opening bracket, a
    double quote, a brace, a bar, a caret or a backquote stands.  The
    column is that of the offending position plus one.  (A carriage
    return is left out: [readRune] looks behind it first.) *)
Theorem parseIRI_cut_short l col lr b e k (its : list item) (cs : list rune)
        (x : ascii) (tl : string) :
  Forall2 iriItem its cs -> iriForbidden x = true -> byteZ x <> ch "013" ->
  parseIRI (mkReader l col (bufio.mk (text its) lr) b e k)
  = Some ((rdf.zero, Some (ParseError l (col + width its + 1) ErrUnexpectedEOF)),
          mkReader l (col + width its + 1) (bufio.mk EmptyString None)
                   (b ++ encode cs) e k)
  /\ parseIRI (mkReader l col (bufio.mk (text its ++ String x tl) lr) b e k)
     = Some ((rdf.zero,
              Some (ParseError l (col + width its + 1) ErrUnexpectedCharacter)),
             mkReader l (col + width its + 1)
                      (bufio.mk tl (Some (String x EmptyString)))
                      (b ++ encode cs) e k).
Proof.
  intros Hf Hx H13. pose proof (text_length its) as Hl. split.
  - unfold parseIRI, with_fuel, fuel_of. cbn [r bufio.rest].
    pose proof (iri_items its cs (S (String.length (text its))) l col lr b e k
                  EmptyString Hf) as E.
    rewrite app_empty_r in E. rewrite E by lia.
    replace (S (String.length (text its)) - List.length its)%nat
      with (S (String.length (text its) - List.length its))%nat by lia.
    reflexivity.
  - unfold parseIRI, with_fuel, fuel_of. cbn [r bufio.rest].
    rewrite (iri_items its cs) by (try assumption; rewrite length_app_s; lia).
    rewrite length_app_s. cbn [String.length].
    replace (S (String.length (text its) + S (String.length tl)) - List.length its)%nat
      with (S (S (String.length (text its) + String.length tl) - List.length its))%nat
      by lia.
    cbn [parseIRI_loop]. unfold bind at 1. unfold lift at 1.
    assert (Hlow : byteZ x < 128).
    { unfold iriForbidden in Hx.
      change (ch "<") with 60 in Hx; change (ch "034") with 34 in Hx;
        change (ch "{") with 123 in Hx; change (ch "}") with 125 in Hx;
        change (ch "|") with 124 in Hx; change (ch "^") with 94 in Hx;
        change (ch "`") with 96 in Hx. lia. }
    rewrite readRune_ascii
      by (try apply Z.ltb_lt; try apply Z.eqb_neq; assumption).
    cbv beta iota. unfold iriForbidden in Hx. rewrite Hx. reflexivity.
Qed.

Lemma parseIRI_cut_short_witness :
  Forall2 iriItem [Plain 120; Plain 58] [120; 58]
  /\ iriForbidden " " = true /\ byteZ " " <> ch "013"
  /\ parseIRI (mkReader 1 0 (bufio.mk "x:" None) EmptyString None Quad.zero)
     = Some ((rdf.zero, Some (ParseError 1 3 ErrUnexpectedEOF)),
             mkReader 1 3 (bufio.mk EmptyString None) "x:" None Quad.zero)
  /\ parseIRI (mkReader 1 0 (bufio.mk "x: y>" None) EmptyString None Quad.zero)
     = Some ((rdf.zero, Some (ParseError 1 3 ErrUnexpectedCharacter)),
             mkReader 1 3 (bufio.mk "y>" (Some " ")) "x:" None Quad.zero).
Proof.
  assert (h1 : Forall2 iriItem [Plain 120; Plain 58] [120; 58])
    by (repeat constructor; try (unfold scalar; lia); reflexivity).
  assert (h2 : iriForbidden " " = true) by reflexivity.
  assert (h3 : byteZ " " <> ch "013") by discriminate.
  repeat (split; [assumption|]).
  exact (parseIRI_cut_short 1 0 None EmptyString None Quad.zero
                            [Plain 120; Plain 58] [120; 58] " " "y>" h1 h2 h3).
Defined.

(** X11.  The label of a blank node.  Behind the underscore, for a colon,
    a first rune that is a name-start character or a digit, and any
    further runes that are name characters or periods, [parseBlankNode]
    returns the blank node whose label is the UTF-8 text of these runes
    (behind what the buffer held).  The label ends at a space or a tab,
    which is consumed, and then does not end in a period; or at a period
    that stands in front of the end of the input, a space, a tab, a line
    feed or a carriage return, and that period is left unread.  A period
    followed by anything else belongs to the label. *)
Theorem parseBlankNode_label l col lr b e k (c : rune) (cs : list rune)
        (t rest : string) (dot : bool) :
  (isPnCharsU c || isNumeral c) = true -> forallb labelRune cs = true ->
  label_end t rest dot -> (dot = false -> endsInPeriod cs = false) ->
  exists col' lr',
    parseBlankNode
      (mkReader l col
         (bufio.mk (String ":" (encode (c :: cs) ++ t)) lr) b e k)
    = Some ((rdf.Blank (b ++ encode (c :: cs)), None),
            mkReader l col' (bufio.mk rest lr') (b ++ encode (c :: cs)) e k).
Proof. apply parseBlankNode_general. Qed.

Lemma parseBlankNode_label_witness :
  (isPnCharsU 98 || isNumeral 98) = true
  /\ forallb labelRune [46; 49] = true
  /\ label_end "." "." true
  /\ (true = false -> endsInPeriod [46; 49] = false)
  /\ exists col' lr',
      parseBlankNode
        (mkReader 1 1 (bufio.mk ":b.1." None) EmptyString None Quad.zero)
      = Some ((rdf.Blank "b.1", None),
              mkReader 1 col' (bufio.mk "." lr') "b.1" None Quad.zero).
Proof.
  assert (h1 : (isPnCharsU 98 || isNumeral 98) = true) by reflexivity.
  assert (h2 : forallb labelRune [46; 49] = true) by reflexivity.
  assert (h3 : label_end "." "." true) by constructor.
  assert (h4 : true = false -> endsInPeriod [46; 49] = false)
    by discriminate.
  repeat (split; [assumption|]).
  exact (parseBlankNode_label 1 1 None EmptyString None Quad.zero
                              98 [46; 49] "." "." true h1 h2 h3 h4).
Defined.

(** X12.  The value of a literal is its text with every escape replaced
    by what it stands for.  For a text made of runes written as they are
    (any Unicode scalar value but the double quote, the backslash and the
    carriage return; a line feed is accepted), of the one-character
    escapes of [parseLiteral] and of numeric escapes with four or eight
    hexadecimal digits, closed by a double quote and followed by nothing,
    by a language tag (letters, then at most one hyphen with letters and
    digits) or by a datatype (two carets and, in angle brackets, printable
    ASCII other than space, angle brackets and double quote), in front of
    a period, a space or a tab, [parseLiteral] returns the literal with
    the decoded value and that language or datatype, and leaves the
    period, space or tab unread. *)
Theorem parseLiteral_value l col lr b e k (its : list item) (cs : list rune)
        (sfx : suffix) (sep : ascii) (tl : string) :
  Forall2 litItem its cs -> suffix_ok sfx = true -> isEnd sep = true ->
  exists col' lr' b',
    parseLiteral
      (mkReader l col
         (bufio.mk (text its ++ dq ++ suffix_text sfx ++ String sep tl) lr)
         b e k)
    = Some ((literal (b ++ encode cs) sfx, None),
            mkReader l col' (bufio.mk (String sep tl) lr') b' e k).
Proof. apply parseLiteral_items. Qed.

Lemma parseLiteral_value_witness :
  Forall2 litItem [Plain 97; Simple "n"; Numeric "u" "0062"]
          [97; 10; wrap32 98]
  /\ suffix_ok (Lang "en-GB") = true /\ isEnd "." = true
  /\ exists col' lr' b',
      parseLiteral
        (mkReader 1 0
           (bufio.mk ("a\n\u0062" ++ dq ++ "@en-GB" ++ ".") None)
           EmptyString None Quad.zero)
      = Some ((rdf.LiteralWithLanguage (String "a" (String "010" "b")) "en-GB",
               None),
              mkReader 1 col' (bufio.mk "." lr') b' None Quad.zero).
Proof.
  assert (h1 : Forall2 litItem [Plain 97; Simple "n"; Numeric "u" "0062"]
                       [97; 10; wrap32 98]).
  { constructor; [apply li_plain; try (unfold scalar; lia); discriminate|].
    constructor; [apply li_simple; reflexivity|].
    constructor; [|constructor].
    apply li_numeric; [left; split; reflexivity | reflexivity]. }
  assert (h2 : suffix_ok (Lang "en-GB") = true) by reflexivity.
  assert (h3 : isEnd "." = true) by reflexivity.
  repeat (split; [assumption|]).
  exact (parseLiteral_value 1 0 None EmptyString None Quad.zero
                            [Plain 97; Simple "n"; Numeric "u" "0062"]
                            [97; 10; wrap32 98] (Lang "en-GB") "." EmptyString
                            h1 h2 h3).
Defined.

(** X13.  A literal that is not closed, or closed in front of a wrong
    character, is an error with the position of the reader:
    [ErrUnexpectedEOF] where the input ends inside the quotes or right
    behind the closing quote, [ErrUnexpectedCharacter] where the closing
    quote is followed by an ASCII character other than a period, a space,
    a tab, an at sign, a caret or a carriage return (a line feed, for
    one). *)
Theorem parseLiteral_cut_short l col lr b e k (its : list item)
        (cs : list rune) (x : ascii) (tl : string) :
  Forall2 litItem its cs ->
  byteZ x < 128 -> byteZ x <> ch "013" ->
  isEnd x = false -> byteZ x <> ch "@" -> byteZ x <> ch "^" ->
  parseLiteral (mkReader l col (bufio.mk (text its) lr) b e k)
  = Some ((rdf.zero, Some (ParseError l (col + width its + 1) ErrUnexpectedEOF)),
          mkReader l (col + width its + 1) (bufio.mk EmptyString None)
                   (b ++ encode cs) e k)
  /\ parseLiteral (mkReader l col (bufio.mk (text its ++ dq) lr) b e k)
     = Some ((rdf.zero,
              Some (ParseError l (col + width its + 2) ErrUnexpectedEOF)),
             mkReader l (col + width its + 2) (bufio.mk EmptyString None)
                      (b ++ encode cs) e k)
  /\ parseLiteral
       (mkReader l col (bufio.mk (text its ++ dq ++ String x tl) lr) b e k)
     = Some ((rdf.zero,
              Some (ParseError l (col + width its + 2) ErrUnexpectedCharacter)),
             mkReader l (col + width its + 2)
                      (bufio.mk tl (Some (String x EmptyString)))
                      (b ++ encode cs) e k).
Proof.
  intros Hf X1 X2 X3 X4 X5. pose proof (text_length its) as Hl.
  apply Z.ltb_lt in X1. apply Z.eqb_neq in X2, X4, X5.
  replace (col + width its + 2) with (col + width its + 1 + 1) by lia.
  split; [|split].
  - unfold parseLiteral, with_fuel, fuel_of. cbn [r bufio.rest].
    pose proof (literal_items its cs (S (String.length (text its))) l col lr b e k
                  EmptyString Hf) as E.
    rewrite app_empty_r in E. rewrite E by lia.
    replace (S (String.length (text its)) - List.length its)%nat
      with (S (String.length (text its) - List.length its))%nat by lia.
    reflexivity.
  - unfold parseLiteral, with_fuel, fuel_of. cbn [r bufio.rest].
    rewrite (literal_items its cs) by (try assumption; rewrite length_app_s; lia).
    rewrite length_app_s. unfold dq. cbn [String.length].
    replace (S (String.length (text its) + 1) - List.length its)%nat
      with (S (S (String.length (text its)) - List.length its))%nat by lia.
    cbn [parseLiteral_loop]. unfold bind at 1. unfold lift at 1.
    rewrite readRune_ascii by reflexivity. cbv beta iota.
    change (byteZ "034" =? ch "034") with true. cbv iota.
    reflexivity.
  - unfold parseLiteral, with_fuel, fuel_of. cbn [r bufio.rest].
    rewrite (literal_items its cs) by (try assumption; rewrite length_app_s; lia).
    rewrite length_app_s. unfold dq. cbn [append String.length].
    replace (S (String.length (text its) + S (S (String.length tl)))
             - List.length its)%nat
      with (S (S (S (String.length (text its) + String.length tl))
               - List.length its))%nat by lia.
    cbn [parseLiteral_loop]. unfold bind at 1. unfold lift at 1.
    rewrite readRune_ascii by reflexivity. cbv beta iota.
    change (byteZ "034" =? ch "034") with true. cbv iota.
    unfold parseLiteral_suffix. unfold bind at 1. unfold lift at 1.
    rewrite readRune_ascii by assumption. cbv beta iota.
    unfold isEnd, isSpace in X3. rewrite <- orb_assoc. rewrite X3, X4, X5.
    reflexivity.
Qed.

Lemma parseLiteral_cut_short_witness :
  Forall2 litItem [Plain 97] [97]
  /\ byteZ "010" < 128 /\ byteZ "010" <> ch "013" /\ isEnd "010" = false
  /\ byteZ "010" <> ch "@" /\ byteZ "010" <> ch "^"
  /\ parseLiteral (mkReader 1 0 (bufio.mk "a" None) EmptyString None Quad.zero)
     = Some ((rdf.zero, Some (ParseError 1 2 ErrUnexpectedEOF)),
             mkReader 1 2 (bufio.mk EmptyString None) "a" None Quad.zero)
  /\ parseLiteral (mkReader 1 0 (bufio.mk ("a" ++ dq) None) EmptyString None
                            Quad.zero)
     = Some ((rdf.zero, Some (ParseError 1 3 ErrUnexpectedEOF)),
             mkReader 1 3 (bufio.mk EmptyString None) "a" None Quad.zero)
  /\ parseLiteral
       (mkReader 1 0 (bufio.mk ("a" ++ dq ++ String "010" "<b>") None)
                 EmptyString None Quad.zero)
     = Some ((rdf.zero, Some (ParseError 1 3 ErrUnexpectedCharacter)),
             mkReader 1 3 (bufio.mk "<b>" (Some (String "010" EmptyString)))
                      "a" None Quad.zero).
Proof.
  assert (h1 : Forall2 litItem [Plain 97] [97]).
  { constructor; [apply li_plain; try (unfold scalar; lia); discriminate
                 | constructor]. }
  assert (h2 : byteZ "010" < 128) by reflexivity.
  assert (h3 : byteZ "010" <> ch "013") by discriminate.
  assert (h4 : isEnd "010" = false) by reflexivity.
  assert (h5 : byteZ "010" <> ch "@") by discriminate.
  assert (h6 : byteZ "010" <> ch "^") by discriminate.
  repeat (split; [assumption|]).
  exact (parseLiteral_cut_short 1 0 None EmptyString None Quad.zero
                                [Plain 97] [97] "010" "<b>" h1 h2 h3 h4 h5 h6).
Defined.

(** X14.  A numeric escape with too few digits is an error, in a literal
    and in an IRI alike.  Behind [\u] with fewer than four, or [\U] with
    fewer than eight, hexadecimal digits, the loop returns
    [ErrInvalidCodepointExpression] if an ASCII character other than a
    carriage return follows that is no hexadecimal digit, and
    [ErrUnexpectedEOF] if the input ends; the
    position is that of the reader, one column behind the offending
    place, and nothing is added to the buffer. *)
Theorem escape_cut_short n l col lr b e k (u : ascii) (ds t : string)
        (cause : error) (rest : string) (lr' : option string) :
  u = "u"%char \/ u = "U"%char ->
  hexDigits ds = true -> (String.length ds < escapeSize (byteZ u))%nat ->
  stopper t cause rest lr' ->
  parseLiteral_loop (S n)
    (mkReader l col (bufio.mk (String "\" (String u (ds ++ t))) lr) b e k)
  = Some ((rdf.zero,
           Some (ParseError l (col + 2 + Z.of_nat (String.length ds) + 1) cause)),
          mkReader l (col + 2 + Z.of_nat (String.length ds) + 1)
                   (bufio.mk rest lr') b e k)
  /\ parseIRI_loop (S n)
       (mkReader l col (bufio.mk (String "\" (String u (ds ++ t))) lr) b e k)
     = Some ((rdf.zero,
              Some (ParseError l (col + 2 + Z.of_nat (String.length ds) + 1)
                               cause)),
             mkReader l (col + 2 + Z.of_nat (String.length ds) + 1)
                      (bufio.mk rest lr') b e k).
Proof.
  intros Hu Hd Hl Ht.
  assert (U : (byteZ u <? utf8.RuneSelf) = true
              /\ (byteZ u =? ch "013") = false
              /\ ((byteZ u =? ch "u") || (byteZ u =? ch "U")) = true
              /\ ((byteZ u =? ch "\") || (byteZ u =? ch "034")) = false
              /\ (byteZ u =? ch "t") = false /\ (byteZ u =? ch "r") = false
              /\ (byteZ u =? ch "n") = false /\ (byteZ u =? ch "b") = false
              /\ (byteZ u =? ch "f") = false)
    by (destruct Hu as [->| ->]; repeat split; reflexivity).
  destruct U as (U1 & U2 & U4 & U5 & U6 & U7 & U8 & U9 & U10).
  destruct (readCodepoint_stopped ds (escapeSize (byteZ u)) 0 l (col + 1 + 1)
              (Some (String u EmptyString)) b e k t cause rest lr' Hd Hl Ht)
    as (cp' & E).
  replace (col + 2 + Z.of_nat (String.length ds) + 1)
    with (col + 1 + 1 + Z.of_nat (String.length ds) + 1) by lia.
  split.
  - cbn [parseLiteral_loop].
    unfold bind at 1. unfold lift at 1.
    rewrite readRune_ascii by reflexivity. cbv beta iota.
    change (byteZ "\" =? ch "034") with false.
    change (byteZ "\" =? ch "\") with true. cbv iota.
    unfold bind at 1. unfold lift at 1.
    rewrite readRune_ascii by assumption. cbv beta iota.
    rewrite U5, U6, U7, U8, U9, U10, U4.
    unfold bind at 1. rewrite E. reflexivity.
  - cbn [parseIRI_loop].
    unfold bind at 1. unfold lift at 1.
    rewrite readRune_ascii by reflexivity. cbv beta iota.
    change ((byteZ "\" <=? 32) || (byteZ "\" =? ch "<") || (byteZ "\" =? ch "034")
            || (byteZ "\" =? ch "{") || (byteZ "\" =? ch "}")
            || (byteZ "\" =? ch "|") || (byteZ "\" =? ch "^")
            || (byteZ "\" =? ch "`")) with false.
    change (byteZ "\" =? ch ">") with false.
    change (byteZ "\" =? ch "\") with true. cbv iota.
    unfold bind at 1. unfold lift at 1.
    rewrite readRune_ascii by assumption. cbv beta iota.
    rewrite U4.
    unfold bind at 1. rewrite E. reflexivity.
Qed.

Lemma escape_cut_short_witness :
  ("u"%char = "u"%char \/ "u"%char = "U"%char)
  /\ hexDigits "00e" = true
  /\ (String.length "00e" < escapeSize (byteZ "u"))%nat
  /\ stopper ">" ErrInvalidCodepointExpression EmptyString (Some ">")
  /\ parseIRI_loop 1
       (mkReader 1 0 (bufio.mk "\u00e>" None) "x:" None Quad.zero)
     = Some ((rdf.zero, Some (ParseError 1 6 ErrInvalidCodepointExpression)),
             mkReader 1 6 (bufio.mk EmptyString (Some ">")) "x:" None Quad.zero).
Proof.
  assert (h1 : "u"%char = "u"%char \/ "u"%char = "U"%char) by (left; reflexivity).
  assert (h2 : hexDigits "00e" = true) by reflexivity.
  assert (h3 : (String.length "00e" < escapeSize (byteZ "u"))%nat)
    by (cbn; lia).
  assert (h4 : stopper ">" ErrInvalidCodepointExpression EmptyString (Some ">"))
    by (constructor; [reflexivity | discriminate | reflexivity]).
  repeat (split; [assumption|]).
  exact (proj2 (escape_cut_short 0 1 0 None "x:" None Quad.zero "u" "00e" ">"
                                 ErrInvalidCodepointExpression EmptyString
                                 (Some ">") h1 h2 h3 h4)).
Defined.

(** X15.  [parseIRI] knows no escape but the numeric ones: a backslash in
    front of any other ASCII character except a carriage return, [\n] and
    [\t] included, is [ErrUnexpectedCharacter].  [parseLiteral] returns
    the same error for a backslash in front of an ASCII character that is
    neither one of [t b n r f], a double quote or a backslash, nor [u] or
    [U], nor a carriage return. *)
Theorem escape_unknown n l col lr b e k (x : ascii) (tl : string) :
  byteZ x < 128 -> byteZ x <> ch "013" ->
  byteZ x <> ch "u" -> byteZ x <> ch "U" ->
  parseIRI_loop (S n)
    (mkReader l col (bufio.mk (String "\" (String x tl)) lr) b e k)
  = Some ((rdf.zero, Some (ParseError l (col + 2) ErrUnexpectedCharacter)),
          mkReader l (col + 2) (bufio.mk tl (Some (String x EmptyString)))
                   b e k)
  /\ (simpleEscape x = None ->
      parseLiteral_loop (S n)
        (mkReader l col (bufio.mk (String "\" (String x tl)) lr) b e k)
      = Some ((rdf.zero, Some (ParseError l (col + 2) ErrUnexpectedCharacter)),
              mkReader l (col + 2) (bufio.mk tl (Some (String x EmptyString)))
                       b e k)).
Proof.
  intros X1 X2 X3 X4.
  apply Z.ltb_lt in X1. apply Z.eqb_neq in X2, X3, X4.
  replace (col + 2) with (col + 1 + 1) by lia.
  split.
  - cbn [parseIRI_loop].
    unfold bind at 1. unfold lift at 1.
    rewrite readRune_ascii by reflexivity. cbv beta iota.
    change ((byteZ "\" <=? 32) || (byteZ "\" =? ch "<") || (byteZ "\" =? ch "034")
            || (byteZ "\" =? ch "{") || (byteZ "\" =? ch "}")
            || (byteZ "\" =? ch "|") || (byteZ "\" =? ch "^")
            || (byteZ "\" =? ch "`")) with false.
    change (byteZ "\" =? ch ">") with false.
    change (byteZ "\" =? ch "\") with true. cbv iota.
    unfold bind at 1. unfold lift at 1.
    rewrite readRune_ascii by assumption. cbv beta iota.
    rewrite X3, X4. reflexivity.
  - intros Hs. cbn [parseLiteral_loop].
    unfold bind at 1. unfold lift at 1.
    rewrite readRune_ascii by reflexivity. cbv beta iota.
    change (byteZ "\" =? ch "034") with false.
    change (byteZ "\" =? ch "\") with true. cbv iota.
    unfold bind at 1. unfold lift at 1.
    rewrite readRune_ascii by assumption. cbv beta iota.
    unfold simpleEscape in Hs; cbv zeta in Hs.
    repeat match type of Hs with
           | context [if ?t then _ else _] => destruct t; [discriminate Hs|]
           end.
    rewrite X3, X4. reflexivity.
Qed.

Lemma escape_unknown_witness :
  byteZ "n" < 128 /\ byteZ "n" <> ch "013" /\ byteZ "n" <> ch "u"
  /\ byteZ "n" <> ch "U"
  /\ parseIRI_loop 1 (mkReader 1 0 (bufio.mk "\n>" None) "x:" None Quad.zero)
     = Some ((rdf.zero, Some (ParseError 1 2 ErrUnexpectedCharacter)),
             mkReader 1 2 (bufio.mk ">" (Some "n")) "x:" None Quad.zero).
Proof.
  assert (h1 : byteZ "n" < 128) by reflexivity.
  assert (h2 : byteZ "n" <> ch "013") by discriminate.
  assert (h3 : byteZ "n" <> ch "u") by discriminate.
  assert (h4 : byteZ "n" <> ch "U") by discriminate.
  repeat (split; [assumption|]).
  exact (proj1 (escape_unknown 0 1 0 None "x:" None Quad.zero "n" ">"
                               h1 h2 h3 h4)).
Defined.

(** ** Statements and documents *)

(** X16.  [Next] reads back what [Quad.String] writes.  Take a quad of
    the shape [Next] returns (X2) and a term printer, standing for the
    method [String] of [rdf.Term], that writes each of its terms in
    N-Quads syntax.  On the text that [Quad.String] makes of the quad,
    with blank lines and comment lines in front of it, spaces and tabs
    before it, and behind it spaces and tabs, a comment, and a line end
    (a line feed, with or without a carriage return) or the end of the
    input, [Next] returns true with exactly that quad, no error, and the
    input behind the line left to read.  The line counter has moved by
    one for the call and by one for every comment that ends in a line
    feed; blank lines are not counted. *)
Theorem Next_reads_String (show : rdf.Term -> string) (k : Quad.t)
        (pre ws eol rest : string) (n d : Z) l col lr b k0 :
  quad_ok k -> readable show k ->
  preamble pre n -> blanks ws = true -> ends eol rest d ->
  exists col' lr' b',
    Next (mkReader l col
            (bufio.mk (pre ++ ws ++ Quad_String show k ++ eol) lr) b None k0)
    = Some (true,
            mkReader (l + 1 + n + d) col' (bufio.mk rest lr') b' None k).
Proof. apply Next_line. Qed.

Lemma Next_reads_String_witness :
  quad_ok (Quad.mk (rdf.IRI "x:s") (rdf.IRI "x:p")
                   (rdf.LiteralWithLanguage "o" "en") (rdf.Blank "g"))
  /\ readable plain_text
       (Quad.mk (rdf.IRI "x:s") (rdf.IRI "x:p")
                (rdf.LiteralWithLanguage "o" "en") (rdf.Blank "g"))
  /\ preamble (String "#" (" c" ++ String "010" (String "010" EmptyString)))
              (0 + 1)
  /\ blanks " " = true
  /\ ends (" " ++ String "#" (" end" ++ String "010" "<next>")) "<next>" 1
  /\ exists col' lr' b',
      Next (mkReader 0 0
              (bufio.mk
                 (String "#" (" c" ++ String "010" (String "010" EmptyString))
                  ++ " "
                  ++ Quad_String plain_text
                       (Quad.mk (rdf.IRI "x:s") (rdf.IRI "x:p")
                                (rdf.LiteralWithLanguage "o" "en")
                                (rdf.Blank "g"))
                  ++ " " ++ String "#" (" end" ++ String "010" "<next>"))
                 None)
              EmptyString None Quad.zero)
      = Some (true,
              mkReader (0 + 1 + (0 + 1) + 1) col' (bufio.mk "<next>" lr') b'
                       None
                       (Quad.mk (rdf.IRI "x:s") (rdf.IRI "x:p")
                                (rdf.LiteralWithLanguage "o" "en")
                                (rdf.Blank "g"))).
Proof.
  assert (hs : writes "<x:s>" (rdf.IRI "x:s")).
  { refine (w_IRI [Plain 120; Plain 58; Plain 115] [120; 58; 115] _ _);
      [repeat constructor; try (unfold scalar; lia) | discriminate]. }
  assert (hp : writes "<x:p>" (rdf.IRI "x:p")).
  { refine (w_IRI [Plain 120; Plain 58; Plain 112] [120; 58; 112] _ _);
      [repeat constructor; try (unfold scalar; lia) | discriminate]. }
  assert (ho : writes (dq ++ "o" ++ dq ++ "@en")
                      (rdf.LiteralWithLanguage "o" "en")).
  { refine (w_Literal [Plain 111] [111] (Lang "en") _ _); [|reflexivity].
    constructor; [|constructor].
    apply li_plain; try (unfold scalar; lia); discriminate. }
  assert (hg : writes "_:g" (rdf.Blank "g")).
  { refine (w_Blank 103 [] _ _ _); reflexivity. }
  assert (h1 : quad_ok (Quad.mk (rdf.IRI "x:s") (rdf.IRI "x:p")
                                (rdf.LiteralWithLanguage "o" "en")
                                (rdf.Blank "g"))).
  { unfold quad_ok, resource, object, graph, isIRI, isBlank, isLiteral.
    cbn [Quad.S Quad.P Quad.O Quad.G].
    split; [left; repeat split; discriminate|].
    split; [left; repeat split; discriminate|].
    split; [right; split; [repeat split; right; reflexivity|]
           | right; right; repeat split; discriminate].
    intros H; elim H; reflexivity. }
  assert (h2 : readable plain_text
                 (Quad.mk (rdf.IRI "x:s") (rdf.IRI "x:p")
                          (rdf.LiteralWithLanguage "o" "en") (rdf.Blank "g"))).
  { unfold readable. cbn [Quad.S Quad.P Quad.O Quad.G].
    split; [exact hs|]. split; [exact hp|]. split; [exact ho|].
    intros _. exact hg. }
  assert (h3 : preamble (String "#" (" c" ++ String "010"
                                            (String "010" EmptyString)))
                        (0 + 1)).
  { exact (pre_comment EmptyString " c" (String "010" EmptyString) 0
                       eq_refl eq_refl
                       (pre_blank EmptyString EmptyString 0 eq_refl pre_nil)). }
  assert (h4 : blanks " " = true) by reflexivity.
  assert (h5 : ends (" " ++ String "#" (" end" ++ String "010" "<next>"))
                    "<next>" 1).
  { exact (ends_comment " " " end" "<next>" eq_refl eq_refl). }
  repeat (split; [assumption|]).
  exact (Next_reads_String plain_text _ _ _ _ _ _ _ 0 0 None EmptyString
                           Quad.zero h1 h2 h3 h4 h5).
Defined.

(** X17.  A document of statement lines is read back in order.  For any
    list of quads as in X16, written one per line by [Quad.String] with a
    line feed behind each, a fresh reader answers the first calls of
    [Next] with true and the quads in their order, with [Err] nil each
    time, and the call after the last quad with false, the zero quad and
    [Err] nil. *)
Theorem session_document (show : rdf.Term -> string) (ks : list Quad.t) :
  Forall (fun k => quad_ok k /\ readable show k) ks ->
  session (S (List.length ks)) (document show ks)
  = Some (map (fun k => (true, k, @None error)) ks
          ++ [(false, Quad.zero, None)])%list.
Proof. intros H. unfold session, NewReader. now apply calls_document. Qed.

Lemma session_document_witness :
  Forall (fun k => quad_ok k /\ readable plain_text k)
         [Quad.mk (rdf.IRI "x:s") (rdf.IRI "x:p") (rdf.Blank "o") rdf.zero;
          Quad.mk (rdf.Blank "o") (rdf.IRI "x:p") (rdf.IRI "x:s")
                  (rdf.IRI "x:s")]
  /\ session 3
       (document plain_text
          [Quad.mk (rdf.IRI "x:s") (rdf.IRI "x:p") (rdf.Blank "o") rdf.zero;
           Quad.mk (rdf.Blank "o") (rdf.IRI "x:p") (rdf.IRI "x:s")
                   (rdf.IRI "x:s")])
     = Some [(true,
              Quad.mk (rdf.IRI "x:s") (rdf.IRI "x:p") (rdf.Blank "o") rdf.zero,
              None);
             (true,
              Quad.mk (rdf.Blank "o") (rdf.IRI "x:p") (rdf.IRI "x:s")
                      (rdf.IRI "x:s"),
              None);
             (false, Quad.zero, None)].
Proof.
  assert (hs : writes "<x:s>" (rdf.IRI "x:s")).
  { refine (w_IRI [Plain 120; Plain 58; Plain 115] [120; 58; 115] _ _);
      [repeat constructor; try (unfold scalar; lia) | discriminate]. }
  assert (hp : writes "<x:p>" (rdf.IRI "x:p")).
  { refine (w_IRI [Plain 120; Plain 58; Plain 112] [120; 58; 112] _ _);
      [repeat constructor; try (unfold scalar; lia) | discriminate]. }
  assert (ho : writes "_:o" (rdf.Blank "o")).
  { refine (w_Blank 111 [] _ _ _); reflexivity. }
  assert (rs : resource (rdf.IRI "x:s"))
    by (left; repeat split; discriminate).
  assert (rp : resource (rdf.IRI "x:p"))
    by (left; repeat split; discriminate).
  assert (ro : resource (rdf.Blank "o"))
    by (right; repeat split; discriminate).
  assert (h1 : Forall (fun k => quad_ok k /\ readable plain_text k)
                 [Quad.mk (rdf.IRI "x:s") (rdf.IRI "x:p") (rdf.Blank "o")
                          rdf.zero;
                  Quad.mk (rdf.Blank "o") (rdf.IRI "x:p") (rdf.IRI "x:s")
                          (rdf.IRI "x:s")]).
  { constructor; [|constructor; [|constructor]].
    - split.
      + unfold quad_ok. cbn [Quad.S Quad.P Quad.O Quad.G].
        repeat split; try assumption; [left; exact ro | left; reflexivity].
      + unfold readable. cbn [Quad.S Quad.P Quad.O Quad.G].
        repeat split; try assumption. intros H; elim H; reflexivity.
    - split.
      + unfold quad_ok. cbn [Quad.S Quad.P Quad.O Quad.G].
        repeat split; try assumption; [left; exact rs|].
        right; left. repeat split; discriminate.
      + unfold readable. cbn [Quad.S Quad.P Quad.O Quad.G].
        repeat split; try assumption. intros _. exact hs. }
  split; [assumption|].
  exact (session_document plain_text _ h1).
Defined.

(** X18.  A document without a statement yields no quad and no error.  On
    an input of blank lines and comment lines only, whose last line may
    lack its line feed, [Next] returns false with [Err] nil, the zero quad
    and the input used up; the line counter has moved by one and by the
    number of comments that ended in a line feed. *)
Theorem Next_nothing (pre t : string) (n : Z) l col lr b k :
  preamble pre n -> trailer t ->
  exists col',
    Next (mkReader l col (bufio.mk (pre ++ t) lr) b None k)
    = Some (false,
            mkReader (l + 1 + n) col' (bufio.mk EmptyString None) b None
                     Quad.zero).
Proof.
  intros Hp Ht. unfold Next; cbn [err]. unfold Next_attempt.
  unfold bind at 1. unfold modify, with_column, with_line, with_q.
  cbn [line column r buf err q].
  unfold bind at 1. unfold with_fuel, fuel_of. cbn [r bufio.rest].
  destruct (Next_skip_nothing pre n Hp (S (String.length (pre ++ t))) t
              (l + 1) (-1) lr b None Quad.zero Ht) as (col' & E).
  { rewrite length_app_s. lia. }
  rewrite E. exists col'. reflexivity.
Qed.

Lemma Next_nothing_witness :
  preamble (String "#" (" c" ++ String "010" (String "010" EmptyString)))
           (0 + 1)
  /\ trailer ("  " ++ String "#" " last")
  /\ exists col',
      Next (mkReader 0 0
              (bufio.mk
                 (String "#" (" c" ++ String "010" (String "010" EmptyString))
                  ++ "  " ++ String "#" " last") None)
              EmptyString None Quad.zero)
      = Some (false,
              mkReader (0 + 1 + (0 + 1)) col' (bufio.mk EmptyString None)
                       EmptyString None Quad.zero).
Proof.
  assert (h1 : preamble (String "#" (" c" ++ String "010"
                                            (String "010" EmptyString)))
                        (0 + 1)).
  { exact (pre_comment EmptyString " c" (String "010" EmptyString) 0
                       eq_refl eq_refl
                       (pre_blank EmptyString EmptyString 0 eq_refl pre_nil)). }
  assert (h2 : trailer ("  " ++ String "#" " last"))
    by (exact (tr_comment "  " " last" eq_refl eq_refl)).
  repeat (split; [assumption|]).
  exact (Next_nothing _ _ _ 0 0 None EmptyString Quad.zero h1 h2).
Defined.

(** X19.  A statement has to start with an opening angle bracket or an
    underscore.  If the first character behind the leading spaces and
    tabs of the first line of a call is any other ASCII character (but a
    number sign or a line end), a double quote for one, [Next] returns
    false and [Err] is a [ParseError] with [ErrUnexpectedCharacter], the
    quad is zero, and the character has been consumed.  The column of the
    error is the index of that character in the line plus one: the head
    of [Next] gives the character back with [UnreadRune] of the buffered
    reader, which leaves the column where it is, and the subject lexer
    counts the character a second time. *)
Theorem Next_bad_start (ws : string) (x : ascii) (tl : string) l col lr b k :
  blanks ws = true ->
  byteZ x < 128 -> byteZ x <> ch "013" -> byteZ x <> ch "010" ->
  isSpace (byteZ x) = false ->
  byteZ x <> ch "#" -> byteZ x <> ch "<" -> byteZ x <> ch "_" ->
  Next (mkReader l col (bufio.mk (ws ++ String x tl) lr) b None k)
  = Some (false,
          mkReader (l + 1) (Z.of_nat (String.length ws) + 1)
                   (bufio.mk tl (Some (String x EmptyString))) EmptyString
                   (Some (ParseError (l + 1) (Z.of_nat (String.length ws) + 1)
                                     ErrUnexpectedCharacter))
                   Quad.zero).
Proof.
  intros Hws X1 X2 X3 X4 X5 X6 X7.
  apply Z.eqb_neq in X3, X5, X6, X7.
  unfold Next; cbn [err]. unfold Next_attempt.
  unfold bind at 1. unfold modify, with_column, with_line, with_q.
  cbn [line column r buf err q].
  unfold bind at 1. unfold with_fuel, fuel_of. cbn [r bufio.rest Next_skip].
  change (ch "010" =? ch "010") with true. cbv iota.
  unfold bind at 1. rewrite skip_to by assumption. cbv beta iota.
  rewrite X5.
  assert (E : forall n rd, Next_skip n (byteZ x) rd = Some (inr (byteZ x), rd)).
  { intros n rd. destruct n; cbn [Next_skip]; rewrite X3; reflexivity. }
  rewrite E. cbv beta iota.
  unfold bind at 1. unfold lift at 1.
  cbn [r bufio.UnreadRune bufio.lastRune bufio.rest append].
  unfold with_r. cbn [line column r buf err q].
  unfold Next_subject, parseIriOrBlankNode.
  unfold bind at 1. unfold bind at 1. unfold Reset, modify, with_buf.
  cbn [line column r buf err q].
  unfold bind at 1.
  pose proof (skip_to EmptyString x tl (l + 1)
                (-1 + Z.of_nat (String.length ws) + 1) None EmptyString None
                Quad.zero eq_refl X1 X2 X4) as S0.
  cbn [append String.length Z.of_nat] in S0. rewrite S0. cbv beta iota.
  rewrite X6, X7.
  unfold fail, wrap, bind, gets, ret, stop, modify, with_err.
  cbn [line column r buf err q].
  replace (-1 + Z.of_nat (String.length ws) + 1 + 0 + 1)
    with (Z.of_nat (String.length ws) + 1) by lia.
  reflexivity.
Qed.

Lemma Next_bad_start_witness :
  blanks " " = true
  /\ byteZ "034" < 128 /\ byteZ "034" <> ch "013" /\ byteZ "034" <> ch "010"
  /\ isSpace (byteZ "034") = false
  /\ byteZ "034" <> ch "#" /\ byteZ "034" <> ch "<" /\ byteZ "034" <> ch "_"
  /\ Next (mkReader 0 0 (bufio.mk (" " ++ String "034" "lit") None)
                    EmptyString None Quad.zero)
     = Some (false,
             mkReader 1 2 (bufio.mk "lit" (Some (String "034" EmptyString)))
                      EmptyString
                      (Some (ParseError 1 2 ErrUnexpectedCharacter))
                      Quad.zero).
Proof.
  assert (h1 : blanks " " = true) by reflexivity.
  assert (h2 : byteZ "034" < 128) by reflexivity.
  assert (h3 : byteZ "034" <> ch "013") by discriminate.
  assert (h4 : byteZ "034" <> ch "010") by discriminate.
  assert (h5 : isSpace (byteZ "034") = false) by reflexivity.
  assert (h6 : byteZ "034" <> ch "#") by discriminate.
  assert (h7 : byteZ "034" <> ch "<") by discriminate.
  assert (h8 : byteZ "034" <> ch "_") by discriminate.
  repeat (split; [assumption|]).
  exact (Next_bad_start " " "034" "lit" 0 0 None EmptyString Quad.zero
                        h1 h2 h3 h4 h5 h6 h7 h8).
Defined.

(** X20.  No call of [Next] leaves more input unread than it found, the
    pushback of the buffered reader included, and a call that returns true
    has consumed at least one byte. *)
Theorem Next_consumes (rd rd' : Reader) (b : bool) :
  Next rd = Some (b, rd') ->
  (len rd' <= len rd)%nat /\ (b = true -> (len rd' < len rd)%nat).
Proof. apply Next_shrinks. Qed.

Lemma Next_consumes_witness :
  Next (NewReader "<x:s> <x:p> _:o .")
  = Some (true,
          mkReader 1 18 (bufio.mk EmptyString None) EmptyString None
                   (Quad.mk (rdf.IRI "x:s") (rdf.IRI "x:p") (rdf.Blank "o")
                            rdf.zero))
  /\ (len (mkReader 1 18 (bufio.mk EmptyString None) EmptyString None
                    (Quad.mk (rdf.IRI "x:s") (rdf.IRI "x:p") (rdf.Blank "o")
                             rdf.zero))
      <= len (NewReader "<x:s> <x:p> _:o ."))%nat.
Proof.
  assert (h1 : Next (NewReader "<x:s> <x:p> _:o .")
               = Some (true,
                       mkReader 1 18 (bufio.mk EmptyString None) EmptyString
                                None
                                (Quad.mk (rdf.IRI "x:s") (rdf.IRI "x:p")
                                         (rdf.Blank "o") rdf.zero)))
    by (vm_compute; reflexivity).
  split; [assumption|].
  exact (proj1 (Next_consumes _ _ _ h1)).
Defined.

(** X21.  A reader yields at most as many quads as its input has bytes:
    among the results of any number of calls of [Next] on a fresh reader,
    those that are true are no more than the length of the input.  So a
    loop that calls [Next] until it returns false comes to an end. *)
Theorem session_quads (n : nat) (input : string)
        (l : list (bool * Quad.t * option error)) :
  session n input = Some l -> (quads l <= String.length input)%nat.
Proof. unfold session. intros H. apply (calls_quads _ _ _ H). Qed.

Lemma session_quads_witness :
  session 2 "<x:s> <x:p> _:o ."
  = Some [(true,
           Quad.mk (rdf.IRI "x:s") (rdf.IRI "x:p") (rdf.Blank "o") rdf.zero,
           None);
          (false, Quad.zero, None)]
  /\ (quads [(true,
              Quad.mk (rdf.IRI "x:s") (rdf.IRI "x:p") (rdf.Blank "o") rdf.zero,
              None);
             (false, Quad.zero, None)]
      <= String.length "<x:s> <x:p> _:o .")%nat.
Proof.
  assert (h1 : session 2 "<x:s> <x:p> _:o ."
               = Some [(true,
                        Quad.mk (rdf.IRI "x:s") (rdf.IRI "x:p") (rdf.Blank "o")
                                rdf.zero,
                        None);
                       (false, Quad.zero, None)])
    by (vm_compute; reflexivity).
  split; [assumption|].
  exact (session_quads 2 _ _ h1).
Defined.

(** ** Bytes that are no UTF-8 *)



